(** * rotate-aws-key: a shallow embedding of the program and its properties

    The program (one TypeScript file, built as [dist/index.cjs]) rotates
    AWS IAM access keys: it lists the remote keys, creates a new key per
    selected profile, patches [~/.aws/credentials] (and optionally an env
    file) by regular-expression replacement, and deletes the old keys.
    Line numbers in the comments are those of the TypeScript source.

    The embedding has three layers:
    - JavaScript strings as lists of UTF-16 code units, with the part of
      [RegExp] and [String.prototype.replace] the program relies on;
    - a world (the files, and the trace of the calls made on the outside)
      threaded through a small monad of state, exceptions and
      [process.exit];
    - the program's functions, written in that monad. *)

From Stdlib Require Import NArith ZArith Ascii String List Bool Lia.
From stdpp Require Import base option list gmap.

Open Scope N_scope.
Open Scope list_scope.

(** ** JavaScript strings *)

(** A JavaScript string is a sequence of UTF-16 code units; a regular
    expression without the [u] flag works on code units. *)
Module Js.

Definition lit (s : string) : list N :=
  List.map N_of_ascii (list_ascii_of_string s).

(** ECMAScript LineTerminator: LF, CR, LS, PS. *)
Definition isLineTerminator (c : N) : bool :=
  (c =? 10) || (c =? 13) || (c =? 8232) || (c =? 8233).

(** ECMAScript WhiteSpace or LineTerminator, the set of [\s]: TAB, VT, FF,
    SP, NBSP, ZWNBSP, the Unicode space separators, and the line
    terminators. *)
Definition isSpace (c : N) : bool :=
  (c =? 9) || (c =? 11) || (c =? 12) || (c =? 32) || (c =? 160)
  || (c =? 5760) || ((8192 <=? c) && (c <=? 8202))
  || (c =? 8239) || (c =? 8287) || (c =? 12288) || (c =? 65279)
  || isLineTerminator c.

(** ECMAScript SyntaxCharacter: [^ $ \ . * + ? ( ) [ ] { } |]. *)
Definition isSyntaxCharacter (c : N) : bool :=
  (c =? 94) || (c =? 36) || (c =? 92) || (c =? 46) || (c =? 42)
  || (c =? 43) || (c =? 63) || (c =? 40) || (c =? 41) || (c =? 91)
  || (c =? 93) || (c =? 123) || (c =? 125) || (c =? 124).

(** *** The pattern fragment

    The pattern the program builds is [^\[NAME\]\s*.+\s*.+$] where NAME is
    the profile name, spliced in as pattern source.  The fragment modelled
    is the one the fixed part of that pattern is written in: literal
    characters, [.], [\s], escaped syntax characters, the assertions [^]
    and [$], and the greedy quantifiers [*] and [+] on a one-character
    atom.  A pattern that uses anything else (groups, classes,
    alternation, braces, [?], other escapes) is [Unsupported]: the model
    says nothing about it. *)

Inductive atom : Type :=
| AChar (c : N)     (* a literal code unit *)
| AAny              (* [.]: anything but a line terminator *)
| ASpace.           (* [\s] *)

Inductive quant : Type := QOne | QStar | QPlus.

Inductive term : Type :=
| TBol                          (* [^] under flag m *)
| TEol                          (* [$] under flag m *)
| TAtom (a : atom) (q : quant).

Inductive token : Type :=
| TkAtom (a : atom)
| TkBol
| TkEol
| TkStar
| TkPlus
| TkDangling          (* a backslash that ends the pattern *)
| TkOutside.          (* syntax outside the fragment *)

Inductive compiled : Type :=
| Compiled (re : list term)
| SyntaxError
| Unsupported.

Definition escape (e : N) : token :=
  if e =? 115 then TkAtom ASpace
  else if isSyntaxCharacter e || (e =? 47) then TkAtom (AChar e)
  else TkOutside.

Definition plain (c : N) : token :=
  if c =? 94 then TkBol
  else if c =? 36 then TkEol
  else if c =? 46 then TkAtom AAny
  else if c =? 42 then TkStar
  else if c =? 43 then TkPlus
  else if isSyntaxCharacter c then TkOutside
  else TkAtom (AChar c).

Fixpoint lex (p : list N) : list token :=
  match p with
  | [] => []
  | c :: p1 =>
      if c =? 92 then
        match p1 with
        | [] => [TkDangling]
        | e :: p2 => escape e :: lex p2
        end
      else plain c :: lex p1
  end.

Definition consTerm (t : term) (r : compiled) : compiled :=
  match r with
  | Compiled re => Compiled (t :: re)
  | other => other
  end.

(** Terms from tokens: a quantifier belongs to the atom just before it; a
    quantifier with no atom before it (at the start, after an assertion or
    after another quantifier) is "nothing to repeat". *)
Fixpoint terms (ts : list token) : compiled :=
  match ts with
  | [] => Compiled []
  | TkAtom a :: ts1 =>
      match ts1 with
      | TkStar :: ts2 => consTerm (TAtom a QStar) (terms ts2)
      | TkPlus :: ts2 => consTerm (TAtom a QPlus) (terms ts2)
      | _ => consTerm (TAtom a QOne) (terms ts1)
      end
  | TkBol :: ts1 => consTerm TBol (terms ts1)
  | TkEol :: ts1 => consTerm TEol (terms ts1)
  | TkStar :: _ | TkPlus :: _ | TkDangling :: _ => SyntaxError
  | TkOutside :: _ => Unsupported
  end.

Definition isOutside (t : token) : bool :=
  match t with TkOutside => true | _ => false end.

(** [new RegExp(source, 'm')]. *)
Definition compile (source : list N) : compiled :=
  let ts := lex source in
  if existsb isOutside ts then Unsupported else terms ts.

(** *** Matching

    The matcher follows the backtracking order of the ECMAScript
    semantics: a greedy quantifier first tries one more repetition and
    falls back to the continuation.  [prev] is the code unit just before
    the current position, if any.  The result is the matched text and the
    rest of the input. *)

Definition atomMatches (a : atom) (c : N) : bool :=
  match a with
  | AChar d => c =? d
  | AAny => negb (isLineTerminator c)
  | ASpace => isSpace c
  end.

Definition atBol (prev : option N) : bool :=
  match prev with None => true | Some c => isLineTerminator c end.

Definition atEol (s : list N) : bool :=
  match s with [] => true | c :: _ => isLineTerminator c end.

Definition consumed (c : N) (r : option (list N * list N))
  : option (list N * list N) :=
  match r with
  | Some (m, rest) => Some (c :: m, rest)
  | None => None
  end.

Fixpoint greedy (a : atom)
    (k : option N -> list N -> option (list N * list N))
    (prev : option N) (s : list N) : option (list N * list N) :=
  match s with
  | c :: s1 =>
      if atomMatches a c then
        match consumed c (greedy a k (Some c) s1) with
        | Some r => Some r
        | None => k prev s
        end
      else k prev s
  | [] => k prev s
  end.

Fixpoint matchTerms (re : list term) (prev : option N) (s : list N)
  : option (list N * list N) :=
  match re with
  | [] => Some ([], s)
  | TBol :: re1 => if atBol prev then matchTerms re1 prev s else None
  | TEol :: re1 => if atEol s then matchTerms re1 prev s else None
  | TAtom a QOne :: re1 =>
      match s with
      | c :: s1 =>
          if atomMatches a c then consumed c (matchTerms re1 (Some c) s1)
          else None
      | [] => None
      end
  | TAtom a QStar :: re1 => greedy a (matchTerms re1) prev s
  | TAtom a QPlus :: re1 =>
      match s with
      | c :: s1 =>
          if atomMatches a c
          then consumed c (greedy a (matchTerms re1) (Some c) s1)
          else None
      | [] => None
      end
  end.

(** RegExpBuiltinExec without the [g] and [y] flags: the first index, from
    0 up to the length of the input, at which the pattern matches.  The
    result is the text before the match, the match, and the text after. *)
Fixpoint search (re : list term) (prev : option N) (s : list N)
  : option (list N * list N * list N) :=
  match matchTerms re prev s with
  | Some (m, rest) => Some ([], m, rest)
  | None =>
      match s with
      | [] => None
      | c :: s1 =>
          match search re (Some c) s1 with
          | Some (pre, m, post) => Some (c :: pre, m, post)
          | None => None
          end
      end
  end.

Definition exec (re : list term) (s : list N)
  : option (list N * list N * list N) :=
  search re None s.

(** GetSubstitution for a pattern without capture groups: [$$] is a
    dollar, [$&] the match, [$`] the text before it, [$'] the text after
    it; every other dollar (also one followed by digits or by [<], as
    there is no group to refer to) stands for itself. *)
Fixpoint getSubstitution (matched before after template : list N)
  : list N :=
  match template with
  | [] => []
  | c :: t1 =>
      if c =? 36 then
        match t1 with
        | d :: t2 =>
            if d =? 36 then 36 :: getSubstitution matched before after t2
            else if d =? 38
              then matched ++ getSubstitution matched before after t2
            else if d =? 96
              then before ++ getSubstitution matched before after t2
            else if d =? 39
              then after ++ getSubstitution matched before after t2
            else c :: getSubstitution matched before after t1
        | [] => [c]
        end
      else c :: getSubstitution matched before after t1
  end.

(** [s.replace(re, template)] for a non-global [re]. *)
Definition replace (re : list term) (s template : list N) : list N :=
  match exec re s with
  | None => s
  | Some (pre, m, post) => pre ++ getSubstitution m pre post template ++ post
  end.

End Js.


(** ** The world the program runs in *)

Inductive error : Type :=
| FsError (path : list N)       (* a rejected [fs] call *)
| RegExpSyntaxError             (* [new RegExp] on an invalid pattern *)
| NoAccessKeyCreated            (* [Error('no access key created')] *)
| IamError                      (* a rejected [client.send] *)
| ProviderError (profile : list N).   (* a rejected [fromIni] provider *)

(** A [Date] object (always truthy). *)
Inductive date : Type := Date (ms : Z).

(** An entry of [AccessKeyMetadata]; both fields are optional in the SDK. *)
Record keyMetadata : Type := {
  kmAccessKeyId : option (list N);
  kmCreateDate : option date;
}.

(** [data.AccessKey] of a CreateAccessKey response. *)
Record accessKey : Type := {
  akAccessKeyId : option (list N);
  akSecretAccessKey : option (list N);
}.

(** What a [fromIni] provider resolves to. *)
Record credentials : Type := {
  crAccessKeyId : list N;
  crSecretAccessKey : list N;
}.

(** An element of [allProfiles]: [{ name, ...prof, createDate }]. *)
Record profile : Type := {
  name : list N;
  accessKeyId : list N;
  secretAccessKey : list N;
  createDate : option date;
}.

(** An element of [rotated]. *)
Record rotatedKey : Type := {
  rkName : list N;
  rkKey : option (list N);
  rkSecret : option (list N);
}.

(** The values [args.env] can hold after minimist. *)
Inductive jsval : Type :=
| JUndefined
| JBool (b : bool)
| JString (s : list N)
| JOther.                        (* a number or an array *)

Record args : Type := {
  argProfiles : bool;
  argOutput : bool;
  argEnv : jsval;
}.

(** The answer of the [multiselect] prompt. *)
Inductive selection : Type :=
| Cancelled
| Chosen (values : list (list N)).

(** What the program prints through [@clack/prompts] and [console]. *)
Inductive output : Type :=
| ConsoleLog
| Intro
| LogError (e : error)               (* [log.error(err)] *)
| CancelNoKeys                       (* [cancel('No existing access keys')] *)
| CancelOperation                    (* [cancel('Operation cancelled')] *)
| LogTooMany                         (* [log.error('Cannot rotate more than 2 access keys')] *)
| OutroNothing                       (* [outro('Nothing to rotate')] *)
| SpinnerStart (plural : bool)
| SpinnerStop (n : nat) (plural : bool)
| LogFailedReplacing (e : error)     (* [log.error(`Failed replacing credentials\n${err}`)] *)
| LogFailedEnv (path : list N) (e : error)
| Note (k : rotatedKey)
| OutroComplete.

(** The calls the program makes on the outside world, in the order it
    issues them. *)
Inductive event : Type :=
| EvReadFile (path : list N)
| EvWriteFile (path content : list N)
| EvListAccessKeys
| EvFromIni (profile : list N)
| EvCreateAccessKey
| EvDeleteAccessKey (key : list N)
| EvMultiselect (options : list (list N))
| EvOutput (o : output).

(** The host: what the program cannot decide.  The answers of the remote
    service, of the credential provider and of the user, and the faults of
    the file system, each possibly depending on how many calls were issued
    before ([nat] is the length of the trace at the call). *)
Record host : Type := {
  credentialsPath : list N;          (* [`${os.homedir}/.aws/credentials`] *)
  resolve : list N -> list N;        (* [path.resolve] *)
  readFault : nat -> list N -> bool;
  writeFault : nat -> list N -> bool;
  (* what a rejected write of a content leaves at the path: nothing of the
     old file need survive, [fs.writeFile] truncates the file when it
     opens it; [None] when the file is as it was *)
  writeDamage : nat -> list N -> list N -> option (list N);
  listResponse : nat -> error + option (list keyMetadata);
  providerResponse : nat -> list N -> error + credentials;
  createResponse : nat -> error + option accessKey;
  deleteResponse : nat -> list N -> option error;
  multiselectAnswer : nat -> list (list N) -> selection;
}.

Record world : Type := {
  fs : gmap (list N) (list N);
  trace : list event;
}.

(** ** The monad: state, exceptions, [process.exit] *)

Inductive res (A : Type) : Type :=
| Ok (a : A)
| Throw (e : error)
| Exit (code : Z)
| OutOfModel.
Arguments Ok {A} a.
Arguments Throw {A} e.
Arguments Exit {A} code.
Arguments OutOfModel {A}.

Definition M (A : Type) : Type := world -> res A * world.

Definition ret {A} (a : A) : M A := fun w => (Ok a, w).

Definition bind {A B} (m : M A) (k : A -> M B) : M B :=
  fun w =>
    match m w with
    | (Ok a, w1) => k a w1
    | (Throw e, w1) => (Throw e, w1)
    | (Exit c, w1) => (Exit c, w1)
    | (OutOfModel, w1) => (OutOfModel, w1)
    end.

Notation "'do' x <- c ; k" := (bind c (fun x => k))
  (at level 10, x name, c at level 100, k at level 200).
Notation "'do' ' pat <- c ; k" :=
  (bind c (fun x => match x with pat => k end))
  (at level 10, pat pattern, c at level 100, k at level 200).

Definition throw {A} (e : error) : M A := fun w => (Throw e, w).
Definition exit {A} (code : Z) : M A := fun w => (Exit code, w).
Definition outOfModel {A} : M A := fun w => (OutOfModel, w).

(** [try { m } catch (err) { handler err }]. *)
Definition tryCatch {A} (m : M A) (handler : error -> M A) : M A :=
  fun w =>
    match m w with
    | (Throw e, w1) => handler e w1
    | other => other
    end.

(** The world after the calls [evs] were issued, and after a file was
    written. *)
Definition record (w : world) (evs : list event) : world :=
  {| fs := fs w; trace := trace w ++ evs |}.

Definition store (w : world) (path content : list N) : world :=
  {| fs := <[path := content]> (fs w); trace := trace w |}.

(** The world after a write at time [t] was rejected. *)
Definition spoil (h : host) (t : nat) (w : world) (path content : list N)
  : world :=
  match writeDamage h t path content with
  | Some remains => store w path remains
  | None => w
  end.

Definition emit (e : event) : M unit :=
  fun w => (Ok tt, record w [e]).

Definition clock : M nat := fun w => (Ok (length (trace w)), w).

Definition say (o : output) : M unit := emit (EvOutput o).

(** A promise that settled: awaiting it returns or throws. *)
Definition await {A} (r : error + A) : M A :=
  match r with
  | inl e => throw e
  | inr a => ret a
  end.

(** [Promise.all]: rejects when one of the promises rejected (the model
    takes the first in array order), resolves to all values otherwise. *)
Fixpoint all {A} (ps : list (error + A)) : error + list A :=
  match ps with
  | [] => inr []
  | inl e :: _ => inl e
  | inr a :: ps1 =>
      match all ps1 with
      | inl e => inl e
      | inr l => inr (a :: l)
      end
  end.

(** ** The program *)

Section Program.

Context (h : host).

(** [fs.readFile(path, 'utf8')]: rejects on a fault or a missing file. *)
Definition readFile (path : list N) : M (list N) :=
  do t <- clock;
  do _ <- emit (EvReadFile path);
  fun w =>
    if readFault h t path then (Throw (FsError path), w)
    else match fs w !! path with
         | Some content => (Ok content, w)
         | None => (Throw (FsError path), w)
         end.

(** [fs.writeFile(path, content)]: when it resolves the file holds
    [content]; when it rejects the file is what the failed write left of
    it (untouched, empty or partly written). *)
Definition writeFile (path content : list N) : M unit :=
  do t <- clock;
  do _ <- emit (EvWriteFile path content);
  fun w =>
    if writeFault h t path
    then (Throw (FsError path), spoil h t w path content)
    else (Ok tt, store w path content).

(** [new RegExp(source, 'm')]. *)
Definition newRegExp (source : list N) : M (list Js.term) :=
  match Js.compile source with
  | Js.Compiled re => ret re
  | Js.SyntaxError => throw RegExpSyntaxError
  | Js.Unsupported => outOfModel
  end.

(** A template literal prints [undefined] for a missing value. *)
Definition tpl (v : option (list N)) : list N :=
  match v with
  | Some s => s
  | None => Js.lit "undefined"
  end.

(** Lines 31-34. *)
Definition listAccessKeys : M (error + option (list keyMetadata)) :=
  do t <- clock;
  do _ <- emit EvListAccessKeys;
  ret (listResponse h t).

(** Lines 36-41: the promise of one [createAccessKey()] call. *)
Definition createAccessKey
  : M (option (list N) * option (list N)) :=
  do t <- clock;
  do _ <- emit EvCreateAccessKey;
  do data <- await (createResponse h t);
  match data with
  | None => throw NoAccessKeyCreated
  | Some k => ret (akAccessKeyId k, akSecretAccessKey k)
  end.

(** Lines 43-49: [deleteKey(key)] issues the call and hands back the
    promise, settled. *)
Definition deleteKey (key : list N) : M (error + unit) :=
  do t <- clock;
  do _ <- emit (EvDeleteAccessKey key);
  ret (match deleteResponse h t key with
       | Some e => inl e
       | None => inr tt
       end).

(** The two regular-expression literals of lines 75 and 79. *)
Definition reEnvAccessKeyId : list Js.term :=
  [Js.TBol]
    ++ List.map (fun c => Js.TAtom (Js.AChar c) Js.QOne)
         (Js.lit "AWS_ACCESS_KEY_ID=")
    ++ [Js.TAtom Js.AAny Js.QStar; Js.TEol].

Definition reEnvSecretAccessKey : list Js.term :=
  [Js.TBol]
    ++ List.map (fun c => Js.TAtom (Js.AChar c) Js.QOne)
         (Js.lit "AWS_SECRET_ACCESS_KEY=")
    ++ [Js.TAtom Js.AAny Js.QStar; Js.TEol].

(** Lines 60-62: the replacement text. *)
Definition newDefaultProfile (profileName accessKeyId accessKeySecret : list N)
  : list N :=
  Js.lit "[" ++ profileName ++ Js.lit "]" ++ [10]
    ++ Js.lit "aws_access_key_id=" ++ accessKeyId ++ [10]
    ++ Js.lit "aws_secret_access_key=" ++ accessKeySecret.

(** Line 64: the source of the section pattern. *)
Definition sectionPattern (profileName : list N) : list N :=
  Js.lit "^\[" ++ profileName ++ Js.lit "\]\s*.+\s*.+$".

(** Lines 72-86: the env file, inside its [try]/[catch]. *)
Definition replaceEnvVars (envFilePath accessKeyId accessKeySecret : list N)
  : M unit :=
  tryCatch
    (do envFile <- readFile envFilePath;
     let envFile1 :=
       Js.replace reEnvAccessKeyId envFile
         (Js.lit "AWS_ACCESS_KEY_ID=" ++ accessKeyId) in
     let envFile2 :=
       Js.replace reEnvSecretAccessKey envFile1
         (Js.lit "AWS_SECRET_ACCESS_KEY=" ++ accessKeySecret) in
     writeFile envFilePath envFile2)
    (fun err => say (LogFailedEnv envFilePath err)).

(** Lines 51-88. *)
Definition replaceCrendentials
    (profileName accessKeyId accessKeySecret : list N) (env : jsval)
  : M unit :=
  do credentialsFile <- readFile (credentialsPath h);
  do re <- newRegExp (sectionPattern profileName);
  let newFile :=
    Js.replace re credentialsFile
      (newDefaultProfile profileName accessKeyId accessKeySecret) in
  do _ <- writeFile (credentialsPath h) newFile;
  match env with
  | JString env =>
      replaceEnvVars (resolve h env) accessKeyId accessKeySecret
  | _ => ret tt
  end.

(** [s.slice(1, -1)]. *)
Definition slice1 (s : list N) : list N :=
  List.removelast (List.tl s).

(** The lines matched by [/^\[.*\]$/gm]: for each line start, in order,
    the longest run up to the line's end, if it starts with an opening
    and ends with a closing bracket. *)
Definition reHeader : list Js.term :=
  [Js.TBol; Js.TAtom (Js.AChar 91) Js.QOne; Js.TAtom Js.AAny Js.QStar;
   Js.TAtom (Js.AChar 93) Js.QOne; Js.TEol].

(** [s.match(re)] for a global [re]: all matches, left to right, each
    search starting where the last match ended (one further after an
    empty match).  [n] bounds the number of searches by the length of the
    input. *)
Fixpoint matchAll (n : nat) (re : list Js.term) (prev : option N)
    (s : list N) : list (list N) :=
  match n with
  | O => []
  | S n1 =>
      match Js.search re prev s with
      | None => []
      | Some (pre, m, post) =>
          match m with
          | [] =>
              match post with
              | [] => [m]
              | c :: post1 => m :: matchAll n1 re (Some c) post1
              end
          | c :: m1 => m :: matchAll n1 re (Some (List.last m1 c)) post
          end
      end
  end.

(** Lines 90-98. *)
Definition getAllCredentialProfiles : M (list (list N)) :=
  do credentialsFile <- readFile (credentialsPath h);
  let matches :=
    matchAll (S (length credentialsFile)) reHeader None credentialsFile in
  ret (List.map slice1 matches).

(** Line 101: [profiles.map(async (profile) => ...)] starts one provider
    call per name and keeps the promises. *)
Fixpoint loadProfiles (profiles : list (list N))
  : M (list (error + profile)) :=
  match profiles with
  | [] => ret []
  | p :: rest =>
      do t <- clock;
      do _ <- emit (EvFromIni p);
      let loaded :=
        match providerResponse h t p with
        | inl e => inl e
        | inr prof =>
            inr {| name := p;
                   accessKeyId := crAccessKeyId prof;
                   secretAccessKey := crSecretAccessKey prof;
                   createDate := None |}
        end in
      do ps <- loadProfiles rest;
      ret (loaded :: ps)
  end.

(** Lines 117-121: [accessKeys?.find(...)] and [foundKey?.CreateDate]. *)
Definition sameKeyId (prof : profile) (key : keyMetadata) : bool :=
  match kmAccessKeyId key with
  | Some k => bool_decide (k = accessKeyId prof)
  | None => false
  end.

Definition foundKey (accessKeys : option (list keyMetadata)) (prof : profile)
  : option keyMetadata :=
  match accessKeys with
  | Some keys => List.find (sameKeyId prof) keys
  | None => None
  end.

Definition withCreateDate (accessKeys : option (list keyMetadata))
    (prof : profile) : profile :=
  {| name := name prof;
     accessKeyId := accessKeyId prof;
     secretAccessKey := secretAccessKey prof;
     createDate :=
       match foundKey accessKeys prof with
       | Some key => kmCreateDate key
       | None => None
       end |}.

Definition hasCreateDate (prof : profile) : bool :=
  match createDate prof with Some _ => true | None => false end.

(** Lines 115-123: the join of the local profiles with the remote keys. *)
Definition joinProfiles (accessKeys : option (list keyMetadata))
    (allProfiles : list profile) : list profile :=
  List.filter hasCreateDate (List.map (withCreateDate accessKeys) allProfiles).

(** Lines 100-124. *)
Definition getAllProfiles (profiles : list (list N)) : M (list profile) :=
  do p <- loadProfiles profiles;
  do keys <- listAccessKeys;
  do accessKeys <- await keys;
  do allProfiles <- await (all p);
  ret (joinProfiles accessKeys allProfiles).

(** Lines 205-222: the body of the rotation loop.  [single] is
    [selectedForRotation.length === 1]; the two key values go into the
    replacement through template literals only. *)
Definition rotateOne (single : bool) (env : jsval) (prof : profile)
  : M rotatedKey :=
  do '(accessKeyId, accessKeySecret) <- createAccessKey;
  do _ <- tryCatch
    (replaceCrendentials (name prof) (tpl accessKeyId)
       (tpl accessKeySecret) (if single then env else JBool false))
    (fun err => say (LogFailedReplacing err));
  ret {| rkName := name prof;
         rkKey := accessKeyId;
         rkSecret := accessKeySecret |}.

(** Lines 204-223: the rotation loop, [rotated] growing by [push]. *)
Fixpoint rotateEach (single : bool) (env : jsval)
    (selected : list profile) (rotated : list rotatedKey)
  : M (list rotatedKey) :=
  match selected with
  | [] => ret rotated
  | prof :: rest =>
      do k <- rotateOne single env prof;
      rotateEach single env rest (rotated ++ [k])
  end.

(** Lines 228-230: [selectedForRotation.map(...)] issues every delete. *)
Fixpoint deleteEach (selected : list profile) : M (list (error + unit)) :=
  match selected with
  | [] => ret []
  | prof :: rest =>
      do d <- deleteKey (accessKeyId prof);
      do ds <- deleteEach rest;
      ret (d :: ds)
  end.

(** Lines 234-241. *)
Fixpoint noteEach (rotated : list rotatedKey) : M unit :=
  match rotated with
  | [] => ret tt
  | k :: rest => do _ <- say (Note k); noteEach rest
  end.

(** [selectedProfiles.includes(profile.name)]. *)
Definition includes (l : list (list N)) (x : list N) : bool :=
  bool_decide (x ∈ l).

(** Lines 193-243: what [run] does once a selection of one or two
    profiles stands. *)
Definition rotate (a : args) (env : jsval)
    (selectedForRotation : list profile) : M unit :=
  let plural := Nat.ltb 1 (length selectedForRotation) in
  do _ <- say (SpinnerStart plural);
  do rotated <-
    rotateEach (Nat.eqb (length selectedForRotation) 1) env
      selectedForRotation [];
  do _ <- say (SpinnerStop (length selectedForRotation) plural);
  do del <- deleteEach selectedForRotation;
  do _ <- await (all del);
  do _ <- (if argOutput a then noteEach rotated else ret tt);
  say OutroComplete.

(** Lines 127-183: from the command line to [selectedForRotation]. *)
Definition select (a : args) : M (list profile) :=
  do _ <- say ConsoleLog;
  do _ <- say Intro;
  do profiles <-
    (if argProfiles a then
       tryCatch getAllCredentialProfiles
         (fun err => do _ <- say (LogError err); exit 1)
     else ret [Js.lit "default"]);
  do allProfiles <- getAllProfiles profiles;
  match allProfiles with
  | [] => do _ <- say CancelNoKeys; exit 0
  | _ :: _ =>
      do selectedProfiles <-
        (if argProfiles a then
           do t <- clock;
           do _ <- emit (EvMultiselect (List.map name allProfiles));
           match multiselectAnswer h t (List.map name allProfiles) with
           | Cancelled => do _ <- say CancelOperation; exit 0
           | Chosen values => ret values
           end
         else ret [Js.lit "default"]);
      ret (List.filter (fun prof => includes selectedProfiles (name prof))
             allProfiles)
  end.

(** Line 137: [-e] without a value defaults to [.env]. *)
Definition envOf (a : args) : jsval :=
  match argEnv a with
  | JBool true => JString (Js.lit ".env")
  | v => v
  end.

(** Lines 126-244. *)
Definition run (a : args) : M unit :=
  do selectedForRotation <- select a;
  if Nat.ltb 2 (length selectedForRotation) then say LogTooMany
  else if Nat.eqb (length selectedForRotation) 0 then say OutroNothing
  else rotate a (envOf a) selectedForRotation.

End Program.

Definition initial (files : gmap (list N) (list N)) : world :=
  {| fs := files; trace := [] |}.

(** ** Vocabulary of the statements *)

(** A name without regular-expression syntax characters. *)
Definition literalName (s : list N) : bool :=
  forallb (fun c => negb (Js.isSyntaxCharacter c)) s.

Definition noLineTerminator (s : list N) : bool :=
  forallb (fun c => negb (Js.isLineTerminator c)) s.

(** A text in which [String.prototype.replace] finds no [$] pattern. *)
Definition noDollar (s : list N) : bool :=
  forallb (fun c => negb (c =? 36)) s.

(** The code unit before the position reached by reading [s]. *)
Definition lastOr (prev : option N) (s : list N) : option N :=
  fold_left (fun _ c => Some c) s prev.

(** The header line of a section. *)
Definition header (profileName : list N) : list N :=
  [91] ++ profileName ++ [93].

Fixpoint startsWith (p s : list N) : bool :=
  match p, s with
  | [], _ => true
  | c :: p1, d :: s1 => (d =? c) && startsWith p1 s1
  | _ :: _, [] => false
  end.

(** The index of the first line of [s] that starts with [p], where [prev]
    is the code unit before [s]. *)
Fixpoint firstLineWith (p : list N) (prev : option N) (s : list N)
  : option nat :=
  if Js.atBol prev && startsWith p s then Some O
  else match s with
       | [] => None
       | c :: s1 => option_map S (firstLineWith p (Some c) s1)
       end.

(** A line of a key block: not empty, no blank in front, on one line. *)
Definition keyLine (l : list N) : bool :=
  match l with
  | [] => false
  | c :: _ => negb (Js.isSpace c) && noLineTerminator l
  end.

Definition lits (s : list N) : list Js.term :=
  List.map (fun c => Js.TAtom (Js.AChar c) Js.QOne) s.

(** The tail [\s*.+\s*.+$] of the section pattern. *)
Definition blockRe : list Js.term :=
  [Js.TAtom Js.ASpace Js.QStar; Js.TAtom Js.AAny Js.QPlus;
   Js.TAtom Js.ASpace Js.QStar; Js.TAtom Js.AAny Js.QPlus; Js.TEol].

(** What the section pattern compiles to for a literal name. *)
Definition sectionRe (profileName : list N) : list Js.term :=
  Js.TBol :: lits (header profileName) ++ blockRe.

Fixpoint consTerms (ts : list Js.term) (r : Js.compiled) : Js.compiled :=
  match ts with
  | [] => r
  | t :: ts1 => Js.consTerm t (consTerms ts1 r)
  end.

Definition prefixed (u : list N) (r : option (list N * list N))
  : option (list N * list N) :=
  match r with
  | Some (m, rest) => Some (u ++ m, rest)
  | None => None
  end.

(** The calls [m] issues when started in [w]. *)
Definition eventsOf {A} (m : M A) (w : world) : list event :=
  drop (length (trace w)) (trace (m w).2).

(** [m] issues only calls that satisfy [ok]. *)
Definition only {A} (ok : event -> bool) (m : M A) : Prop :=
  forall w, exists evs,
    trace (m w).2 = trace w ++ evs /\ forallb ok evs = true.

(** [m] leaves every file as it is. *)
Definition keepsFiles {A} (m : M A) : Prop :=
  forall w, fs (m w).2 = fs w.

Definition isCreate (e : event) : bool :=
  match e with EvCreateAccessKey => true | _ => false end.

Definition isWrite (e : event) : bool :=
  match e with EvWriteFile _ _ => true | _ => false end.

Definition isDelete (e : event) : bool :=
  match e with EvDeleteAccessKey _ => true | _ => false end.

(** The calls that change something: key creation, file write, key
    deletion. *)
Definition mutating (e : event) : bool :=
  isCreate e || isWrite e || isDelete e.

(** What a read of [path] gives in [w]. *)
Definition fileRead (h : host) (w : world) (path : list N)
  : option (list N) :=
  if readFault h (length (trace w)) path then None else fs w !! path.

(** The text the env file is rewritten to. *)
Definition newEnvFile (envFile accessKeyId accessKeySecret : list N)
  : list N :=
  Js.replace reEnvSecretAccessKey
    (Js.replace reEnvAccessKeyId envFile
       (Js.lit "AWS_ACCESS_KEY_ID=" ++ accessKeyId))
    (Js.lit "AWS_SECRET_ACCESS_KEY=" ++ accessKeySecret).

(** The env file is away from the credentials file. *)
Definition envAway (h : host) (env : jsval) : Prop :=
  match env with
  | JString s => resolve h s <> credentialsPath h
  | _ => True
  end.

(** The key [createAccessKey] returns at time [t], if it returns. *)
Definition createdAt (h : host) (t : nat)
  : error + (option (list N) * option (list N)) :=
  match createResponse h t with
  | inl e => inl e
  | inr None => inl NoAccessKeyCreated
  | inr (Some k) => inr (akAccessKeyId k, akSecretAccessKey k)
  end.

(** The promises of the delete calls issued from time [t] on. *)
Fixpoint deleteResults (h : host) (t : nat) (selected : list profile)
  : list (error + unit) :=
  match selected with
  | [] => []
  | prof :: rest =>
      match deleteResponse h t (accessKeyId prof) with
      | Some e => inl e
      | None => inr tt
      end :: deleteResults h (S t) rest
  end.

Definition deleteCalls (selected : list profile) : list event :=
  List.map (fun prof => EvDeleteAccessKey (accessKeyId prof)) selected.

Definition notes (rotated : list rotatedKey) : list event :=
  List.map (fun k => EvOutput (Note k)) rotated.

(** Lines 225-243: what [run] does after the loop. *)
Definition finish (h : host) (a : args) (selected : list profile)
    (rotated : list rotatedKey) : M unit :=
  do _ <- say (SpinnerStop (length selected) (Nat.ltb 1 (length selected)));
  do del <- deleteEach h selected;
  do _ <- await (all del);
  do _ <- (if argOutput a then noteEach rotated else ret tt);
  say OutroComplete.

Definition rotatedOf (prof : profile)
    (k : option (list N) * option (list N)) : rotatedKey :=
  {| rkName := name prof; rkKey := k.1; rkSecret := k.2 |}.

(** A call on the file system that is not on [path]. *)
Definition offPath (path : list N) (e : event) : bool :=
  match e with
  | EvReadFile p | EvWriteFile p _ => negb (bool_decide (p = path))
  | _ => false
  end.

Definition createsOrWrites (e : event) : bool := isCreate e || isWrite e.

(** The calls of [m] fall in two phases: no deletion in the first, no
    creation and no file write in the second. *)
Definition phased {A} (m : M A) : Prop :=
  forall w, exists x y,
    trace (m w).2 = trace w ++ x ++ y
    /\ forallb (fun e => negb (isDelete e)) x = true
    /\ forallb (fun e => negb (createsOrWrites e)) y = true.

Definition isFailedReplacing (e : event) : bool :=
  match e with EvOutput (LogFailedReplacing _) => true | _ => false end.

(** The calls of the env part of [replaceCrendentials]: none unless [env]
    is a string; then the read of the env file, followed by the log line
    of the failure, or by the write and perhaps the log line of its
    failure. *)
Definition envCalls (h : host) (env : jsval) (evs : list event) : Prop :=
  match env with
  | JString s =>
      let p := resolve h s in
      exists c,
        evs = [EvReadFile p; EvOutput (LogFailedEnv p (FsError p))]
        \/ evs = [EvReadFile p; EvWriteFile p c;
                  EvOutput (LogFailedEnv p (FsError p))]
        \/ evs = [EvReadFile p; EvWriteFile p c]
  | _ => evs = []
  end.

Definition isNote (e : event) : bool :=
  match e with EvOutput (Note _) => true | _ => false end.

(** A call that is neither a key creation, nor a key deletion, nor a
    note. *)
Definition inner (e : event) : bool :=
  negb (isCreate e || isDelete e || isNote e).

(** The promises of the provider calls issued from time [t] on. *)
Fixpoint loadResults (h : host) (t : nat) (profiles : list (list N))
  : list (error + profile) :=
  match profiles with
  | [] => []
  | p :: rest =>
      match providerResponse h t p with
      | inl e => inl e
      | inr prof =>
          inr {| name := p;
                 accessKeyId := crAccessKeyId prof;
                 secretAccessKey := crSecretAccessKey prof;
                 createDate := None |}
      end :: loadResults h (S t) rest
  end.

(** The profile names read from the credentials file. *)
Definition profileNames (credentialsFile : list N) : list (list N) :=
  List.map slice1
    (matchAll (S (length credentialsFile)) reHeader None credentialsFile).

(** Under [-p], the read of the credentials file for the profile names
    fails. *)
Definition enumerationFails (h : host) (a : args) (w : world) : Prop :=
  argProfiles a = true
  /\ fileRead h (record w [EvOutput ConsoleLog; EvOutput Intro])
       (credentialsPath h) = None.

(** The lines that tell how a run ended. *)
Definition isCancel (e : event) : bool :=
  match e with
  | EvOutput CancelNoKeys | EvOutput CancelOperation => true
  | _ => false
  end.

Definition isClosing (e : event) : bool :=
  match e with
  | EvOutput LogTooMany | EvOutput OutroNothing | EvOutput OutroComplete => true
  | _ => false
  end.

(** ** Concrete inputs *)

Module Demo.

Definition unlines (ls : list string) : list N :=
  concat (List.map (fun l => Js.lit l ++ [10]) ls).

Definition home : list N := Js.lit "/home/u/.aws/credentials".

(** A credentials file with the profiles [abc] and [a.c]. *)
Definition dotted : list N :=
  unlines ["[abc]"; "aws_access_key_id=AKIAONE"; "aws_secret_access_key=SECONE";
           "[a.c]"; "aws_access_key_id=AKIATWO"; "aws_secret_access_key=SECTWO"]%string.

(** A credentials file with the profiles [default] and [work]. *)
Definition two : list N :=
  unlines ["[default]"; "aws_access_key_id=AKIAOLD"; "aws_secret_access_key=SECOLD";
           "[work]"; "aws_access_key_id=AKIAWRK"; "aws_secret_access_key=SECWRK"]%string.

Definition remote : list keyMetadata :=
  [ {| kmAccessKeyId := Some (Js.lit "AKIAOLD"); kmCreateDate := Some (Date 1700000000000) |};
    {| kmAccessKeyId := Some (Js.lit "AKIAWRK"); kmCreateDate := Some (Date 1710000000000) |} ].

Definition localKey (profile : list N) : list N :=
  if bool_decide (profile = Js.lit "default") then Js.lit "AKIAOLD"
  else Js.lit "AKIAWRK".

(** A host on which every call succeeds. *)
Definition calm : host := {|
  credentialsPath := home;
  resolve := fun p => Js.lit "/work/" ++ p;
  readFault := fun _ _ => false;
  writeFault := fun _ _ => false;
  writeDamage := fun _ _ _ => None;
  listResponse := fun _ => inr (Some remote);
  providerResponse := fun _ p =>
    inr {| crAccessKeyId := localKey p; crSecretAccessKey := Js.lit "SECRET" |};
  createResponse := fun _ =>
    inr (Some {| akAccessKeyId := Some (Js.lit "AKIANEW");
                 akSecretAccessKey := Some (Js.lit "SECNEW") |});
  deleteResponse := fun _ _ => None;
  multiselectAnswer := fun _ options => Chosen options;
|}.

Definition start (credentialsFile : list N) : world :=
  initial {[ home := credentialsFile ]}.

(** A credentials file with three profiles. *)
Definition three : list N :=
  two ++ unlines ["[spare]"; "aws_access_key_id=AKIAWRK";
                  "aws_secret_access_key=SECWRK"]%string.

Definition defaultProfile : profile :=
  {| name := Js.lit "default"; accessKeyId := Js.lit "AKIAOLD";
     secretAccessKey := Js.lit "SECRET";
     createDate := Some (Date 1700000000000) |}.

Definition otherProfile (profileName : string) : profile :=
  {| name := Js.lit profileName; accessKeyId := Js.lit "AKIAWRK";
     secretAccessKey := Js.lit "SECRET";
     createDate := Some (Date 1710000000000) |}.

(** Command lines: no flag; [-o -e]; [-p -o]. *)
Definition plain : args :=
  {| argProfiles := false; argOutput := false; argEnv := JUndefined |}.

Definition withEnv : args :=
  {| argProfiles := false; argOutput := true; argEnv := JBool true |}.

Definition pick : args :=
  {| argProfiles := true; argOutput := true; argEnv := JUndefined |}.

(** The host on which key creation is refused. *)
Definition refusing : host := {|
  credentialsPath := home;
  resolve := resolve calm;
  readFault := readFault calm;
  writeFault := writeFault calm;
  writeDamage := writeDamage calm;
  listResponse := listResponse calm;
  providerResponse := providerResponse calm;
  createResponse := fun _ => inl IamError;
  deleteResponse := deleteResponse calm;
  multiselectAnswer := multiselectAnswer calm;
|}.

(** The host on which the read of the credentials file at time [t]
    fails. *)
Definition faultyAt (t : nat) : host := {|
  credentialsPath := home;
  resolve := resolve calm;
  readFault := fun u p => Nat.eqb u t && bool_decide (p = home);
  writeFault := writeFault calm;
  writeDamage := writeDamage calm;
  listResponse := listResponse calm;
  providerResponse := providerResponse calm;
  createResponse := createResponse calm;
  deleteResponse := deleteResponse calm;
  multiselectAnswer := multiselectAnswer calm;
|}.

End Demo.

(** ** Texts as lines *)

(** The text whose lines are [ls]: the lines, joined by line feeds. *)
Fixpoint joinLines (ls : list (list N)) : list N :=
  match ls with
  | [] => []
  | l :: rest =>
      match rest with
      | [] => l
      | _ :: _ => l ++ 10 :: joinLines rest
      end
  end.

(** What follows the first line of a text. *)
Definition tailText (rest : list (list N)) : list N :=
  match rest with
  | [] => []
  | _ :: _ => 10 :: joinLines rest
  end.

Definition noLineTerminators (ls : list (list N)) : bool :=
  forallb noLineTerminator ls.

Fixpoint endsWith (c : N) (l : list N) : bool :=
  match l with
  | [] => false
  | d :: t =>
      match t with
      | [] => d =? c
      | _ :: _ => endsWith c t
      end
  end.

(** A line that opens with a bracket and closes with one. *)
Definition isHeaderLine (l : list N) : bool :=
  match l with
  | [] => false
  | c :: t => (c =? 91) && endsWith 93 t
  end.

(** The lines with the first line that satisfies [P] replaced by [new]. *)
Fixpoint replaceFirst (P : list N -> bool) (new : list N)
    (ls : list (list N)) : list (list N) :=
  match ls with
  | [] => []
  | l :: rest => if P l then new :: rest else l :: replaceFirst P new rest
  end.

(** The first line that satisfies [P], with the text before and after. *)
Fixpoint searchLines (P : list N -> bool) (ls : list (list N))
  : option (list N * list N * list N) :=
  match ls with
  | [] => None
  | l :: rest =>
      if P l then Some ([], l, tailText rest)
      else match searchLines P rest with
           | Some (pre, m, post) => Some (l ++ 10 :: pre, m, post)
           | None => None
           end
  end.

(** A pattern [^KEY.*$] for a literal [KEY]. *)
Definition lineRe (key : list N) : list Js.term :=
  Js.TBol :: lits key ++ [Js.TAtom Js.AAny Js.QStar; Js.TEol].

(** The lines of a key block, and the text of the lines before a line. *)
Definition blockLines (profileName accessKeyId accessKeySecret : list N)
  : list (list N) :=
  [header profileName;
   Js.lit "aws_access_key_id=" ++ accessKeyId;
   Js.lit "aws_secret_access_key=" ++ accessKeySecret].

Definition linesBefore (before : list (list N)) : list N :=
  concat (List.map (fun l => l ++ [10]) before).

(** The line the loop of [run] logs for a replacement that threw. *)
Definition failureLog {A} (r : res A) : list event :=
  match r with
  | Throw e => [EvOutput (LogFailedReplacing e)]
  | _ => []
  end.

(** What [getAllProfiles] makes of the credentials the provider returns
    for a profile name, before and after the remote key was found. *)
Definition loadedProfile (profileName : list N) (cred : credentials)
  : profile :=
  {| name := profileName;
     accessKeyId := crAccessKeyId cred;
     secretAccessKey := crSecretAccessKey cred;
     createDate := None |}.

Definition datedProfile (profileName : list N) (cred : credentials)
    (d : date) : profile :=
  {| name := profileName;
     accessKeyId := crAccessKeyId cred;
     secretAccessKey := crSecretAccessKey cred;
     createDate := Some d |}.

(** ** More concrete inputs *)

Module Sample.

(** The lines of a credentials file with comments, an empty header, a
    header with a bracket inside, an indented header and a header followed
    by a blank. *)
Definition lines : list (list N) :=
  List.map Js.lit
    ["[default]"; "aws_access_key_id=AKIAOLD"; "aws_secret_access_key=SECOLD";
     "# [note]"; "[]"; "[a]b]"; " [work]"; "[work] "; ""]%string.

(** The lines of an env file that sets the key id twice. *)
Definition envLines : list (list N) :=
  List.map Js.lit
    ["PORT=8080"; "AWS_ACCESS_KEY_ID=AKIAOLD"; " AWS_SECRET_ACCESS_KEY=x";
     "AWS_SECRET_ACCESS_KEY=SECOLD"; "AWS_ACCESS_KEY_ID=AKIAOLDER"]%string.

Definition envPath : list N := Js.lit "/work/.env".

Definition withFiles (credentialsFile envFile : list N) : world :=
  initial {[ Demo.home := credentialsFile; envPath := envFile ]}.

(** The host on which every write of the credentials file is rejected and
    leaves the file empty. *)
Definition truncating : host := {|
  credentialsPath := Demo.home;
  resolve := resolve Demo.calm;
  readFault := readFault Demo.calm;
  writeFault := fun _ p => bool_decide (p = Demo.home);
  writeDamage := fun _ _ _ => Some [];
  listResponse := listResponse Demo.calm;
  providerResponse := providerResponse Demo.calm;
  createResponse := createResponse Demo.calm;
  deleteResponse := deleteResponse Demo.calm;
  multiselectAnswer := multiselectAnswer Demo.calm;
|}.

(** The host on which no key can be deleted. *)
Definition undeletable : host := {|
  credentialsPath := Demo.home;
  resolve := resolve Demo.calm;
  readFault := readFault Demo.calm;
  writeFault := writeFault Demo.calm;
  writeDamage := writeDamage Demo.calm;
  listResponse := listResponse Demo.calm;
  providerResponse := providerResponse Demo.calm;
  createResponse := createResponse Demo.calm;
  deleteResponse := fun _ _ => Some IamError;
  multiselectAnswer := multiselectAnswer Demo.calm;
|}.

(** The host on which the second key creation returns no key. *)
Definition secondCreationEmpty : host := {|
  credentialsPath := Demo.home;
  resolve := resolve Demo.calm;
  readFault := readFault Demo.calm;
  writeFault := writeFault Demo.calm;
  writeDamage := writeDamage Demo.calm;
  listResponse := listResponse Demo.calm;
  providerResponse := providerResponse Demo.calm;
  createResponse := fun t =>
    if Nat.ltb t 10 then createResponse Demo.calm t else inr None;
  deleteResponse := deleteResponse Demo.calm;
  multiselectAnswer := multiselectAnswer Demo.calm;
|}.

(** The hosts on which the remote keys are those of other users, on which
    the key of [default] carries no CreateDate, and on which the listing
    of the keys fails. *)
Definition foreign : host := {|
  credentialsPath := Demo.home;
  resolve := resolve Demo.calm;
  readFault := readFault Demo.calm;
  writeFault := writeFault Demo.calm;
  writeDamage := writeDamage Demo.calm;
  listResponse := fun _ =>
    inr (Some [ {| kmAccessKeyId := Some (Js.lit "AKIAELSE");
                   kmCreateDate := Some (Date 1700000000000) |};
                {| kmAccessKeyId := None;
                   kmCreateDate := Some (Date 1700000000000) |} ]);
  providerResponse := providerResponse Demo.calm;
  createResponse := createResponse Demo.calm;
  deleteResponse := deleteResponse Demo.calm;
  multiselectAnswer := multiselectAnswer Demo.calm;
|}.

Definition undated : host := {|
  credentialsPath := Demo.home;
  resolve := resolve Demo.calm;
  readFault := readFault Demo.calm;
  writeFault := writeFault Demo.calm;
  writeDamage := writeDamage Demo.calm;
  listResponse := fun _ =>
    inr (Some [ {| kmAccessKeyId := Some (Js.lit "AKIAOLD");
                   kmCreateDate := None |};
                {| kmAccessKeyId := Some (Js.lit "AKIAOLD");
                   kmCreateDate := Some (Date 1700000000000) |} ]);
  providerResponse := providerResponse Demo.calm;
  createResponse := createResponse Demo.calm;
  deleteResponse := deleteResponse Demo.calm;
  multiselectAnswer := multiselectAnswer Demo.calm;
|}.

Definition unlisted : host := {|
  credentialsPath := Demo.home;
  resolve := resolve Demo.calm;
  readFault := readFault Demo.calm;
  writeFault := writeFault Demo.calm;
  writeDamage := writeDamage Demo.calm;
  listResponse := fun _ => inl IamError;
  providerResponse := providerResponse Demo.calm;
  createResponse := createResponse Demo.calm;
  deleteResponse := deleteResponse Demo.calm;
  multiselectAnswer := multiselectAnswer Demo.calm;
|}.

End Sample.

(** ** The regular-expression layer *)

Section Regexp.

Import Js.

Lemma syntax_free c :
  isSyntaxCharacter c = false ->
  plain c = TkAtom (AChar c) /\ (c =? 92) = false.
Proof.
  intros Hc. unfold plain. rewrite Hc.
  unfold isSyntaxCharacter in Hc.
  repeat (apply orb_false_elim in Hc as [Hc ?]).
  split; [|assumption].
  repeat match goal with E : (c =? _) = false |- _ => rewrite E; clear E end.
  reflexivity.
Qed.

Lemma lex_literal name rest :
  literalName name = true ->
  lex (name ++ rest) = List.map (fun c => TkAtom (AChar c)) name ++ lex rest.
Proof.
  induction name as [|c name IH]; [reflexivity|].
  cbn [literalName forallb]. intros [Hc Hn]%andb_prop.
  apply negb_true_iff in Hc.
  destruct (syntax_free c Hc) as [Hp Hb].
  cbn [app lex List.map]. rewrite Hb, Hp, (IH Hn). reflexivity.
Qed.

Lemma terms_literal name a ts :
  terms (List.map (fun c => TkAtom (AChar c)) name ++ TkAtom a :: ts)
  = consTerms (lits name) (terms (TkAtom a :: ts)).
Proof.
  induction name as [|c name IH]; [reflexivity|].
  cbn [List.map app lits consTerms]. fold (lits name). rewrite <- IH.
  destruct name; reflexivity.
Qed.

Lemma consTerms_compiled ts re :
  consTerms ts (Compiled re) = Compiled (ts ++ re).
Proof. induction ts as [|t ts IH]; cbn; [|rewrite IH]; reflexivity. Qed.

Lemma existsb_outside_literal name :
  existsb isOutside (List.map (fun c => TkAtom (AChar c)) name) = false.
Proof. induction name; cbn; auto. Qed.

(** Line 64 for a name without syntax characters: the name is read as a
    sequence of literal characters. *)
Lemma compile_sectionPattern name :
  literalName name = true ->
  compile (sectionPattern name) = Compiled (sectionRe name).
Proof.
  intros Hn. unfold compile, sectionPattern.
  change (lit "^\[") with ([94; 92; 91] : list N).
  cbn [app lex]. change (94 =? 92) with false. change (92 =? 92) with true.
  cbv iota. rewrite (lex_literal _ _ Hn).
  change (plain 94) with TkBol. change (escape 91) with (TkAtom (AChar 91)).
  change (lex (lit "\]\s*.+\s*.+$")) with
    ([TkAtom (AChar 93); TkAtom ASpace; TkStar; TkAtom AAny; TkPlus;
      TkAtom ASpace; TkStar; TkAtom AAny; TkPlus; TkEol]).
  cbn [existsb isOutside orb]. rewrite existsb_app, existsb_outside_literal.
  cbn [existsb isOutside orb].
  change (TkAtom (AChar 91) :: ?l ++ ?t)
    with (List.map (fun c => TkAtom (AChar c)) (91 :: name) ++ t).
  change (terms (TkBol :: ?x)) with (consTerm TBol (terms x)).
  rewrite terms_literal.
  change (terms (TkAtom (AChar 93) :: _)) with (Compiled (lits [93] ++ blockRe)).
  rewrite consTerms_compiled. cbn [consTerm].
  unfold sectionRe, header, lits, blockRe.
  rewrite !List.map_app, <- !app_assoc. reflexivity.
Qed.

(** *** Matching *)

Lemma matchTerms_lits u : forall re prev s,
  matchTerms (lits u ++ re) prev (u ++ s)
  = prefixed u (matchTerms re (lastOr prev u) s).
Proof.
  induction u as [|c u IH]; intros re prev s.
  - cbn. destruct (matchTerms re prev s) as [[m rest]|]; reflexivity.
  - cbn [lits List.map app matchTerms atomMatches]. fold (lits u).
    rewrite N.eqb_refl, IH. cbn [lastOr fold_left].
    destruct (matchTerms re _ s) as [[m rest]|]; reflexivity.
Qed.

Lemma matchTerms_lits_inv u : forall re prev s m rest,
  matchTerms (lits u ++ re) prev s = Some (m, rest) ->
  exists s1 m1,
    s = u ++ s1 /\ m = u ++ m1
    /\ matchTerms re (lastOr prev u) s1 = Some (m1, rest).
Proof.
  induction u as [|c u IH]; intros re prev s m rest H.
  - exists s, m. auto.
  - cbn [lits List.map app matchTerms atomMatches] in H. fold (lits u) in H.
    destruct s as [|d s]; [discriminate|].
    destruct (d =? c) eqn:E; [|discriminate]. apply N.eqb_eq in E. subst d.
    destruct (matchTerms (lits u ++ re) (Some c) s) as [[m0 r0]|] eqn:Hm;
      [|discriminate].
    cbn in H. injection H as <- <-.
    destruct (IH _ _ _ _ _ Hm) as (s1 & m1 & -> & -> & Hk).
    exists s1, m1. auto.
Qed.

(** A greedy quantifier takes the whole run of matching characters when
    the rest of the pattern matches after it. *)
Lemma greedy_run a k u : forall prev v m rest,
  forallb (atomMatches a) u = true ->
  match v with [] => True | c :: _ => atomMatches a c = false end ->
  k (lastOr prev u) v = Some (m, rest) ->
  greedy a k prev (u ++ v) = Some (u ++ m, rest).
Proof.
  induction u as [|c u IH]; intros prev v m rest Hu Hv Hk.
  - cbn in *. destruct v as [|d v]; cbn; [assumption|]. rewrite Hv. assumption.
  - cbn [forallb] in Hu. apply andb_prop in Hu as [Hc Hu].
    cbn [app greedy]. rewrite Hc.
    rewrite (IH (Some c) v m rest Hu Hv Hk). reflexivity.
Qed.

Lemma plus_run a re u prev v m rest :
  u <> [] ->
  forallb (atomMatches a) u = true ->
  match v with [] => True | c :: _ => atomMatches a c = false end ->
  matchTerms re (lastOr prev u) v = Some (m, rest) ->
  matchTerms (TAtom a QPlus :: re) prev (u ++ v) = Some (u ++ m, rest).
Proof.
  destruct u as [|c u]; [congruence|]. intros _ Hu Hv Hk.
  cbn [forallb] in Hu. apply andb_prop in Hu as [Hc Hu].
  cbn [app matchTerms]. rewrite Hc.
  rewrite (greedy_run a _ u (Some c) v m rest Hu Hv Hk). reflexivity.
Qed.

Lemma keyLine_any l :
  keyLine l = true ->
  l <> [] /\ forallb (atomMatches AAny) l = true
  /\ match l with [] => True | c :: _ => atomMatches ASpace c = false end.
Proof.
  destruct l as [|c l]; [discriminate|]. unfold keyLine.
  intros [Hc Hl]%andb_prop. apply negb_true_iff in Hc.
  repeat split; [discriminate|exact Hl|exact Hc].
Qed.

Lemma atEol_any post :
  atEol post = true ->
  match post with [] => True | c :: _ => atomMatches AAny c = false end.
Proof.
  destruct post as [|c post]; cbn; [trivial|]. intros ->. reflexivity.
Qed.

(** The tail of the section pattern on a two-line key block. *)
Lemma matchTerms_block prev l1 l2 post :
  keyLine l1 = true -> keyLine l2 = true -> atEol post = true ->
  matchTerms blockRe prev ([10] ++ l1 ++ [10] ++ l2 ++ post)
  = Some ([10] ++ l1 ++ [10] ++ l2, post).
Proof.
  intros (N1 & A1 & S1)%keyLine_any (N2 & A2 & S2)%keyLine_any Hpost.
  unfold blockRe.
  change (matchTerms (TAtom ASpace QStar :: ?re) ?p ?s)
    with (greedy ASpace (matchTerms re) p s).
  replace ([10] ++ l1 ++ [10] ++ l2) with ([10] ++ (l1 ++ ([10] ++ (l2 ++ []))))
    by (rewrite app_nil_r; reflexivity).
  apply greedy_run; [reflexivity| |].
  { destruct l1; [congruence|]. exact S1. }
  apply plus_run; [assumption|assumption|reflexivity|].
  change (matchTerms (TAtom ASpace QStar :: ?re) ?p ?s)
    with (greedy ASpace (matchTerms re) p s).
  apply greedy_run; [reflexivity| |].
  { destruct l2; [congruence|]. exact S2. }
  apply plus_run; [assumption|assumption|apply atEol_any; assumption|].
  cbn [matchTerms]. rewrite Hpost. reflexivity.
Qed.

Lemma lastOr_app prev a b : lastOr prev (a ++ b) = lastOr (lastOr prev a) b.
Proof. apply fold_left_app. Qed.

Lemma lastOr_header prev name : lastOr prev (header name) = Some 93.
Proof. unfold header. rewrite !lastOr_app. reflexivity. Qed.

Lemma startsWith_app p s : startsWith p (p ++ s) = true.
Proof. induction p as [|c p IH]; cbn; [|rewrite N.eqb_refl]; auto. Qed.

(** The section pattern of a literal name matches only at the start of a
    line, and only a text that begins with the header [[name]]. *)
Lemma matchTerms_section_inv name prev s m rest :
  matchTerms (sectionRe name) prev s = Some (m, rest) ->
  atBol prev = true
  /\ exists s1 m1,
       s = header name ++ s1 /\ m = header name ++ m1
       /\ matchTerms blockRe (Some 93) s1 = Some (m1, rest).
Proof.
  unfold sectionRe. cbn [matchTerms]. destruct (atBol prev); [|discriminate].
  intros H. split; [reflexivity|].
  apply matchTerms_lits_inv in H. rewrite lastOr_header in H. exact H.
Qed.

Lemma matchTerms_section_fails name prev s :
  atBol prev && startsWith (header name) s = false ->
  matchTerms (sectionRe name) prev s = None.
Proof.
  intros H. destruct (matchTerms (sectionRe name) prev s) as [[m rest]|] eqn:E;
    [|reflexivity].
  apply matchTerms_section_inv in E as (Hb & s1 & m1 & -> & _).
  rewrite Hb, startsWith_app in H. discriminate.
Qed.

Lemma matchTerms_section name prev l1 l2 post :
  atBol prev = true ->
  keyLine l1 = true -> keyLine l2 = true -> atEol post = true ->
  matchTerms (sectionRe name) prev
    (header name ++ [10] ++ l1 ++ [10] ++ l2 ++ post)
  = Some (header name ++ [10] ++ l1 ++ [10] ++ l2, post).
Proof.
  intros Hb H1 H2 Hp. unfold sectionRe. cbn [matchTerms]. rewrite Hb.
  rewrite matchTerms_lits, matchTerms_block by assumption. reflexivity.
Qed.

(** *** Searching *)

Lemma search_none name : forall s prev,
  firstLineWith (header name) prev s = None ->
  search (sectionRe name) prev s = None.
Proof.
  induction s as [|c s IH]; intros prev H; cbn [firstLineWith] in H;
    destruct (atBol prev && startsWith (header name) _) eqn:E;
    try discriminate; cbn [search];
    rewrite (matchTerms_section_fails _ _ _ E); [reflexivity|].
  destruct (firstLineWith (header name) (Some c) s) eqn:F; [discriminate|].
  rewrite (IH _ F). reflexivity.
Qed.

Lemma firstLineWith_at p pre : forall prev s,
  firstLineWith p prev (pre ++ s) = Some (length pre) ->
  atBol (lastOr prev pre) = true /\ startsWith p s = true.
Proof.
  induction pre as [|c pre IH]; intros prev s H.
  - cbn [app length lastOr fold_left] in *.
    destruct s; cbn [firstLineWith] in H;
      destruct (atBol prev && startsWith p _) eqn:E;
      try discriminate; try (apply andb_prop in E; exact E).
    destruct (firstLineWith p (Some n) s); discriminate.
  - cbn [app length firstLineWith] in H.
    destruct (atBol prev && startsWith p _); [discriminate|].
    destruct (firstLineWith p (Some c) (pre ++ s)) eqn:F; [|discriminate].
    cbn in H. injection H as ->. exact (IH _ _ F).
Qed.

Lemma search_first name pre : forall prev s m rest,
  firstLineWith (header name) prev (pre ++ s) = Some (length pre) ->
  matchTerms (sectionRe name) (lastOr prev pre) s = Some (m, rest) ->
  search (sectionRe name) prev (pre ++ s) = Some (pre, m, rest).
Proof.
  induction pre as [|c pre IH]; intros prev s m rest H Hm.
  - cbn [app lastOr fold_left] in *. destruct s; cbn [search]; rewrite Hm; reflexivity.
  - cbn [app length firstLineWith] in H.
    destruct (atBol prev && startsWith (header name) _) eqn:E; [discriminate|].
    destruct (firstLineWith (header name) (Some c) (pre ++ s)) eqn:F;
      [|discriminate].
    cbn in H. injection H as ->.
    cbn [app search]. rewrite (matchTerms_section_fails _ _ _ E).
    rewrite (IH (Some c) s m rest F Hm). reflexivity.
Qed.

Lemma matchTerms_split : forall re prev s m rest,
  matchTerms re prev s = Some (m, rest) -> s = m ++ rest.
Proof.
  assert (G : forall a (k : option N -> list N -> option (list N * list N)),
             (forall prev s m rest, k prev s = Some (m, rest) -> s = m ++ rest) ->
             forall s prev m rest,
               greedy a k prev s = Some (m, rest) -> s = m ++ rest).
  { intros a k Hk. induction s as [|c s IH]; intros prev m rest H;
      cbn [greedy] in H; [eauto|].
    destruct (atomMatches a c); [|eauto].
    destruct (greedy a k (Some c) s) as [[m0 r0]|] eqn:E; cbn in H; [|eauto].
    injection H as <- <-. rewrite (IH _ _ _ E). reflexivity. }
  induction re as [|t re IH]; intros prev s m rest H; cbn [matchTerms] in H.
  - injection H as <- <-. reflexivity.
  - destruct t as [| |a []].
    + destruct (atBol prev); [eauto|discriminate].
    + destruct (atEol s); [eauto|discriminate].
    + destruct s as [|c s]; [discriminate|].
      destruct (atomMatches a c); [|discriminate].
      destruct (matchTerms re (Some c) s) as [[m0 r0]|] eqn:E; [|discriminate].
      cbn in H. injection H as <- <-. rewrite (IH _ _ _ _ E). reflexivity.
    + eapply G; eauto.
    + destruct s as [|c s]; [discriminate|].
      destruct (atomMatches a c); [|discriminate].
      destruct (greedy a (matchTerms re) (Some c) s) as [[m0 r0]|] eqn:E;
        [|discriminate].
      cbn in H. injection H as <- <-.
      rewrite (G a _ (IH) _ _ _ _ E). reflexivity.
Qed.

(** What [exec] finds: the input split in three, the pattern matching the
    middle at the position where the first part ends. *)
Lemma search_found re : forall s prev pre m post,
  search re prev s = Some (pre, m, post) ->
  s = pre ++ m ++ post
  /\ matchTerms re (lastOr prev pre) (m ++ post) = Some (m, post).
Proof.
  induction s as [|c s IH]; intros prev pre m post H; cbn [search] in H.
  - destruct (matchTerms re prev []) as [[m0 r0]|] eqn:E; [|discriminate].
    injection H as <- <- <-. pose proof (matchTerms_split _ _ _ _ _ E) as S.
    cbn. rewrite <- S. auto.
  - destruct (matchTerms re prev (c :: s)) as [[m0 r0]|] eqn:E.
    + injection H as <- <- <-. pose proof (matchTerms_split _ _ _ _ _ E) as S.
      cbn [app lastOr fold_left]. rewrite <- S. auto.
    + destruct (search re (Some c) s) as [[[p0 m0] r0]|] eqn:F; [|discriminate].
      injection H as <- <- <-. destruct (IH _ _ _ _ F) as [-> Hm].
      split; [reflexivity|exact Hm].
Qed.

(** *** Replacing *)

Lemma getSubstitution_noDollar matched before after template :
  noDollar template = true ->
  getSubstitution matched before after template = template.
Proof.
  induction template as [|c t IH]; [reflexivity|].
  cbn [noDollar forallb]. intros [Hc Ht]%andb_prop.
  apply negb_true_iff in Hc. cbn [getSubstitution]. rewrite Hc.
  f_equal. exact (IH Ht).
Qed.

Lemma replace_none name s template :
  firstLineWith (header name) None s = None ->
  replace (sectionRe name) s template = s.
Proof.
  intros H. unfold replace, exec. rewrite (search_none _ _ _ H). reflexivity.
Qed.

Lemma replace_section name pre l1 l2 post template :
  firstLineWith (header name) None
    (pre ++ header name ++ [10] ++ l1 ++ [10] ++ l2 ++ post)
  = Some (length pre) ->
  keyLine l1 = true -> keyLine l2 = true -> atEol post = true ->
  noDollar template = true ->
  replace (sectionRe name)
    (pre ++ header name ++ [10] ++ l1 ++ [10] ++ l2 ++ post) template
  = pre ++ template ++ post.
Proof.
  intros H H1 H2 Hp Ht. unfold replace, exec.
  destruct (firstLineWith_at _ _ _ _ H) as [Hb _].
  rewrite (search_first name pre None _ _ _ H
             (matchTerms_section name _ l1 l2 post Hb H1 H2 Hp)).
  rewrite getSubstitution_noDollar by assumption. reflexivity.
Qed.

End Regexp.


(** ** Effects: what a computation issues *)

Section Effects.

Context {A B : Type}.
Implicit Types (ok : event -> bool).

Lemma eventsOf_trace (m : M A) w evs :
  trace (m w).2 = trace w ++ evs -> eventsOf m w = evs.
Proof. unfold eventsOf. intros ->. apply drop_app_length. Qed.

Lemma only_ret ok (a : A) : only ok (ret a).
Proof. intros w. exists []. cbn. rewrite app_nil_r. auto. Qed.

Lemma only_throw ok e : only ok (@throw A e).
Proof. intros w. exists []. cbn. rewrite app_nil_r. auto. Qed.

Lemma only_exit ok c : only ok (@exit A c).
Proof. intros w. exists []. cbn. rewrite app_nil_r. auto. Qed.

Lemma only_outOfModel ok : only ok (@outOfModel A).
Proof. intros w. exists []. cbn. rewrite app_nil_r. auto. Qed.

Lemma only_await ok (r : error + A) : only ok (await r).
Proof. destruct r; [apply only_throw|apply only_ret]. Qed.

Lemma only_bind ok (m : M A) (k : A -> M B) :
  only ok m -> (forall a, only ok (k a)) -> only ok (bind m k).
Proof.
  intros Hm Hk w. destruct (Hm w) as (e1 & T1 & O1). unfold bind.
  destruct (m w) as [[a| | |] w1]; cbn [snd] in *;
    try (exists e1; auto; fail).
  destruct (Hk a w1) as (e2 & T2 & O2). exists (e1 ++ e2).
  rewrite T2, T1, app_assoc, forallb_app, O1, O2. auto.
Qed.

Lemma only_tryCatch ok (m : M A) (handler : error -> M A) :
  only ok m -> (forall e, only ok (handler e)) -> only ok (tryCatch m handler).
Proof.
  intros Hm Hk w. destruct (Hm w) as (e1 & T1 & O1). unfold tryCatch.
  destruct (m w) as [[a| e | |] w1]; cbn [snd] in *;
    try (exists e1; auto; fail).
  destruct (Hk e w1) as (e2 & T2 & O2). exists (e1 ++ e2).
  rewrite T2, T1, app_assoc, forallb_app, O1, O2. auto.
Qed.


Lemma keeps_ret (a : A) : keepsFiles (ret a).
Proof. intros w. reflexivity. Qed.

Lemma keeps_throw e : keepsFiles (@throw A e).
Proof. intros w. reflexivity. Qed.

Lemma keeps_exit c : keepsFiles (@exit A c).
Proof. intros w. reflexivity. Qed.

Lemma keeps_await (r : error + A) : keepsFiles (await r).
Proof. destruct r; intros w; reflexivity. Qed.

Lemma keeps_bind (m : M A) (k : A -> M B) :
  keepsFiles m -> (forall a, keepsFiles (k a)) -> keepsFiles (bind m k).
Proof.
  intros Hm Hk w. specialize (Hm w). unfold bind.
  destruct (m w) as [[a| | |] w1]; cbn [snd] in *; try assumption.
  rewrite Hk. assumption.
Qed.

Lemma keeps_tryCatch (m : M A) (handler : error -> M A) :
  keepsFiles m -> (forall e, keepsFiles (handler e)) ->
  keepsFiles (tryCatch m handler).
Proof.
  intros Hm Hk w. specialize (Hm w). unfold tryCatch.
  destruct (m w) as [[a| e | |] w1]; cbn [snd] in *; try assumption.
  rewrite Hk. assumption.
Qed.

End Effects.

Lemma only_emit ok e : ok e = true -> only ok (emit e).
Proof. intros H w. exists [e]. cbn. rewrite H. auto. Qed.

Lemma only_clock ok : only ok clock.
Proof. intros w. exists []. cbn. rewrite app_nil_r. auto. Qed.

Lemma keeps_emit e : keepsFiles (emit e).
Proof. intros w. reflexivity. Qed.

Lemma keeps_clock : keepsFiles clock.
Proof. intros w. reflexivity. Qed.

Create HintDb effects.
#[local] Hint Resolve only_ret only_throw only_exit only_outOfModel only_await
  only_clock keeps_ret keeps_throw keeps_exit keeps_await keeps_emit
  keeps_clock : effects.

(** Repeated step: split a sequence of binds into its parts. *)
Ltac effects :=
  repeat first
    [ solve [auto with effects]
    | apply only_emit; reflexivity
    | apply only_bind; [|intros ?]
    | apply keeps_bind; [|intros ?]
    | apply only_tryCatch; [|intros ?]
    | apply keeps_tryCatch; [|intros ?] ].

(** *** Up to the selection *)

Section ProgramEffects.

Context (h : host).

Lemma readFile_quiet path : only (fun e => negb (mutating e)) (readFile h path).
Proof.
  unfold readFile. effects. intros w. exists []. rewrite app_nil_r.
  destruct (readFault h _ path); [auto|]. destruct (fs w !! path); auto.
Qed.

Lemma readFile_keeps path : keepsFiles (readFile h path).
Proof.
  unfold readFile. effects. intros w.
  destruct (readFault h _ path); [auto|]. destruct (fs w !! path); auto.
Qed.

#[local] Hint Resolve readFile_quiet readFile_keeps : effects.

Lemma getAllCredentialProfiles_quiet :
  only (fun e => negb (mutating e)) (getAllCredentialProfiles h).
Proof. unfold getAllCredentialProfiles. effects. Qed.

Lemma getAllCredentialProfiles_keeps : keepsFiles (getAllCredentialProfiles h).
Proof. unfold getAllCredentialProfiles. effects. Qed.

Lemma loadProfiles_quiet profiles :
  only (fun e => negb (mutating e)) (loadProfiles h profiles).
Proof. induction profiles; cbn [loadProfiles]; effects. Qed.

Lemma loadProfiles_keeps profiles : keepsFiles (loadProfiles h profiles).
Proof. induction profiles; cbn [loadProfiles]; effects. Qed.

#[local] Hint Resolve getAllCredentialProfiles_quiet
  getAllCredentialProfiles_keeps loadProfiles_quiet loadProfiles_keeps
  : effects.

Lemma getAllProfiles_quiet profiles :
  only (fun e => negb (mutating e)) (getAllProfiles h profiles).
Proof.
  unfold getAllProfiles, listAccessKeys. effects.
Qed.

Lemma getAllProfiles_keeps profiles : keepsFiles (getAllProfiles h profiles).
Proof.
  unfold getAllProfiles, listAccessKeys. effects.
Qed.

#[local] Hint Resolve getAllProfiles_quiet getAllProfiles_keeps : effects.

(** Up to the selection, the program changes nothing. *)
Lemma select_quiet a : only (fun e => negb (mutating e)) (select h a).
Proof.
  unfold select, say. effects.
  - destruct (argProfiles a); effects.
  - destruct a3; effects. destruct (argProfiles a); effects.
    destruct (multiselectAnswer h _ _); effects.
Qed.

Lemma select_keeps a : keepsFiles (select h a).
Proof.
  unfold select, say. effects.
  - destruct (argProfiles a); effects.
  - destruct a3; effects. destruct (argProfiles a); effects.
    destruct (multiselectAnswer h _ _); effects.
Qed.

End ProgramEffects.


(** ** Step equations *)

Section Steps.

Context (h : host).

Lemma bind_ok {A B} (m : M A) (k : A -> M B) w a w1 :
  m w = (Ok a, w1) -> bind m k w = k a w1.
Proof. unfold bind. intros ->. reflexivity. Qed.

Lemma trace_spoil t w path content :
  trace (spoil h t w path content) = trace w.
Proof. unfold spoil. destruct (writeDamage h t path content); reflexivity. Qed.

Lemma spoil_other t w path content p :
  path <> p -> fs (spoil h t w path content) !! p = fs w !! p.
Proof.
  intros Hp. unfold spoil.
  destruct (writeDamage h t path content); [|reflexivity].
  cbn. apply lookup_insert_ne. exact Hp.
Qed.

Lemma record_spoil t w path content evs :
  record (spoil h t w path content) evs
  = spoil h t (record w evs) path content.
Proof. unfold spoil. destruct (writeDamage h t path content); reflexivity. Qed.

Lemma readFile_eq path w :
  readFile h path w
  = (match fileRead h w path with
     | Some content => Ok content
     | None => Throw (FsError path)
     end, record w [EvReadFile path]).
Proof.
  unfold readFile, fileRead, bind, clock, emit. cbn.
  destruct (readFault h _ path); [reflexivity|].
  destruct (fs w !! path); reflexivity.
Qed.

Lemma writeFile_eq path content w :
  writeFile h path content w
  = if writeFault h (length (trace w)) path
    then (Throw (FsError path),
          spoil h (length (trace w)) (record w [EvWriteFile path content])
            path content)
    else (Ok tt, store (record w [EvWriteFile path content]) path content).
Proof.
  unfold writeFile, bind, clock, emit. cbn.
  destruct (writeFault h _ path); reflexivity.
Qed.

Lemma replaceEnvVars_eq path id secret w :
  replaceEnvVars h path id secret w
  = let w1 := record w [EvReadFile path] in
    match fileRead h w path with
    | None => (Ok tt, record w1 [EvOutput (LogFailedEnv path (FsError path))])
    | Some envFile =>
        let w2 := record w1 [EvWriteFile path (newEnvFile envFile id secret)] in
        if writeFault h (length (trace w1)) path
        then (Ok tt,
              spoil h (length (trace w1))
                (record w2 [EvOutput (LogFailedEnv path (FsError path))])
                path (newEnvFile envFile id secret))
        else (Ok tt, store w2 path (newEnvFile envFile id secret))
    end.
Proof.
  unfold replaceEnvVars, tryCatch, bind. rewrite readFile_eq.
  destruct (fileRead h w path) as [envFile|]; [|reflexivity].
  rewrite writeFile_eq. cbn zeta.
  destruct (writeFault h _ path); [|reflexivity].
  unfold say, emit. rewrite record_spoil. reflexivity.
Qed.

(** The env part never throws. *)
Lemma replaceEnvVars_ok path id secret w :
  (replaceEnvVars h path id secret w).1 = Ok tt.
Proof.
  rewrite replaceEnvVars_eq. cbn zeta.
  destruct (fileRead h w path); [|reflexivity].
  destruct (writeFault h _ path); reflexivity.
Qed.

Lemma replaceCrendentials_eq name id secret env w :
  replaceCrendentials h name id secret env w
  = let w1 := record w [EvReadFile (credentialsPath h)] in
    match fileRead h w (credentialsPath h) with
    | None => (Throw (FsError (credentialsPath h)), w1)
    | Some credentialsFile =>
        match Js.compile (sectionPattern name) with
        | Js.SyntaxError => (Throw RegExpSyntaxError, w1)
        | Js.Unsupported => (OutOfModel, w1)
        | Js.Compiled re =>
            let newFile :=
              Js.replace re credentialsFile (newDefaultProfile name id secret) in
            let w2 := record w1 [EvWriteFile (credentialsPath h) newFile] in
            if writeFault h (length (trace w1)) (credentialsPath h)
            then (Throw (FsError (credentialsPath h)),
                  spoil h (length (trace w1)) w2 (credentialsPath h) newFile)
            else
              let w3 := store w2 (credentialsPath h) newFile in
              match env with
              | JString s => replaceEnvVars h (resolve h s) id secret w3
              | _ => (Ok tt, w3)
              end
        end
    end.
Proof.
  unfold replaceCrendentials, bind. rewrite readFile_eq.
  destruct (fileRead h w (credentialsPath h)) as [file|]; [|reflexivity].
  unfold newRegExp.
  destruct (Js.compile (sectionPattern name)) as [re| |]; try reflexivity.
  cbn [ret]. rewrite writeFile_eq. cbn zeta.
  destruct (writeFault h _ (credentialsPath h)); [reflexivity|].
  destruct env; reflexivity.
Qed.

End Steps.


(** ** Replacing a section of the credentials file *)

Section Replace.

Context (h : host).

Lemma noDollar_app a b : noDollar (a ++ b) = noDollar a && noDollar b.
Proof. apply forallb_app. Qed.

Lemma literalName_noDollar name : literalName name = true -> noDollar name = true.
Proof.
  unfold literalName, noDollar. rewrite !forallb_forall. intros H c Hc.
  specialize (H c Hc). apply negb_true_iff in H. apply negb_true_iff.
  unfold Js.isSyntaxCharacter in H.
  repeat (apply orb_false_elim in H as [H ?]). assumption.
Qed.

Lemma newDefaultProfile_noDollar name id secret :
  literalName name = true -> noDollar id = true -> noDollar secret = true ->
  noDollar (newDefaultProfile name id secret) = true.
Proof.
  intros Hn%literalName_noDollar Hi Hs. unfold newDefaultProfile.
  rewrite !noDollar_app, Hn, Hi, Hs. reflexivity.
Qed.

Lemma keyLine_prefixed k v :
  keyLine k = true -> noLineTerminator v = true -> keyLine (k ++ v) = true.
Proof.
  destruct k as [|c k]; [discriminate|]. unfold keyLine. cbn [app].
  intros [Hc Hk]%andb_prop Hv. rewrite Hc. unfold noLineTerminator in *.
  change (c :: k ++ v) with ((c :: k) ++ v). rewrite forallb_app, Hk, Hv.
  reflexivity.
Qed.

End Replace.


Section ReplaceClaims.

Context (h : host).

Lemma replaceEnvVars_other path id secret w p :
  path <> p -> fs (replaceEnvVars h path id secret w).2 !! p = fs w !! p.
Proof.
  intros Hp. rewrite replaceEnvVars_eq. cbn zeta.
  destruct (fileRead h w path); [|reflexivity].
  destruct (writeFault h _ path);
    [cbn [snd]; rewrite spoil_other by assumption; reflexivity|].
  cbn. apply lookup_insert_ne. assumption.
Qed.

Lemma replaceEnvVars_trace path id secret w :
  exists rest,
    trace (replaceEnvVars h path id secret w).2
    = trace w ++ EvReadFile path :: rest.
Proof.
  rewrite replaceEnvVars_eq. cbn zeta.
  destruct (fileRead h w path); [|eexists; cbn; rewrite <- app_assoc; reflexivity].
  destruct (writeFault h _ path); eexists; cbn [snd];
    rewrite ?trace_spoil; cbn; rewrite <- !app_assoc; reflexivity.
Qed.

(** The credentials part of [replaceCrendentials], when the file can be
    read and written and the pattern compiles: the file is rewritten to
    the result of the replacement, and the call returns normally. *)
Lemma replaceCrendentials_written name id secret env w file re :
  fileRead h w (credentialsPath h) = Some file ->
  Js.compile (sectionPattern name) = Js.Compiled re ->
  writeFault h (S (length (trace w))) (credentialsPath h) = false ->
  let newFile := Js.replace re file (newDefaultProfile name id secret) in
  let r := replaceCrendentials h name id secret env w in
  r.1 = Ok tt
  /\ (envAway h env -> fs r.2 !! credentialsPath h = Some newFile)
  /\ exists rest,
       trace r.2
       = trace w ++ EvReadFile (credentialsPath h)
           :: EvWriteFile (credentialsPath h) newFile :: rest.
Proof.
  intros Hr Hc Hw newFile r. subst r.
  rewrite replaceCrendentials_eq, Hr, Hc. cbn zeta.
  replace (length (trace (record w [EvReadFile (credentialsPath h)])))
    with (S (length (trace w))) by (cbn; rewrite length_app; cbn; lia).
  rewrite Hw. fold newFile.
  set (w3 := store _ _ _).
  assert (F3 : fs w3 !! credentialsPath h = Some newFile)
    by apply lookup_insert_eq.
  assert (T3 : trace w3 = trace w ++ [EvReadFile (credentialsPath h);
                                       EvWriteFile (credentialsPath h) newFile])
    by (cbn; rewrite <- app_assoc; reflexivity).
  destruct env as [| b | s |];
    try (cbn [fst snd]; split; [reflexivity|]; split; [auto|];
         exists []; exact T3).
  split; [apply replaceEnvVars_ok|]. split.
  - intros Ha. rewrite replaceEnvVars_other; assumption.
  - destruct (replaceEnvVars_trace (resolve h s) id secret w3) as [rest ->].
    exists (EvReadFile (resolve h s) :: rest). rewrite T3, <- app_assoc.
    reflexivity.
Qed.

End ReplaceClaims.

(** C1 (the claim fails on a name with a syntax character): with the
    profiles [abc] and [a.c] in the file, replacing the credentials of
    [a.c] overwrites the block of [abc], header included, and leaves the
    block of [a.c] as it was. *)
Theorem replaceCrendentials_dotted_name_hits_other_section :
  fs (replaceCrendentials Demo.calm (Js.lit "a.c") (Js.lit "AKIANEW")
        (Js.lit "SECNEW") (JBool false) (Demo.start Demo.dotted)).2
    !! Demo.home
  = Some (Demo.unlines
            ["[a.c]"; "aws_access_key_id=AKIANEW"; "aws_secret_access_key=SECNEW";
             "[a.c]"; "aws_access_key_id=AKIATWO"; "aws_secret_access_key=SECTWO"]%string).
Proof. vm_compute. reflexivity. Qed.

(** For a name without syntax characters, and new values without a
    dollar, the first section headed [[name]] with a well-formed key
    block is replaced by the new block; the text before and after it is
    kept code unit by code unit. *)
Theorem replaceCrendentials_literal_section
    h name id secret env w pre oldId oldSecret post :
  let file :=
    pre ++ header name ++ [10]
      ++ (Js.lit "aws_access_key_id=" ++ oldId) ++ [10]
      ++ (Js.lit "aws_secret_access_key=" ++ oldSecret) ++ post in
  let newFile := pre ++ newDefaultProfile name id secret ++ post in
  literalName name = true ->
  noDollar id = true -> noDollar secret = true ->
  noLineTerminator oldId = true -> noLineTerminator oldSecret = true ->
  Js.atEol post = true ->
  firstLineWith (header name) None file = Some (length pre) ->
  fileRead h w (credentialsPath h) = Some file ->
  writeFault h (S (length (trace w))) (credentialsPath h) = false ->
  envAway h env ->
  let r := replaceCrendentials h name id secret env w in
  r.1 = Ok tt /\ fs r.2 !! credentialsPath h = Some newFile.
Proof.
  intros file newFile Hn Hi Hs Ho1 Ho2 Hp Hf Hr Hw He r.
  destruct (replaceCrendentials_written h name id secret env w file _ Hr
              (compile_sectionPattern _ Hn) Hw) as (R1 & R2 & _).
  split; [exact R1|]. subst r. rewrite (R2 He). f_equal. subst file.
  apply (replace_section name pre _ _ post _ Hf
           (keyLine_prefixed (Js.lit "aws_access_key_id=") _ eq_refl Ho1)
           (keyLine_prefixed (Js.lit "aws_secret_access_key=") _ eq_refl Ho2)
           Hp (newDefaultProfile_noDollar _ _ _ Hn Hi Hs)).
Qed.

(** On the demo host: the section of [work], the second of the file,
    with the env option set. *)
Lemma replaceCrendentials_literal_section_witness :
  let r := replaceCrendentials Demo.calm (Js.lit "work") (Js.lit "AKIANEW")
             (Js.lit "SECNEW") (JString (Js.lit ".env")) (Demo.start Demo.two) in
  r.1 = Ok tt
  /\ fs r.2 !! Demo.home
     = Some (Demo.unlines
               ["[default]"; "aws_access_key_id=AKIAOLD"; "aws_secret_access_key=SECOLD"]%string
             ++ newDefaultProfile (Js.lit "work") (Js.lit "AKIANEW") (Js.lit "SECNEW")
             ++ [10]).
Proof.
  apply (replaceCrendentials_literal_section Demo.calm (Js.lit "work")
           (Js.lit "AKIANEW") (Js.lit "SECNEW") (JString (Js.lit ".env"))
           (Demo.start Demo.two)
           (Demo.unlines ["[default]"; "aws_access_key_id=AKIAOLD";
                          "aws_secret_access_key=SECOLD"]%string)
           (Js.lit "AKIAWRK") (Js.lit "SECWRK") [10]);
    try reflexivity.
  vm_compute. discriminate.
Defined.


(** C2 (as stated, false): on the file with the profiles [default] and
    [work], replacing the credentials of the absent profile [staging]
    returns normally; no error is signalled. *)
Lemma absent_profile_signals_no_error :
  firstLineWith (header (Js.lit "staging")) None Demo.two = None
  /\ (replaceCrendentials Demo.calm (Js.lit "staging") (Js.lit "AKIANEW")
        (Js.lit "SECNEW") (JBool false) (Demo.start Demo.two)).1 = Ok tt
  /\ ~ exists e,
        (replaceCrendentials Demo.calm (Js.lit "staging") (Js.lit "AKIANEW")
           (Js.lit "SECNEW") (JBool false) (Demo.start Demo.two)).1 = Throw e.
Proof.
  split; [reflexivity|]. split; [reflexivity|].
  intros [e He]. vm_compute in He. discriminate.
Qed.







(** ** The rotation, step by step *)

Section Rotation.

Context (h : host).

Lemma record_record w a b : record (record w a) b = record w (a ++ b).
Proof. unfold record. cbn. rewrite app_assoc. reflexivity. Qed.

Lemma record_nil w : record w [] = w.
Proof. destruct w. unfold record. cbn. rewrite app_nil_r. reflexivity. Qed.

Lemma length_record w evs :
  length (trace (record w evs)) = (length (trace w) + length evs)%nat.
Proof. cbn. apply length_app. Qed.

Lemma createAccessKey_eq w :
  createAccessKey h w
  = (match createdAt h (length (trace w)) with
     | inl e => Throw e
     | inr k => Ok k
     end, record w [EvCreateAccessKey]).
Proof.
  unfold createAccessKey, createdAt, bind, clock, emit. cbn.
  destruct (createResponse h _) as [e|[k|]]; reflexivity.
Qed.

Lemma rotateOne_eq single env prof w :
  rotateOne h single env prof w
  = let w1 := record w [EvCreateAccessKey] in
    match createdAt h (length (trace w)) with
    | inl e => (Throw e, w1)
    | inr k =>
        match replaceCrendentials h (name prof) (tpl k.1) (tpl k.2)
                (if single then env else JBool false) w1 with
        | (Ok _, w2) => (Ok (rotatedOf prof k), w2)
        | (Throw e, w2) =>
            (Ok (rotatedOf prof k), record w2 [EvOutput (LogFailedReplacing e)])
        | (Exit c, w2) => (Exit c, w2)
        | (OutOfModel, w2) => (OutOfModel, w2)
        end
    end.
Proof.
  unfold rotateOne, bind at 1. rewrite createAccessKey_eq. cbn zeta.
  destruct (createdAt h _) as [e|[id secret]]; [reflexivity|].
  unfold bind, tryCatch. cbn [fst snd].
  destruct (replaceCrendentials h _ _ _ _ _) as [[[]|e|c|] w2]; reflexivity.
Qed.

Lemma deleteEach_eq selected : forall w,
  deleteEach h selected w
  = (Ok (deleteResults h (length (trace w)) selected),
     record w (deleteCalls selected)).
Proof.
  induction selected as [|p rest IH]; intros w.
  - cbn. rewrite record_nil. reflexivity.
  - cbn [deleteEach deleteResults deleteCalls List.map].
    unfold bind at 1. unfold deleteKey, bind at 1, clock, emit. cbn [fst snd].
    unfold bind at 1. cbn [ret]. unfold bind at 1. rewrite IH.
    rewrite length_record, record_record. cbn [length app ret].
    replace (length (trace w) + 1)%nat with (S (length (trace w))) by lia.
    reflexivity.
Qed.

Lemma noteEach_eq rotated : forall w,
  noteEach rotated w = (Ok tt, record w (notes rotated)).
Proof.
  induction rotated as [|k rest IH]; intros w.
  - cbn. rewrite record_nil. reflexivity.
  - cbn [noteEach notes List.map]. unfold bind, say, emit.
    rewrite IH, record_record. reflexivity.
Qed.

Lemma finish_eq a selected rotated w :
  finish h a selected rotated w
  = let stop :=
      EvOutput (SpinnerStop (length selected) (Nat.ltb 1 (length selected))) in
    let w1 := record w (stop :: deleteCalls selected) in
    match all (deleteResults h (S (length (trace w))) selected) with
    | inl e => (Throw e, w1)
    | inr _ =>
        (Ok tt,
         record w1 ((if argOutput a then notes rotated else [])
                      ++ [EvOutput OutroComplete]))
    end.
Proof.
  unfold finish, bind at 1, say, emit. unfold bind at 1.
  rewrite deleteEach_eq, length_record, record_record. cbn [length app].
  replace (length (trace w) + 1)%nat with (S (length (trace w))) by lia.
  unfold bind at 1. cbn zeta.
  destruct (all _) as [e|l]; [reflexivity|]. cbn [await ret].
  unfold bind. destruct (argOutput a).
  - rewrite noteEach_eq, !record_record. reflexivity.
  - cbn [ret]. rewrite !record_record. reflexivity.
Qed.

Lemma rotate_eq a env selected w :
  rotate h a env selected w
  = bind (rotateEach h (Nat.eqb (length selected) 1) env selected [])
      (finish h a selected)
      (record w [EvOutput (SpinnerStart (Nat.ltb 1 (length selected)))]).
Proof. reflexivity. Qed.

Lemma run_eq a w :
  run h a w
  = match select h a w with
    | (Ok selected, w1) =>
        if Nat.ltb 2 (length selected)
        then (Ok tt, record w1 [EvOutput LogTooMany])
        else if Nat.eqb (length selected) 0
        then (Ok tt, record w1 [EvOutput OutroNothing])
        else rotate h a (envOf a) selected w1
    | (Throw e, w1) => (Throw e, w1)
    | (Exit c, w1) => (Exit c, w1)
    | (OutOfModel, w1) => (OutOfModel, w1)
    end.
Proof.
  unfold run, bind. destruct (select h a w) as [[sel|e|c|] w1]; try reflexivity.
  destruct (Nat.ltb 2 (length sel)); [reflexivity|].
  destruct (Nat.eqb (length sel) 0); reflexivity.
Qed.

End Rotation.


(** ** Which calls each part of the program issues *)

Section Kinds.

Context (h : host).
Implicit Types (ok : event -> bool).

Lemma readFile_only ok path :
  ok (EvReadFile path) = true -> only ok (readFile h path).
Proof.
  intros H. unfold readFile.
  apply only_bind; [apply only_clock|]. intros t.
  apply only_bind; [apply only_emit, H|]. intros _ w.
  exists []. rewrite app_nil_r.
  destruct (readFault h t path); [auto|]. destruct (fs w !! path); auto.
Qed.

Lemma writeFile_only ok path content :
  ok (EvWriteFile path content) = true -> only ok (writeFile h path content).
Proof.
  intros H. unfold writeFile.
  apply only_bind; [apply only_clock|]. intros t.
  apply only_bind; [apply only_emit, H|]. intros _ w.
  exists []. rewrite app_nil_r.
  destruct (writeFault h t path); cbn [snd]; rewrite ?trace_spoil; auto.
Qed.

Lemma replaceEnvVars_only ok path id secret :
  ok (EvReadFile path) = true ->
  (forall c, ok (EvWriteFile path c) = true) ->
  (forall e, ok (EvOutput (LogFailedEnv path e)) = true) ->
  only ok (replaceEnvVars h path id secret).
Proof.
  intros Hr Hw Hl. unfold replaceEnvVars, say.
  apply only_tryCatch; [|intros e; apply only_emit, Hl].
  apply only_bind; [apply readFile_only, Hr|].
  intros f. apply writeFile_only, Hw.
Qed.

Lemma newRegExp_only ok source : only ok (newRegExp source).
Proof. unfold newRegExp. destruct (Js.compile source); effects. Qed.

Lemma replaceCrendentials_only ok name id secret env :
  ok (EvReadFile (credentialsPath h)) = true ->
  (forall c, ok (EvWriteFile (credentialsPath h) c) = true) ->
  (forall s, env = JString s ->
     ok (EvReadFile (resolve h s)) = true
     /\ (forall c, ok (EvWriteFile (resolve h s) c) = true)
     /\ (forall e, ok (EvOutput (LogFailedEnv (resolve h s) e)) = true)) ->
  only ok (replaceCrendentials h name id secret env).
Proof.
  intros Hr Hw He. unfold replaceCrendentials.
  apply only_bind; [apply readFile_only, Hr|]. intros f.
  apply only_bind; [apply newRegExp_only|]. intros re.
  apply only_bind; [apply writeFile_only, Hw|]. intros _.
  destruct env as [| b | s |]; try apply only_ret.
  destruct (He s eq_refl) as (H1 & H2 & H3).
  apply replaceEnvVars_only; assumption.
Qed.

Lemma createAccessKey_only ok :
  ok EvCreateAccessKey = true -> only ok (createAccessKey h).
Proof.
  intros H. unfold createAccessKey.
  apply only_bind; [apply only_clock|]. intros t.
  apply only_bind; [apply only_emit, H|]. intros _.
  apply only_bind; [apply only_await|]. intros [k|];
    [apply only_ret|apply only_throw].
Qed.

Lemma rotateOne_only ok (single : bool) (env : jsval) prof :
  ok EvCreateAccessKey = true ->
  ok (EvReadFile (credentialsPath h)) = true ->
  (forall c, ok (EvWriteFile (credentialsPath h) c) = true) ->
  (forall e, ok (EvOutput (LogFailedReplacing e)) = true) ->
  (forall s, (if single then env else JBool false) = JString s ->
     ok (EvReadFile (resolve h s)) = true
     /\ (forall c, ok (EvWriteFile (resolve h s) c) = true)
     /\ (forall e, ok (EvOutput (LogFailedEnv (resolve h s) e)) = true)) ->
  only ok (rotateOne h single env prof).
Proof.
  intros Hc Hr Hw Hl He. unfold rotateOne, say.
  apply only_bind; [apply createAccessKey_only, Hc|]. intros [id secret].
  apply only_bind; [|intros _; apply only_ret].
  apply only_tryCatch; [|intros e; apply only_emit, Hl].
  apply replaceCrendentials_only; assumption.
Qed.

Lemma rotateEach_only ok single env selected :
  (forall prof, only ok (rotateOne h single env prof)) ->
  forall rotated, only ok (rotateEach h single env selected rotated).
Proof.
  intros H. induction selected as [|p rest IH]; intros rotated;
    cbn [rotateEach]; [apply only_ret|].
  apply only_bind; [apply H|]. intros k. apply IH.
Qed.

Lemma deleteEach_only ok selected :
  (forall k, ok (EvDeleteAccessKey k) = true) -> only ok (deleteEach h selected).
Proof.
  intros H. induction selected as [|p rest IH]; cbn [deleteEach];
    [apply only_ret|].
  apply only_bind; [|intros d; apply only_bind;
                       [apply IH|intros ds; apply only_ret]].
  unfold deleteKey.
  apply only_bind; [apply only_clock|]. intros t.
  apply only_bind; [apply only_emit, H|]. intros _. apply only_ret.
Qed.

Lemma noteEach_only ok rotated :
  (forall k, ok (EvOutput (Note k)) = true) -> only ok (noteEach rotated).
Proof.
  intros H. induction rotated as [|k rest IH]; cbn [noteEach];
    [apply only_ret|].
  apply only_bind; [apply only_emit, H|]. intros _. apply IH.
Qed.

Lemma finish_only ok a selected rotated :
  (forall k, ok (EvDeleteAccessKey k) = true) ->
  (forall n b, ok (EvOutput (SpinnerStop n b)) = true) ->
  (forall k, ok (EvOutput (Note k)) = true) ->
  ok (EvOutput OutroComplete) = true ->
  only ok (finish h a selected rotated).
Proof.
  intros Hd Hs Hn Ho. unfold finish, say.
  apply only_bind; [apply only_emit, Hs|]. intros _.
  apply only_bind; [apply deleteEach_only, Hd|]. intros del.
  apply only_bind; [apply only_await|]. intros _.
  apply only_bind; [|intros _; apply only_emit, Ho].
  destruct (argOutput a); [|apply only_ret].
  apply noteEach_only, Hn.
Qed.

(** *** Deletion comes last *)


Lemma phased_second {A} (m : M A) :
  only (fun e => negb (createsOrWrites e)) m -> phased m.
Proof. intros H w. destruct (H w) as (y & T & O). exists [], y. auto. Qed.

Lemma phased_bind {A B} (m : M A) (k : A -> M B) :
  only (fun e => negb (isDelete e)) m -> (forall a, phased (k a)) ->
  phased (bind m k).
Proof.
  intros Hm Hk w. destruct (Hm w) as (x1 & T1 & O1). unfold bind.
  destruct (m w) as [[a| | |] w1]; cbn [snd] in *;
    try (exists x1, []; rewrite app_nil_r; auto; fail).
  destruct (Hk a w1) as (x & y & T & Ox & Oy). exists (x1 ++ x), y.
  rewrite T, T1, forallb_app, O1, Ox, <- !app_assoc. auto.
Qed.

Lemma rotateEach_noDelete single env selected rotated :
  only (fun e => negb (isDelete e)) (rotateEach h single env selected rotated).
Proof.
  apply rotateEach_only. intros prof. apply rotateOne_only; try reflexivity.
  intros s _. repeat split; reflexivity.
Qed.

Lemma rotate_phased a env selected : phased (rotate h a env selected).
Proof.
  change (rotate h a env selected)
    with (bind (say (SpinnerStart (Nat.ltb 1 (length selected))))
            (fun _ => bind (rotateEach h (Nat.eqb (length selected) 1) env
                              selected [])
                        (finish h a selected))).
  apply phased_bind; [apply only_emit; reflexivity|]. intros _.
  apply phased_bind; [apply rotateEach_noDelete|]. intros rotated.
  apply phased_second, finish_only; reflexivity.
Qed.



End Kinds.


(** ** A rotation of one profile *)

Section Single.

Context (h : host).

Lemma replaceEnvVars_calls path id secret w :
  exists c evs,
    trace (replaceEnvVars h path id secret w).2 = trace w ++ evs
    /\ (evs = [EvReadFile path; EvOutput (LogFailedEnv path (FsError path))]
        \/ evs = [EvReadFile path; EvWriteFile path c;
                  EvOutput (LogFailedEnv path (FsError path))]
        \/ evs = [EvReadFile path; EvWriteFile path c]).
Proof.
  rewrite replaceEnvVars_eq. cbn zeta.
  destruct (fileRead h w path) as [f|].
  - exists (newEnvFile f id secret).
    destruct (writeFault h _ path); eexists; cbn [snd];
      rewrite ?trace_spoil; cbn; rewrite <- !app_assoc;
      (split; [reflexivity|auto]).
  - exists [], [EvReadFile path; EvOutput (LogFailedEnv path (FsError path))].
    cbn. rewrite <- !app_assoc. auto.
Qed.

(** A call of [replaceCrendentials] that returns has read and written the
    credentials file, then done the env part. *)
Lemma replaceCrendentials_returns name id secret env w u w1 :
  replaceCrendentials h name id secret env w = (Ok u, w1) ->
  exists newFile envEvs,
    trace w1
    = trace w ++ [EvReadFile (credentialsPath h);
                  EvWriteFile (credentialsPath h) newFile] ++ envEvs
    /\ envCalls h env envEvs.
Proof.
  rewrite replaceCrendentials_eq. cbn zeta.
  destruct (fileRead h w (credentialsPath h)) as [file|]; [|discriminate].
  destruct (Js.compile (sectionPattern name)) as [re| |]; try discriminate.
  destruct (writeFault h _ (credentialsPath h)); [discriminate|].
  set (newFile := Js.replace re file _). set (w3 := store _ _ _).
  assert (T3 : trace w3 = trace w ++ [EvReadFile (credentialsPath h);
                                       EvWriteFile (credentialsPath h) newFile])
    by (cbn; rewrite <- app_assoc; reflexivity).
  destruct env as [| b | s |];
    try (intros [= <- <-]; exists newFile, []; split; [exact T3|reflexivity]).
  intros E. destruct (replaceEnvVars_calls (resolve h s) id secret w3)
    as (c & evs & T & S).
  rewrite E in T. cbn [snd] in T. exists newFile, evs.
  split; [rewrite T, T3, <- app_assoc; reflexivity|]. exists c. exact S.
Qed.

Lemma existsb_drop_false {A} (f : A -> bool) a b :
  existsb f (a ++ b) = false -> existsb f b = false.
Proof. rewrite existsb_app. intros [_ H]%orb_false_elim. exact H. Qed.

Lemma rotate_single_eq a env p w :
  rotate h a env [p] w
  = match rotateOne h true env p (record w [EvOutput (SpinnerStart false)]) with
    | (Ok k, w2) => finish h a [p] [k] w2
    | (Throw e, w2) => (Throw e, w2)
    | (Exit c, w2) => (Exit c, w2)
    | (OutOfModel, w2) => (OutOfModel, w2)
    end.
Proof.
  rewrite rotate_eq. cbn [length Nat.eqb Nat.ltb Nat.leb rotateEach].
  unfold bind. destruct (rotateOne h true env p _) as [[k|e|c|] w2];
    reflexivity.
Qed.

(** The calls of a rotation of the one profile [p] that completes without
    a failed replacement. *)
Lemma rotate_single a env p w :
  (rotate h a env [p] w).1 = Ok tt ->
  existsb isFailedReplacing (eventsOf (rotate h a env [p]) w) = false ->
  exists k newFile envEvs,
    eventsOf (rotate h a env [p]) w
    = [EvOutput (SpinnerStart false); EvCreateAccessKey;
       EvReadFile (credentialsPath h);
       EvWriteFile (credentialsPath h) newFile]
        ++ envEvs
        ++ [EvOutput (SpinnerStop 1 false);
            EvDeleteAccessKey (accessKeyId p)]
        ++ (if argOutput a then [EvOutput (Note (rotatedOf p k))] else [])
        ++ [EvOutput OutroComplete]
    /\ envCalls h env envEvs.
Proof.
  unfold eventsOf. rewrite rotate_single_eq, rotateOne_eq. cbn zeta.
  set (w0 := record w _).
  destruct (createdAt h (length (trace w0))) as [e|k]; [discriminate|].
  destruct (replaceCrendentials h (name p) (tpl k.1) (tpl k.2) env
              (record w0 [EvCreateAccessKey])) as [[[]|e|c|] w2] eqn:R;
    try discriminate.
  - (* the replacement returned *)
    apply replaceCrendentials_returns in R as (newFile & envEvs & T & S).
    rewrite finish_eq. cbn zeta.
    destruct (all _) as [e|l]; [discriminate|]. intros _ _.
    exists k, newFile, envEvs. split; [|exact S].
    cbn [snd trace record]. rewrite T. subst w0.
    cbn [trace record length Nat.ltb Nat.leb deleteCalls List.map notes].
    rewrite <- !app_assoc. rewrite drop_app_length.
    destruct (argOutput a); reflexivity.
  - (* the replacement threw: the failure is in the log *)
    rewrite finish_eq. cbn zeta.
    destruct (replaceCrendentials_only h (fun _ => true) (name p) (tpl k.1)
                (tpl k.2) env eq_refl (fun _ => eq_refl)
                (fun _ _ => conj eq_refl (conj (fun _ => eq_refl)
                                            (fun _ => eq_refl)))
                (record w0 [EvCreateAccessKey])) as (evs & T & _).
    rewrite R in T. cbn [snd] in T.
    intros _ H. exfalso. revert H.
    match goal with |- existsb _ (drop _ (trace ?r.2)) = false -> _ =>
      assert (E : exists rest,
                 trace r.2
                 = trace w ++ (EvOutput (SpinnerStart false)
                     :: EvCreateAccessKey :: evs)
                     ++ EvOutput (LogFailedReplacing e) :: rest)
    end.
    { destruct (all _); eexists; cbn [snd trace record]; rewrite T; subst w0;
        cbn [trace record]; rewrite <- !app_assoc; cbn [app]; reflexivity. }
    destruct E as [rest ->]. rewrite drop_app_length.
    rewrite existsb_app. cbn. rewrite orb_true_r. discriminate.
Qed.

End Single.


(** C2 (amended): for a name without syntax characters and a readable,
    writable credentials file in which no line starts with [[name]], the
    replacement returns normally and signals nothing; it writes the file
    back with the content it had, so no section is inserted; and it logs
    nothing about the missing section: its calls are the read and that
    write, followed only by the calls of the env part, none at all unless
    an env path was given. *)
Theorem replaceCrendentials_absent_profile h name id secret env w file :
  literalName name = true ->
  firstLineWith (header name) None file = None ->
  fileRead h w (credentialsPath h) = Some file ->
  writeFault h (S (length (trace w))) (credentialsPath h) = false ->
  envAway h env ->
  let r := replaceCrendentials h name id secret env w in
  r.1 = Ok tt
  /\ fs r.2 !! credentialsPath h = Some file
  /\ exists envEvs,
       trace r.2
       = trace w ++ [EvReadFile (credentialsPath h);
                     EvWriteFile (credentialsPath h) file] ++ envEvs
       /\ envCalls h env envEvs.
Proof.
  intros Hn Hf Hr Hw He r.
  destruct (replaceCrendentials_written h name id secret env w file _ Hr
              (compile_sectionPattern _ Hn) Hw) as (R1 & R2 & rest & R3).
  rewrite (replace_none name file _ Hf) in R2, R3.
  split; [exact R1|]. split; [exact (R2 He)|].
  destruct (replaceCrendentials h name id secret env w) as [[[]|e|c|] w1] eqn:E;
    try discriminate.
  destruct (replaceCrendentials_returns h name id secret env w tt w1 E)
    as (newFile & envEvs & T & C).
  exists envEvs. split; [|exact C].
  cbn [snd] in R3. rewrite T in R3. apply app_inv_head in R3.
  cbn [app] in R3. injection R3 as E1 _. subst newFile. exact T.
Qed.

(** C2, on the demo host: the absent profile [staging], without an env
    path (nothing but the read and the write), and with the env path of a
    file that does not exist. *)
Lemma replaceCrendentials_absent_profile_witness :
  (let r := replaceCrendentials Demo.calm (Js.lit "staging") (Js.lit "AKIANEW")
              (Js.lit "SECNEW") (JBool false) (Demo.start Demo.two) in
   r.1 = Ok tt
   /\ fs r.2 !! Demo.home = Some Demo.two
   /\ exists envEvs,
        trace r.2
        = [] ++ [EvReadFile Demo.home; EvWriteFile Demo.home Demo.two]
            ++ envEvs
        /\ envEvs = [])
  /\ (let r := replaceCrendentials Demo.calm (Js.lit "staging")
                 (Js.lit "AKIANEW") (Js.lit "SECNEW")
                 (JString (Js.lit ".env")) (Demo.start Demo.two) in
      r.1 = Ok tt
      /\ fs r.2 !! Demo.home = Some Demo.two
      /\ exists envEvs,
           trace r.2
           = [] ++ [EvReadFile Demo.home; EvWriteFile Demo.home Demo.two]
               ++ envEvs
           /\ envCalls Demo.calm (JString (Js.lit ".env")) envEvs).
Proof.
  split.
  - apply (replaceCrendentials_absent_profile Demo.calm (Js.lit "staging")
             (Js.lit "AKIANEW") (Js.lit "SECNEW") (JBool false)
             (Demo.start Demo.two) Demo.two); reflexivity || exact I.
  - apply (replaceCrendentials_absent_profile Demo.calm (Js.lit "staging")
             (Js.lit "AKIANEW") (Js.lit "SECNEW") (JString (Js.lit ".env"))
             (Demo.start Demo.two) Demo.two);
      try reflexivity. vm_compute. discriminate.
Defined.

(** ** The run as a whole *)

Section Run.

Context (h : host).

Lemma run_rotates a w sel :
  (select h a w).1 = Ok sel ->
  (length sel = 1 \/ length sel = 2)%nat ->
  run h a w = rotate h a (envOf a) sel (select h a w).2.
Proof.
  intros Hs Hl. rewrite run_eq. destruct (select h a w) as [r w1].
  cbn [fst snd] in *. subst r.
  destruct Hl as [-> | ->]; reflexivity.
Qed.

Lemma eventsOf_app {A B} (m : M A) (k : M B) ok ok' w :
  only ok m -> only ok' k ->
  drop (length (trace w)) (trace (k (m w).2).2)
  = eventsOf m w ++ eventsOf k (m w).2.
Proof.
  intros Hm Hk. destruct (Hm w) as (e1 & T1 & _).
  destruct (Hk (m w).2) as (e2 & T2 & _).
  rewrite (eventsOf_trace _ _ _ T1), (eventsOf_trace _ _ _ T2), T2, T1.
  rewrite <- app_assoc. apply drop_app_length.
Qed.

Lemma rotate_extends a env sel : only (fun _ => true) (rotate h a env sel).
Proof.
  intros w. destruct (rotate_phased h a env sel w) as (x & y & T & _).
  exists (x ++ y). split; [exact T|]. apply forallb_forall. reflexivity.
Qed.

Lemma eventsOf_run a w sel :
  (select h a w).1 = Ok sel ->
  (length sel = 1 \/ length sel = 2)%nat ->
  eventsOf (run h a) w
  = eventsOf (select h a) w
      ++ eventsOf (rotate h a (envOf a) sel) (select h a w).2.
Proof.
  intros Hs Hl. unfold eventsOf at 1. rewrite (run_rotates a w sel Hs Hl).
  eapply eventsOf_app; [apply select_quiet|apply rotate_extends].
Qed.

Lemma filter_none {A} (f : A -> bool) l :
  forallb (fun x => negb (f x)) l = true -> List.filter f l = [].
Proof.
  induction l as [|x l IH]; cbn; [reflexivity|].
  intros [Hx Hl]%andb_prop. apply negb_true_iff in Hx. rewrite Hx. auto.
Qed.

Lemma select_events_quiet a w :
  forallb (fun e => negb (mutating e)) (eventsOf (select h a) w) = true.
Proof.
  destruct (select_quiet h a w) as (evs & T & O).
  rewrite (eventsOf_trace _ _ _ T). exact O.
Qed.


End Run.


(** ** Rotating several profiles *)

Section Several.

Context (h : host).

Lemma replaceCrendentials_outcome name id secret env w :
  match (replaceCrendentials h name id secret env w).1 with
  | Ok _ | Throw _ => True
  | Exit _ => False
  | OutOfModel => Js.compile (sectionPattern name) = Js.Unsupported
  end.
Proof.
  rewrite replaceCrendentials_eq. cbn zeta.
  destruct (fileRead h w (credentialsPath h)); [|exact I].
  destruct (Js.compile (sectionPattern name)); try exact I; [|reflexivity].
  destruct (writeFault h _ _); [exact I|].
  destruct env; try exact I. rewrite replaceEnvVars_ok. exact I.
Qed.

Lemma replaceCrendentials_inner name id secret env :
  only inner (replaceCrendentials h name id secret env).
Proof.
  apply replaceCrendentials_only; try reflexivity.
  intros s _. repeat split; reflexivity.
Qed.

Lemma filter_inner f evs :
  (forall e, inner e = true -> f e = false) ->
  forallb inner evs = true -> List.filter f evs = [].
Proof.
  intros Hf H. apply filter_none. rewrite forallb_forall in *.
  intros e He. rewrite (Hf e (H e He)). reflexivity.
Qed.

(** One turn of the loop, when the key is created and the name is in the
    model: it returns the rotated key, whether the replacement returned or
    threw. *)
Lemma rotateOne_completes (single : bool) (env : jsval) p w k :
  createdAt h (length (trace w)) = inr k ->
  Js.compile (sectionPattern (name p)) <> Js.Unsupported ->
  exists w1 evs,
    rotateOne h single env p w = (Ok (rotatedOf p k), w1)
    /\ trace w1 = trace w ++ EvCreateAccessKey :: evs
    /\ forallb inner evs = true.
Proof.
  intros Hk Hc. rewrite rotateOne_eq, Hk. cbn zeta.
  pose proof (replaceCrendentials_outcome (name p) (tpl k.1) (tpl k.2)
                (if single then env else JBool false)
                (record w [EvCreateAccessKey])) as O.
  destruct (replaceCrendentials_inner (name p) (tpl k.1) (tpl k.2)
              (if single then env else JBool false)
              (record w [EvCreateAccessKey])) as (evs & T & I).
  destruct (replaceCrendentials h _ _ _ _ _) as [[[]|e|c|] w2];
    cbn [fst snd] in *; try contradiction.
  - exists w2, evs. rewrite T. cbn. rewrite <- app_assoc. auto.
  - exists (record w2 [EvOutput (LogFailedReplacing e)]),
      (evs ++ [EvOutput (LogFailedReplacing e)]).
    cbn [trace record]. rewrite T. cbn [trace record].
    rewrite <- !app_assoc, forallb_app, I. auto.
Qed.

Lemma rotateEach_completes (single : bool) (env : jsval) sel :
  (forall t, exists k, createdAt h t = inr k) ->
  (forall p, In p sel -> Js.compile (sectionPattern (name p)) <> Js.Unsupported) ->
  forall rotated w,
  exists ks w1 evs,
    rotateEach h single env sel rotated w = (Ok (rotated ++ ks), w1)
    /\ List.map rkName ks = List.map name sel
    /\ trace w1 = trace w ++ evs
    /\ List.filter isCreate evs = repeat EvCreateAccessKey (length sel)
    /\ List.filter isDelete evs = []
    /\ List.filter isNote evs = [].
Proof.
  intros Hc. induction sel as [|p rest IH]; intros Hn rotated w.
  - exists [], w, []. cbn. rewrite !app_nil_r. auto 10.
  - destruct (Hc (length (trace w))) as [k Hk].
    destruct (rotateOne_completes single env p w k Hk (Hn p (or_introl eq_refl)))
      as (w1 & e1 & R & T1 & I1).
    destruct (IH (fun q Hq => Hn q (or_intror Hq)) (rotated ++ [rotatedOf p k]) w1)
      as (ks & w2 & e2 & R2 & N2 & T2 & C2 & D2 & O2).
    exists (rotatedOf p k :: ks), w2, (EvCreateAccessKey :: e1 ++ e2).
    cbn [rotateEach]. rewrite (bind_ok _ _ _ _ _ R), R2, T2, T1.
    rewrite <- !app_assoc. cbn [List.map rkName rotatedOf app length repeat].
    rewrite N2. repeat split.
    + cbn [List.filter isCreate]. rewrite List.filter_app, C2.
      rewrite (filter_inner isCreate e1) by
        (assumption || (intros e; unfold inner; destruct (isCreate e);
                        [discriminate|reflexivity])).
      reflexivity.
    + cbn [List.filter isDelete]. rewrite List.filter_app, D2.
      rewrite (filter_inner isDelete e1) by
        (assumption || (intros e; unfold inner; destruct (isDelete e);
                        [rewrite orb_true_r; discriminate|reflexivity])).
      reflexivity.
    + cbn [List.filter isNote]. rewrite List.filter_app, O2.
      rewrite (filter_inner isNote e1) by
        (assumption || (intros e; unfold inner; destruct (isNote e);
                        [rewrite orb_true_r; discriminate|reflexivity])).
      reflexivity.
Qed.

Lemma filter_deleteCalls sel :
  List.filter isDelete (deleteCalls sel) = deleteCalls sel
  /\ List.filter isCreate (deleteCalls sel) = []
  /\ List.filter isNote (deleteCalls sel) = [].
Proof.
  induction sel as [|p rest (D & C & O)]; cbn; [auto|].
  fold (deleteCalls rest). rewrite D, C, O. auto.
Qed.

Lemma filter_notes rotated :
  List.filter isNote (notes rotated) = notes rotated
  /\ List.filter isCreate (notes rotated) = []
  /\ List.filter isDelete (notes rotated) = [].
Proof.
  induction rotated as [|k rest (O & C & D)]; cbn; [auto|].
  fold (notes rest). rewrite O, C, D. auto.
Qed.

End Several.

Section Returns.

Context (h : host).

(** A loop that returns has created one key per selected profile, and
    deleted none. *)
Lemma rotateEach_returns (single : bool) (env : jsval) sel :
  forall rotated w out w1,
  rotateEach h single env sel rotated w = (Ok out, w1) ->
  exists evs,
    trace w1 = trace w ++ evs
    /\ List.filter isCreate evs = repeat EvCreateAccessKey (length sel)
    /\ forallb (fun e => negb (isDelete e)) evs = true.
Proof.
  induction sel as [|p rest IH]; intros rotated w out w1.
  - intros [= <- <-]. exists []. rewrite app_nil_r. auto.
  - cbn [rotateEach]. unfold bind at 1. rewrite rotateOne_eq. cbn zeta.
    destruct (createdAt h _) as [e|k]; [discriminate|].
    destruct (replaceCrendentials_inner h (name p) (tpl k.1) (tpl k.2)
                (if single then env else JBool false)
                (record w [EvCreateAccessKey])) as (e1 & T1 & I1).
    assert (C1 : List.filter isCreate e1 = []).
    { apply (filter_inner isCreate); [|assumption].
      intros e. unfold inner. destruct (isCreate e);
        [discriminate|reflexivity]. }
    assert (D1 : forallb (fun e => negb (isDelete e)) e1 = true).
    { rewrite forallb_forall in *. intros e He. specialize (I1 e He).
      unfold inner in I1. destruct (isDelete e); [|reflexivity].
      rewrite orb_true_r in I1. discriminate. }
    destruct (replaceCrendentials h _ _ _ _ _) as [[[]|e|c|] w2];
      cbn [snd] in T1; try discriminate; intros R;
      destruct (IH _ _ _ _ R) as (e2 & T2 & C2 & D2).
    + exists (EvCreateAccessKey :: e1 ++ e2).
      rewrite T2, T1. cbn [trace record]. rewrite <- !app_assoc.
      split; [reflexivity|]. cbn [List.filter isCreate forallb isDelete negb].
      rewrite List.filter_app, C1, C2, forallb_app, D1, D2. auto.
    + exists (EvCreateAccessKey :: e1 ++ EvOutput (LogFailedReplacing e) :: e2).
      rewrite T2. cbn [trace record]. rewrite T1. cbn [trace record].
      rewrite <- !app_assoc. split; [reflexivity|].
      cbn [List.filter isCreate forallb isDelete negb].
      rewrite List.filter_app, C1, forallb_app, D1. cbn. rewrite C2, D2. auto.
Qed.


End Returns.

(** C4: when more than two profiles, or none, are selected for rotation,
    the run ends normally after one more line of output (the error
    message, or "Nothing to rotate"), and up to its end no key was
    created, no file was written and no key was deleted. *)
Theorem no_mutation_unless_one_or_two_selected h a w sel :
  (select h a w).1 = Ok sel ->
  (2 < length sel \/ length sel = 0)%nat ->
  (run h a w).1 = Ok tt
  /\ eventsOf (run h a) w
     = eventsOf (select h a) w
         ++ [EvOutput (if Nat.ltb 2 (length sel)
                       then LogTooMany else OutroNothing)]
  /\ forallb (fun e => negb (mutating e)) (eventsOf (run h a) w) = true
  /\ fs (run h a w).2 = fs w.
Proof.
  intros Hs Hl. pose proof (select_events_quiet h a w) as Q.
  pose proof (select_keeps h a w) as K.
  destruct (select_quiet h a w) as (evs & T & _).
  assert (E : run h a w
              = (Ok tt, record (select h a w).2
                          [EvOutput (if Nat.ltb 2 (length sel)
                                     then LogTooMany else OutroNothing)])).
  { rewrite run_eq. destruct (select h a w) as [r w1]. cbn [fst snd] in *.
    subst r. destruct Hl as [Hl | Hl].
    - apply Nat.ltb_lt in Hl. rewrite Hl. reflexivity.
    - rewrite Hl. reflexivity. }
  assert (V : eventsOf (run h a) w
              = eventsOf (select h a) w
                  ++ [EvOutput (if Nat.ltb 2 (length sel)
                                then LogTooMany else OutroNothing)]).
  { unfold eventsOf at 1. rewrite E. cbn [snd trace record].
    rewrite (eventsOf_trace _ _ _ T), T, <- app_assoc.
    apply drop_app_length. }
  rewrite V, E. repeat split; [| exact K].
  rewrite forallb_app, Q. destruct (Nat.ltb 2 (length sel)); reflexivity.
Qed.



(** C4, on the demo host: three profiles picked. *)
Lemma no_mutation_unless_one_or_two_selected_witness :
  (run Demo.calm Demo.pick (Demo.start Demo.three)).1 = Ok tt
  /\ eventsOf (run Demo.calm Demo.pick) (Demo.start Demo.three)
     = eventsOf (select Demo.calm Demo.pick) (Demo.start Demo.three)
         ++ [EvOutput LogTooMany]
  /\ forallb (fun e => negb (mutating e))
       (eventsOf (run Demo.calm Demo.pick) (Demo.start Demo.three)) = true
  /\ fs (run Demo.calm Demo.pick (Demo.start Demo.three)).2
     = fs (Demo.start Demo.three).
Proof.
  apply (no_mutation_unless_one_or_two_selected Demo.calm Demo.pick
           (Demo.start Demo.three)
           [Demo.defaultProfile; Demo.otherProfile "work";
            Demo.otherProfile "spare"]).
  - vm_compute. reflexivity.
  - left. cbn. lia.
Defined.

(** ** The env file *)

Section Env.

Context (h : host).
Implicit Types (ok : event -> bool).

Lemma loadProfiles_only ok profiles :
  (forall p, ok (EvFromIni p) = true) -> only ok (loadProfiles h profiles).
Proof.
  intros H. induction profiles as [|p rest IH]; cbn [loadProfiles];
    [apply only_ret|].
  apply only_bind; [apply only_clock|]. intros t.
  apply only_bind; [apply only_emit, H|]. intros _.
  apply only_bind; [apply IH|]. intros ps. apply only_ret.
Qed.

Lemma getAllProfiles_only ok profiles :
  (forall p, ok (EvFromIni p) = true) -> ok EvListAccessKeys = true ->
  only ok (getAllProfiles h profiles).
Proof.
  intros Hp Hl. unfold getAllProfiles, listAccessKeys.
  apply only_bind; [apply loadProfiles_only, Hp|]. intros p.
  apply only_bind.
  { apply only_bind; [apply only_clock|]. intros t.
    apply only_bind; [apply only_emit, Hl|]. intros _. apply only_ret. }
  intros keys. apply only_bind; [apply only_await|]. intros accessKeys.
  apply only_bind; [apply only_await|]. intros allProfiles. apply only_ret.
Qed.

Lemma select_only ok a :
  ok (EvReadFile (credentialsPath h)) = true ->
  ok (EvOutput ConsoleLog) = true -> ok (EvOutput Intro) = true ->
  (forall e, ok (EvOutput (LogError e)) = true) ->
  ok (EvOutput CancelNoKeys) = true -> ok (EvOutput CancelOperation) = true ->
  (forall p, ok (EvFromIni p) = true) ->
  ok EvListAccessKeys = true ->
  (forall l, ok (EvMultiselect l) = true) ->
  only ok (select h a).
Proof.
  intros Hr Ho1 Ho2 Ho3 Ho4 Ho5 Hp Hl Hm. unfold select, say.
  apply only_bind; [apply only_emit, Ho1|]. intros _.
  apply only_bind; [apply only_emit, Ho2|]. intros _.
  apply only_bind.
  { destruct (argProfiles a); [|apply only_ret].
    apply only_tryCatch.
    - unfold getAllCredentialProfiles.
      apply only_bind; [apply readFile_only, Hr|]. intros f. apply only_ret.
    - intros e. apply only_bind; [apply only_emit, Ho3|]. intros _.
      apply only_exit. }
  intros profiles.
  apply only_bind; [apply getAllProfiles_only; assumption|].
  intros [|p allProfiles].
  { apply only_bind; [apply only_emit, Ho4|]. intros _. apply only_exit. }
  apply only_bind; [|intros sel; apply only_ret].
  destruct (argProfiles a); [|apply only_ret].
  apply only_bind; [apply only_clock|]. intros t.
  apply only_bind; [apply only_emit, Hm|]. intros _.
  destruct (multiselectAnswer h t _); [|apply only_ret].
  apply only_bind; [apply only_emit, Ho5|]. intros _. apply only_exit.
Qed.

Lemma rotate_only ok a env sel :
  ok EvCreateAccessKey = true ->
  ok (EvReadFile (credentialsPath h)) = true ->
  (forall c, ok (EvWriteFile (credentialsPath h) c) = true) ->
  (forall k, ok (EvDeleteAccessKey k) = true) ->
  (forall b, ok (EvOutput (SpinnerStart b)) = true) ->
  (forall e, ok (EvOutput (LogFailedReplacing e)) = true) ->
  (forall p e, ok (EvOutput (LogFailedEnv p e)) = true) ->
  (forall n b, ok (EvOutput (SpinnerStop n b)) = true) ->
  (forall k, ok (EvOutput (Note k)) = true) ->
  ok (EvOutput OutroComplete) = true ->
  (forall s, (if Nat.eqb (length sel) 1 then env else JBool false) = JString s ->
     ok (EvReadFile (resolve h s)) = true
     /\ (forall c, ok (EvWriteFile (resolve h s) c) = true)) ->
  only ok (rotate h a env sel).
Proof.
  intros Hc Hr Hw Hd Ho1 Ho2 Ho3 Ho4 Ho5 Ho6 He.
  change (rotate h a env sel)
    with (bind (say (SpinnerStart (Nat.ltb 1 (length sel))))
            (fun _ => bind (rotateEach h (Nat.eqb (length sel) 1) env sel [])
                        (finish h a sel))).
  apply only_bind; [apply only_emit, Ho1|]. intros _.
  apply only_bind; [|intros rotated; apply finish_only; assumption].
  apply rotateEach_only. intros prof.
  apply rotateOne_only; try assumption.
  intros s Hs. destruct (He s Hs) as [H1 H2]. auto.
Qed.

Lemma onPath_same (path : list N) : negb (negb (bool_decide (path = path))) = true.
Proof. rewrite bool_decide_eq_true_2; reflexivity. Qed.

Lemma existsb_forallb_false {A} (f : A -> bool) l :
  forallb (fun x => negb (f x)) l = true -> existsb f l = false.
Proof.
  induction l as [|x l IH]; cbn; [reflexivity|].
  intros [Hx Hl]%andb_prop. apply negb_true_iff in Hx. rewrite Hx. auto.
Qed.

Lemma only_events {A} ok (m : M A) w :
  only ok m -> forallb ok (eventsOf m w) = true.
Proof.
  intros H. destruct (H w) as (evs & T & O).
  rewrite (eventsOf_trace _ _ _ T). exact O.
Qed.

(** The calls of a run, by the size of the selection. *)
Lemma eventsOf_run_cases a w sel :
  (select h a w).1 = Ok sel ->
  eventsOf (run h a) w
  = eventsOf (select h a) w
      ++ (if Nat.ltb 2 (length sel) then [EvOutput LogTooMany]
          else if Nat.eqb (length sel) 0 then [EvOutput OutroNothing]
          else eventsOf (rotate h a (envOf a) sel) (select h a w).2).
Proof.
  intros Hs. destruct (select_quiet h a w) as (evs & T & _).
  unfold eventsOf at 1. rewrite run_eq.
  destruct (select h a w) as [r w1] eqn:E. cbn [fst snd] in *. subst r.
  rewrite (eventsOf_trace (select h a) w evs) by (rewrite E; exact T).
  destruct (Nat.ltb 2 (length sel)).
  { cbn [snd trace record]. rewrite T, <- app_assoc. apply drop_app_length. }
  destruct (Nat.eqb (length sel) 0).
  { cbn [snd trace record]. rewrite T, <- app_assoc. apply drop_app_length. }
  destruct (rotate_extends h a (envOf a) sel w1) as (e2 & T2 & _).
  rewrite (eventsOf_trace _ _ _ T2), T2, T, <- app_assoc.
  apply drop_app_length.
Qed.

End Env.

(** C5 (as stated, false): a run without the [-e] flag that rotates
    exactly one profile makes no call on a file other than the credentials
    file: no env replacement is attempted. *)
Lemma single_rotation_without_env_flag :
  (select Demo.calm Demo.plain (Demo.start Demo.two)).1
  = Ok [Demo.defaultProfile]
  /\ (run Demo.calm Demo.plain (Demo.start Demo.two)).1 = Ok tt
  /\ existsb (offPath Demo.home)
       (eventsOf (run Demo.calm Demo.plain) (Demo.start Demo.two)) = false.
Proof. vm_compute. auto. Qed.

(** C5 (amended): the run makes a call on a file other than the
    credentials file only if exactly one profile was selected and the env
    option is a string ([-e], with or without a path); and in a run that
    selects one profile with such an option and completes without a failed
    replacement, the read of the env file follows the write of the
    credentials file. *)
Theorem env_replacement_needs_single_profile_and_path h a w sel :
  (select h a w).1 = Ok sel ->
  (length sel <> 1%nat \/ (forall s, envOf a <> JString s) ->
   existsb (offPath (credentialsPath h)) (eventsOf (run h a) w) = false)
  /\ (forall s,
        length sel = 1%nat -> envOf a = JString s ->
        (run h a w).1 = Ok tt ->
        existsb isFailedReplacing (eventsOf (run h a) w) = false ->
        exists before newFile after,
          eventsOf (run h a) w
          = before
              ++ EvWriteFile (credentialsPath h) newFile
              :: EvReadFile (resolve h s) :: after).
Proof.
  intros Hs. split.
  - intros Hno. rewrite (eventsOf_run_cases h a w sel Hs), existsb_app.
    assert (Q : forallb (fun e => negb (offPath (credentialsPath h) e))
                  (eventsOf (select h a) w) = true).
    { apply only_events, select_only; try reflexivity. apply onPath_same. }
    rewrite (existsb_forallb_false _ _ Q).
    destruct (Nat.ltb 2 (length sel)); [reflexivity|].
    destruct (Nat.eqb (length sel) 0); [reflexivity|].
    apply existsb_forallb_false, only_events.
    apply rotate_only; try reflexivity; try (intros; apply onPath_same).
    intros s E. exfalso. destruct Hno as [Hl | He].
    + apply Nat.eqb_neq in Hl. rewrite Hl in E. discriminate.
    + destruct (Nat.eqb (length sel) 1); [exact (He s E)|discriminate].
  - intros s Hl He Hr Hf.
    destruct sel as [|p [|q sel]]; try discriminate.
    rewrite (eventsOf_run h a w [p] Hs (or_introl eq_refl)) in Hf |- *.
    rewrite (run_rotates h a w [p] Hs (or_introl eq_refl)) in Hr.
    apply existsb_drop_false in Hf.
    destruct (rotate_single h a (envOf a) p _ Hr Hf)
      as (k & newFile & envEvs & -> & S).
    rewrite He in S. cbn [envCalls] in S.
    exists (eventsOf (select h a) w
              ++ [EvOutput (SpinnerStart false); EvCreateAccessKey;
                  EvReadFile (credentialsPath h)]), newFile.
    destruct S as (c & [-> | [-> | ->]]); eexists;
      rewrite <- !app_assoc; cbn [app]; reflexivity.
Qed.

(** C5, on the demo host: two profiles picked; one profile with [-e]. *)
Lemma env_replacement_needs_single_profile_and_path_witness :
  (existsb (offPath Demo.home)
     (eventsOf (run Demo.calm Demo.pick) (Demo.start Demo.two)) = false)
  /\ exists before newFile after,
       eventsOf (run Demo.calm Demo.withEnv) (Demo.start Demo.two)
       = before
           ++ EvWriteFile Demo.home newFile
           :: EvReadFile (Js.lit "/work/.env") :: after.
Proof.
  split.
  - apply (proj1 (env_replacement_needs_single_profile_and_path Demo.calm
                    Demo.pick (Demo.start Demo.two)
                    [Demo.defaultProfile; Demo.otherProfile "work"] eq_refl)).
    left. cbn. lia.
  - apply (proj2 (env_replacement_needs_single_profile_and_path Demo.calm
                    Demo.withEnv (Demo.start Demo.two)
                    [Demo.defaultProfile] eq_refl) (Js.lit ".env"));
      vm_compute; reflexivity.
Defined.

(** ** A failing env replacement *)

Section EnvFailure.

Context (h : host).

(** The env part when the env file cannot be read or written: the
    failure is logged, the call returns, every other file is as before. *)
Lemma replaceEnvVars_fails path id secret w :
  fileRead h w path = None
  \/ writeFault h (S (length (trace w))) path = true ->
  exists writes w1,
    replaceEnvVars h path id secret w = (Ok tt, w1)
    /\ trace w1
       = trace w ++ EvReadFile path :: writes
           ++ [EvOutput (LogFailedEnv path (FsError path))]
    /\ (forall p, path <> p -> fs w1 !! p = fs w !! p)
    /\ (writes = [] \/ exists c, writes = [EvWriteFile path c]).
Proof.
  intros H. rewrite replaceEnvVars_eq. cbn zeta.
  rewrite length_record. cbn [length].
  replace (length (trace w) + 1)%nat with (S (length (trace w))) by lia.
  destruct (fileRead h w path) as [f|].
  - destruct H as [H | H]; [discriminate|]. rewrite H.
    exists [EvWriteFile path (newEnvFile f id secret)]. eexists.
    split; [reflexivity|]. rewrite trace_spoil, !record_record.
    split; [reflexivity|]. split; [|eauto].
    intros p Hp. rewrite spoil_other by exact Hp. reflexivity.
  - exists []. eexists. split; [reflexivity|]. rewrite !record_record.
    split; [reflexivity|]. split; [reflexivity|auto].
Qed.

Lemma all_deleteResults sel : forall t,
  (forall u key, deleteResponse h u key = None) ->
  exists l, all (deleteResults h t sel) = inr l.
Proof.
  induction sel as [|p rest IH]; intros t H; cbn [deleteResults all];
    [eauto|].
  rewrite H. destruct (IH (S t) H) as [l ->]. eauto.
Qed.

End EnvFailure.

(** C7: in a run that rotates one profile with the env option set, where
    the key is created and the credentials file is rewritten, an env file
    that cannot be read, or cannot be written, does not stop the run: the
    failure is logged, the credentials file keeps the new content, and the
    deletion of the old key is issued next; when the deletion succeeds the
    run reports and completes. *)
Theorem env_failure_is_not_fatal h a w p s file re :
  (select h a w).1 = Ok [p] ->
  envOf a = JString s ->
  (forall t, exists k, createdAt h t = inr k) ->
  (forall t, readFault h t (credentialsPath h) = false) ->
  (forall t, writeFault h t (credentialsPath h) = false) ->
  fs w !! credentialsPath h = Some file ->
  Js.compile (sectionPattern (name p)) = Js.Compiled re ->
  ((forall t, readFault h t (resolve h s) = true)
   \/ fs w !! resolve h s = None
   \/ (forall t, writeFault h t (resolve h s) = true)) ->
  exists k writes after,
    let newFile :=
      Js.replace re file (newDefaultProfile (name p) (tpl k.1) (tpl k.2)) in
    fs (run h a w).2 !! credentialsPath h = Some newFile
    /\ eventsOf (run h a) w
       = eventsOf (select h a) w
           ++ [EvOutput (SpinnerStart false); EvCreateAccessKey;
               EvReadFile (credentialsPath h);
               EvWriteFile (credentialsPath h) newFile;
               EvReadFile (resolve h s)]
           ++ writes
           ++ [EvOutput (LogFailedEnv (resolve h s) (FsError (resolve h s)));
               EvOutput (SpinnerStop 1 false);
               EvDeleteAccessKey (accessKeyId p)]
           ++ after
    /\ (writes = [] \/ exists c, writes = [EvWriteFile (resolve h s) c])
    /\ ((forall t key, deleteResponse h t key = None) ->
        (run h a w).1 = Ok tt
        /\ after = (if argOutput a then [EvOutput (Note (rotatedOf p k))]
                    else []) ++ [EvOutput OutroComplete]).
Proof.
  intros Hs He Hc Hr Hw Hf Hre Henv.
  rewrite (eventsOf_run h a w [p] Hs (or_introl eq_refl)).
  rewrite (run_rotates h a w [p] Hs (or_introl eq_refl)).
  pose proof (select_keeps h a w) as K.
  set (w1 := (select h a w).2) in *.
  unfold eventsOf at 2. rewrite rotate_single_eq, rotateOne_eq. cbn zeta.
  set (w0 := record w1 _).
  destruct (Hc (length (trace w0))) as [k ->].
  rewrite replaceCrendentials_eq. cbn zeta.
  assert (F : fileRead h (record w0 [EvCreateAccessKey]) (credentialsPath h)
              = Some file).
  { unfold fileRead. rewrite Hr. unfold w0. cbn [fs record]. rewrite K.
    exact Hf. }
  rewrite F, Hre, Hw, He.
  set (newFile := Js.replace re file _).
  set (w3 := store _ _ newFile).
  destruct (replaceEnvVars_fails h (resolve h s) (tpl k.1) (tpl k.2) w3)
    as (writes & w4 & -> & T4 & F4 & Wr).
  { destruct Henv as [H | [H | H]].
    - left. unfold fileRead. rewrite H. reflexivity.
    - left. unfold fileRead. destruct (readFault h _ _); [reflexivity|].
      subst w3 w0. cbn [fs store record]. rewrite lookup_insert_ne, K.
      + exact H.
      + intros E. rewrite <- E, Hf in H. discriminate.
    - right. apply H. }
  assert (Hne : resolve h s <> credentialsPath h).
  { intros E. destruct Henv as [H | [H | H]].
    - specialize (H 0%nat). rewrite E, Hr in H. discriminate.
    - rewrite E, Hf in H. discriminate.
    - specialize (H 0%nat). rewrite E, Hw in H. discriminate. }
  rewrite finish_eq. cbn zeta.
  exists k, writes.
  match goal with |- context [all ?d] => set (dels := all d) end.
  exists (match dels with
          | inl _ => []
          | inr _ => (if argOutput a then [EvOutput (Note (rotatedOf p k))]
                      else []) ++ [EvOutput OutroComplete]
          end).
  cbn zeta. split; [|split; [|split]].
  - assert (F5 : fs w4 !! credentialsPath h = Some newFile).
    { rewrite (F4 _ Hne). subst w3. cbn [fs store]. apply lookup_insert_eq. }
    destruct dels; cbn [snd fs record]; exact F5.
  - f_equal. destruct dels; cbn [snd trace record]; rewrite T4; subst w3 w0;
      cbn [trace store record length Nat.ltb Nat.leb deleteCalls List.map
           notes];
      rewrite <- !app_assoc; rewrite drop_app_length; cbn [app];
      repeat rewrite <- app_assoc; cbn [app]; rewrite ?app_nil_r;
      reflexivity.
  - exact Wr.
  - intros Hd. subst dels.
    match goal with |- context [all (deleteResults h ?t [p])] =>
      destruct (all_deleteResults h [p] t Hd) as [l ->] end.
    split; reflexivity.
Qed.

(** C7, on the demo host, where there is no env file. *)
Lemma env_failure_is_not_fatal_witness :
  exists k writes after,
    let newFile :=
      Js.replace (sectionRe (Js.lit "default")) Demo.two
        (newDefaultProfile (Js.lit "default") (tpl k.1) (tpl k.2)) in
    fs (run Demo.calm Demo.withEnv (Demo.start Demo.two)).2 !! Demo.home
    = Some newFile
    /\ eventsOf (run Demo.calm Demo.withEnv) (Demo.start Demo.two)
       = eventsOf (select Demo.calm Demo.withEnv) (Demo.start Demo.two)
           ++ [EvOutput (SpinnerStart false); EvCreateAccessKey;
               EvReadFile Demo.home;
               EvWriteFile Demo.home newFile;
               EvReadFile (Js.lit "/work/.env")]
           ++ writes
           ++ [EvOutput (LogFailedEnv (Js.lit "/work/.env")
                           (FsError (Js.lit "/work/.env")));
               EvOutput (SpinnerStop 1 false);
               EvDeleteAccessKey (Js.lit "AKIAOLD")]
           ++ after
    /\ (writes = [] \/ exists c, writes = [EvWriteFile (Js.lit "/work/.env") c])
    /\ ((forall t key, deleteResponse Demo.calm t key = None) ->
        (run Demo.calm Demo.withEnv (Demo.start Demo.two)).1 = Ok tt
        /\ after = [EvOutput (Note (rotatedOf Demo.defaultProfile k))]
                     ++ [EvOutput OutroComplete]).
Proof.
  apply (env_failure_is_not_fatal Demo.calm Demo.withEnv
           (Demo.start Demo.two) Demo.defaultProfile (Js.lit ".env")
           Demo.two (sectionRe (Js.lit "default"))); try reflexivity.
  - intros t. eexists. reflexivity.
  - right. left. reflexivity.
Defined.

(** ** A failing replacement in a run on two profiles *)

Section TwoProfiles.

Context (h : host).

(** [replaceCrendentials] starts with the read of the credentials file. *)
Lemma replaceCrendentials_reads name id secret env w :
  exists evs,
    trace (replaceCrendentials h name id secret env w).2
    = trace w ++ EvReadFile (credentialsPath h) :: evs.
Proof.
  rewrite replaceCrendentials_eq. cbn zeta.
  destruct (fileRead h w (credentialsPath h)) as [file|]; [|exists []; reflexivity].
  destruct (Js.compile (sectionPattern name)) as [re| |];
    try (exists []; reflexivity).
  destruct (writeFault h _ (credentialsPath h)).
  { eexists. cbn [snd]. rewrite trace_spoil. cbn [trace record].
    rewrite <- app_assoc. reflexivity. }
  destruct env as [|b|s|];
    try (eexists; cbn [snd trace store record]; rewrite <- app_assoc;
         reflexivity).
  destruct (replaceEnvVars_trace h (resolve h s) id secret
              (store (record (record w [EvReadFile (credentialsPath h)])
                        [EvWriteFile (credentialsPath h)
                           (Js.replace re file
                              (newDefaultProfile name id secret))])
                 (credentialsPath h)
                 (Js.replace re file (newDefaultProfile name id secret))))
    as [rest ->].
  eexists. cbn [trace store record]. rewrite <- !app_assoc. reflexivity.
Qed.

(** One turn of the loop when the key is created: whether the replacement
    returns or throws, the turn returns the key of the profile; a
    replacement that threw has been logged. *)
Lemma rotateOne_logged (single : bool) (env : jsval) p w k :
  createdAt h (length (trace w)) = inr k ->
  let r := replaceCrendentials h (name p) (tpl k.1) (tpl k.2)
             (if single then env else JBool false)
             (record w [EvCreateAccessKey]) in
  r.1 <> OutOfModel ->
  rotateOne h single env p w
  = (Ok (rotatedOf p k), record r.2 (failureLog r.1)).
Proof.
  intros Hk r N. rewrite rotateOne_eq, Hk. cbn zeta.
  pose proof (replaceCrendentials_outcome h (name p) (tpl k.1) (tpl k.2)
                (if single then env else JBool false)
                (record w [EvCreateAccessKey])) as O.
  fold r in O |- *.
  destruct r as [[[]|e|c|] w2]; cbn [fst snd failureLog] in *.
  - rewrite record_nil. reflexivity.
  - reflexivity.
  - contradiction.
  - congruence.
Qed.

End TwoProfiles.

(** C8: a run on two profiles whose keys are created, whatever becomes of
    the two replacements (the one for the first profile may throw, or
    that for the second, or both).  The replacement for the first profile
    is made; if it throws, that is logged; then the key of the second
    profile is created and its replacement is made in full, starting with
    the read of the credentials file, on the file as the first left it:
    when that file can be read and written, the second profile's block is
    replaced in it whether or not the first replacement failed.  After
    the loop the old keys of both profiles are deleted, and when the
    deletions succeed the run completes and, under [-o], reports the new
    keys of both profiles, the one whose replacement failed included. *)
Theorem replacement_failure_does_not_stop_rotation h a w p1 p2 k1 k2 :
  let w0 :=
    record (select h a w).2
      [EvOutput (SpinnerStart true); EvCreateAccessKey] in
  let first :=
    replaceCrendentials h (name p1) (tpl k1.1) (tpl k1.2) (JBool false) w0 in
  let w1 := record first.2 (failureLog first.1 ++ [EvCreateAccessKey]) in
  let second :=
    replaceCrendentials h (name p2) (tpl k2.1) (tpl k2.2) (JBool false) w1 in
  (select h a w).1 = Ok [p1; p2] ->
  createdAt h (length (trace (select h a w).2) + 1) = inr k1 ->
  createdAt h (length (trace first.2) + length (failureLog first.1))
  = inr k2 ->
  first.1 <> OutOfModel -> second.1 <> OutOfModel ->
  exists ev1 ev2 after,
    trace first.2 = trace w0 ++ EvReadFile (credentialsPath h) :: ev1
    /\ trace second.2 = trace w1 ++ EvReadFile (credentialsPath h) :: ev2
    /\ eventsOf (run h a) w
       = eventsOf (select h a) w
           ++ [EvOutput (SpinnerStart true); EvCreateAccessKey]
           ++ (EvReadFile (credentialsPath h) :: ev1) ++ failureLog first.1
           ++ [EvCreateAccessKey]
           ++ (EvReadFile (credentialsPath h) :: ev2) ++ failureLog second.1
           ++ [EvOutput (SpinnerStop 2 true);
               EvDeleteAccessKey (accessKeyId p1);
               EvDeleteAccessKey (accessKeyId p2)]
           ++ after
    /\ fs (run h a w).2 = fs second.2
    /\ (forall file re,
          fileRead h w1 (credentialsPath h) = Some file ->
          Js.compile (sectionPattern (name p2)) = Js.Compiled re ->
          writeFault h (S (length (trace w1))) (credentialsPath h) = false ->
          second.1 = Ok tt
          /\ fs (run h a w).2 !! credentialsPath h
             = Some (Js.replace re file
                       (newDefaultProfile (name p2) (tpl k2.1) (tpl k2.2))))
    /\ ((forall t key, deleteResponse h t key = None) ->
        (run h a w).1 = Ok tt
        /\ after
           = (if argOutput a
              then [EvOutput (Note (rotatedOf p1 k1));
                    EvOutput (Note (rotatedOf p2 k2))]
              else [])
               ++ [EvOutput OutroComplete]).
Proof.
  intros w0 first w1 second Hs Hk1 Hk2 N1 N2.
  destruct (replaceCrendentials_reads h (name p1) (tpl k1.1) (tpl k1.2)
              (JBool false) w0) as [ev1 T1]. fold first in T1.
  destruct (replaceCrendentials_reads h (name p2) (tpl k2.1) (tpl k2.2)
              (JBool false) w1) as [ev2 T2]. fold second in T2.
  set (ws := record (select h a w).2 [EvOutput (SpinnerStart true)]).
  assert (E0 : record ws [EvCreateAccessKey] = w0)
    by (unfold ws, w0; rewrite record_record; reflexivity).
  assert (R1 : rotateOne h false (envOf a) p1 ws
               = (Ok (rotatedOf p1 k1), record first.2 (failureLog first.1))).
  { pose proof (rotateOne_logged h false (envOf a) p1 ws k1) as L.
    cbn zeta in L. rewrite E0 in L. apply L; [|exact N1].
    unfold ws. rewrite length_record. exact Hk1. }
  assert (E1 : record (record first.2 (failureLog first.1))
                 [EvCreateAccessKey] = w1)
    by (unfold w1; rewrite record_record; reflexivity).
  assert (R2 : rotateOne h false (envOf a) p2
                 (record first.2 (failureLog first.1))
               = (Ok (rotatedOf p2 k2),
                  record second.2 (failureLog second.1))).
  { pose proof (rotateOne_logged h false (envOf a) p2
                  (record first.2 (failureLog first.1)) k2) as L.
    cbn zeta in L. rewrite E1 in L. apply L; [|exact N2].
    rewrite length_record. exact Hk2. }
  assert (R : run h a w
              = finish h a [p1; p2] [rotatedOf p1 k1; rotatedOf p2 k2]
                  (record second.2 (failureLog second.1))).
  { assert (RL : rotateEach h false (envOf a) [p1; p2] [] ws
                  = (Ok [rotatedOf p1 k1; rotatedOf p2 k2],
                     record second.2 (failureLog second.1))).
    { cbn [rotateEach]. rewrite (bind_ok _ _ _ _ _ R1).
      rewrite (bind_ok _ _ _ _ _ R2). reflexivity. }
    rewrite (run_rotates h a w [p1; p2] Hs (or_intror eq_refl)), rotate_eq.
    cbn [length Nat.eqb Nat.ltb Nat.leb]. fold ws.
    rewrite (bind_ok _ _ _ _ _ RL). reflexivity. }
  assert (TS : trace (record second.2 (failureLog second.1))
               = trace w ++ eventsOf (select h a) w
                   ++ [EvOutput (SpinnerStart true); EvCreateAccessKey]
                   ++ (EvReadFile (credentialsPath h) :: ev1)
                   ++ failureLog first.1 ++ [EvCreateAccessKey]
                   ++ (EvReadFile (credentialsPath h) :: ev2)
                   ++ failureLog second.1).
  { assert (ST : trace (select h a w).2
                  = trace w ++ eventsOf (select h a) w).
    { destruct (select_quiet h a w) as (evs & T & _).
      rewrite (eventsOf_trace _ _ _ T). exact T. }
    cbn [trace record]. rewrite T2. unfold w1. cbn [trace record].
    rewrite T1. unfold w0. cbn [trace record]. rewrite ST.
    rewrite <- !app_assoc. reflexivity. }
  set (dels := all (deleteResults h
                      (S (length (trace (record second.2
                                           (failureLog second.1)))))
                      [p1; p2])).
  assert (RF : run h a w
               = match dels with
                 | inl e =>
                     (Throw e,
                      record (record second.2 (failureLog second.1))
                        [EvOutput (SpinnerStop 2 true);
                         EvDeleteAccessKey (accessKeyId p1);
                         EvDeleteAccessKey (accessKeyId p2)])
                 | inr _ =>
                     (Ok tt,
                      record
                        (record (record second.2 (failureLog second.1))
                           [EvOutput (SpinnerStop 2 true);
                            EvDeleteAccessKey (accessKeyId p1);
                            EvDeleteAccessKey (accessKeyId p2)])
                        ((if argOutput a
                          then [EvOutput (Note (rotatedOf p1 k1));
                                EvOutput (Note (rotatedOf p2 k2))]
                          else []) ++ [EvOutput OutroComplete]))
                 end).
  { rewrite R, finish_eq. cbn zeta. fold dels.
    destruct dels; [reflexivity|]. destruct (argOutput a); reflexivity. }
  exists ev1, ev2,
    (match dels with
     | inl _ => []
     | inr _ =>
         (if argOutput a
          then [EvOutput (Note (rotatedOf p1 k1));
                EvOutput (Note (rotatedOf p2 k2))]
          else []) ++ [EvOutput OutroComplete]
     end).
  split; [exact T1|]. split; [exact T2|]. split; [|split; [|split]].
  - unfold eventsOf at 1. rewrite RF.
    destruct dels; cbn [snd trace record]; cbn [trace record] in TS;
      rewrite TS, <- !app_assoc, drop_app_length; cbn [app];
      rewrite <- ?app_assoc; cbn [app]; rewrite ?app_nil_r; reflexivity.
  - rewrite RF. destruct dels; reflexivity.
  - intros file re Hf Hc Hw.
    destruct (replaceCrendentials_written h (name p2) (tpl k2.1) (tpl k2.2)
                (JBool false) w1 file re Hf Hc Hw) as (S1 & S2 & _).
    fold second in S1, S2. split; [exact S1|].
    rewrite <- (S2 I), RF. destruct dels; reflexivity.
  - intros Hd. rewrite RF. subst dels.
    match goal with |- context [all (deleteResults h ?t [p1; p2])] =>
      destruct (all_deleteResults h [p1; p2] t Hd) as [l ->] end.
    split; reflexivity.
Qed.

(** C8, on a host where the read of the credentials file fails in the
    first turn of the loop, for the profiles [default] and [work]: the
    replacement for [default] throws and is logged, that for [work] is
    made and its block holds the new key, both old keys are deleted and
    both new keys are reported. *)
Lemma replacement_failure_does_not_stop_rotation_witness :
  let h := Demo.faultyAt 9 in
  let a := Demo.pick in
  let w := Demo.start Demo.two in
  let p1 := Demo.defaultProfile in
  let p2 := Demo.otherProfile "work" in
  let k : option (list N) * option (list N) :=
    (Some (Js.lit "AKIANEW"), Some (Js.lit "SECNEW")) in
  let w0 :=
    record (select h a w).2
      [EvOutput (SpinnerStart true); EvCreateAccessKey] in
  let first :=
    replaceCrendentials h (name p1) (tpl k.1) (tpl k.2) (JBool false) w0 in
  let w1 := record first.2 (failureLog first.1 ++ [EvCreateAccessKey]) in
  let second :=
    replaceCrendentials h (name p2) (tpl k.1) (tpl k.2) (JBool false) w1 in
  first.1 = Throw (FsError Demo.home)
  /\ fs (run h a w).2 !! Demo.home
     = Some (Demo.unlines
               ["[default]"; "aws_access_key_id=AKIAOLD";
                "aws_secret_access_key=SECOLD";
                "[work]"; "aws_access_key_id=AKIANEW";
                "aws_secret_access_key=SECNEW"]%string)
  /\ exists ev1 ev2 after,
       trace first.2 = trace w0 ++ EvReadFile (credentialsPath h) :: ev1
       /\ trace second.2 = trace w1 ++ EvReadFile (credentialsPath h) :: ev2
       /\ eventsOf (run h a) w
          = eventsOf (select h a) w
              ++ [EvOutput (SpinnerStart true); EvCreateAccessKey]
              ++ (EvReadFile (credentialsPath h) :: ev1)
              ++ failureLog first.1
              ++ [EvCreateAccessKey]
              ++ (EvReadFile (credentialsPath h) :: ev2)
              ++ failureLog second.1
              ++ [EvOutput (SpinnerStop 2 true);
                  EvDeleteAccessKey (accessKeyId p1);
                  EvDeleteAccessKey (accessKeyId p2)]
              ++ after
       /\ fs (run h a w).2 = fs second.2
       /\ (forall file re,
             fileRead h w1 (credentialsPath h) = Some file ->
             Js.compile (sectionPattern (name p2)) = Js.Compiled re ->
             writeFault h (S (length (trace w1))) (credentialsPath h)
             = false ->
             second.1 = Ok tt
             /\ fs (run h a w).2 !! credentialsPath h
                = Some (Js.replace re file
                          (newDefaultProfile (name p2) (tpl k.1) (tpl k.2))))
       /\ ((forall t key, deleteResponse h t key = None) ->
           (run h a w).1 = Ok tt
           /\ after
              = (if argOutput a
                 then [EvOutput (Note (rotatedOf p1 k));
                       EvOutput (Note (rotatedOf p2 k))]
                 else [])
                  ++ [EvOutput OutroComplete]).
Proof.
  cbv zeta. split; [vm_compute; reflexivity|].
  split; [vm_compute; reflexivity|].
  apply (replacement_failure_does_not_stop_rotation (Demo.faultyAt 9)
           Demo.pick (Demo.start Demo.two) Demo.defaultProfile
           (Demo.otherProfile "work")
           (Some (Js.lit "AKIANEW"), Some (Js.lit "SECNEW"))
           (Some (Js.lit "AKIANEW"), Some (Js.lit "SECNEW"))).
  - vm_compute. reflexivity.
  - vm_compute. reflexivity.
  - vm_compute. reflexivity.
  - vm_compute. discriminate.
  - vm_compute. discriminate.
Defined.

(** ** Resolving the profiles *)

Section Resolve.

Context (h : host).

Lemma getAllCredentialProfiles_eq w :
  getAllCredentialProfiles h w
  = (match fileRead h w (credentialsPath h) with
     | Some f => Ok (profileNames f)
     | None => Throw (FsError (credentialsPath h))
     end, record w [EvReadFile (credentialsPath h)]).
Proof.
  unfold getAllCredentialProfiles, bind. rewrite readFile_eq.
  destruct (fileRead h w (credentialsPath h)); reflexivity.
Qed.

Lemma loadProfiles_eq profiles : forall w,
  loadProfiles h profiles w
  = (Ok (loadResults h (length (trace w)) profiles),
     record w (List.map EvFromIni profiles)).
Proof.
  induction profiles as [|p rest IH]; intros w.
  - cbn. rewrite record_nil. reflexivity.
  - cbn [loadProfiles loadResults List.map].
    unfold bind at 1, clock. unfold bind at 1, emit. unfold bind at 1.
    rewrite IH, length_record, record_record. cbn [length app ret].
    replace (length (trace w) + 1)%nat with (S (length (trace w))) by lia.
    reflexivity.
Qed.

Lemma getAllProfiles_eq profiles w :
  getAllProfiles h profiles w
  = let w1 := record w (List.map EvFromIni profiles ++ [EvListAccessKeys]) in
    match listResponse h (length (trace w) + length profiles) with
    | inl e => (Throw e, w1)
    | inr accessKeys =>
        match all (loadResults h (length (trace w)) profiles) with
        | inl e => (Throw e, w1)
        | inr allProfiles => (Ok (joinProfiles accessKeys allProfiles), w1)
        end
    end.
Proof.
  unfold getAllProfiles, bind at 1. rewrite loadProfiles_eq.
  unfold bind at 1, listAccessKeys, bind at 1, clock, bind at 1, emit.
  cbn [ret]. rewrite length_record, length_map, record_record. cbn zeta.
  unfold bind. destruct (listResponse h _) as [e|keys]; [reflexivity|].
  cbn [await ret]. destruct (all _) as [e|ps]; reflexivity.
Qed.

(** Lines 127-183, case by case. *)
Lemma select_eq a w :
  select h a w
  = let w0 := record w [EvOutput ConsoleLog; EvOutput Intro] in
    match (if argProfiles a then getAllCredentialProfiles h w0
           else (Ok [Js.lit "default"], w0)) with
    | (Ok profiles, w1) =>
        match getAllProfiles h profiles w1 with
        | (Ok [], w2) => (Exit 0, record w2 [EvOutput CancelNoKeys])
        | (Ok (p :: ps), w2) =>
            let options := List.map name (p :: ps) in
            if argProfiles a then
              match multiselectAnswer h (length (trace w2)) options with
              | Cancelled =>
                  (Exit 0, record w2 [EvMultiselect options;
                                      EvOutput CancelOperation])
              | Chosen values =>
                  (Ok (List.filter (fun prof => includes values (name prof))
                         (p :: ps)),
                   record w2 [EvMultiselect options])
              end
            else
              (Ok (List.filter
                     (fun prof => includes [Js.lit "default"] (name prof))
                     (p :: ps)), w2)
        | (Throw e, w2) => (Throw e, w2)
        | (Exit c, w2) => (Exit c, w2)
        | (OutOfModel, w2) => (OutOfModel, w2)
        end
    | (Throw e, w1) =>
        if argProfiles a then (Exit 1, record w1 [EvOutput (LogError e)])
        else (Throw e, w1)
    | (Exit c, w1) => (Exit c, w1)
    | (OutOfModel, w1) => (OutOfModel, w1)
    end.
Proof.
  unfold select, bind at 1, say, emit. unfold bind at 1.
  rewrite record_record. cbn [app]. cbn zeta.
  set (w0 := record w _). unfold bind at 1.
  destruct (argProfiles a).
  - unfold tryCatch.
    destruct (getAllCredentialProfiles h w0) as [[profiles|e|c|] w1];
      try reflexivity.
    unfold bind at 1.
    destruct (getAllProfiles h profiles w1) as [[[|p ps]|e|c|] w2];
      try reflexivity.
    unfold bind at 1 2, clock, bind at 1, emit. cbn [fst snd].
    destruct (multiselectAnswer h _ _); [|reflexivity].
    unfold bind, exit. rewrite record_record. reflexivity.
  - cbn [ret]. unfold bind at 1.
    destruct (getAllProfiles h _ w0) as [[[|p ps]|e|c|] w2]; reflexivity.
Qed.

End Resolve.

(** ** How a run ends *)

Section Verdict.

Context (h : host).

Lemma existsb_fromIni f profiles :
  (forall p, f (EvFromIni p) = false) ->
  existsb f (List.map EvFromIni profiles) = false.
Proof.
  intros H. induction profiles as [|p rest IH]; cbn; [reflexivity|].
  rewrite H, IH. reflexivity.
Qed.

(** What is read off a trace that grew by [evs]. *)
Lemma drop_record w evs : drop (length (trace w)) (trace (record w evs)) = evs.
Proof. cbn. apply drop_app_length. Qed.

Ltac leaf :=
  cbn [fst snd]; rewrite ?record_record, ?drop_record;
  cbn [app existsb isCancel isClosing orb];
  rewrite ?existsb_app, ?existsb_fromIni by reflexivity;
  cbn [app existsb isCancel isClosing orb].

Ltac settle :=
  repeat split; intros; try discriminate; try reflexivity;
  cbn; rewrite ?orb_true_r; try reflexivity; try discriminate.

(** The selection: it exits with 1 exactly when the enumeration of the
    local profiles failed, with 0 exactly when it printed a cancellation,
    and it prints no closing line. *)
Lemma select_verdict a w :
  let r := (select h a w).1 in
  let evs := eventsOf (select h a) w in
  (r = Exit 1%Z <-> enumerationFails h a w)
  /\ (existsb isCancel evs = true <-> r = Exit 0%Z)
  /\ existsb isClosing evs = false
  /\ r <> OutOfModel.
Proof.
  unfold eventsOf, enumerationFails. rewrite select_eq. cbn zeta.
  set (w0 := record w _).
  assert (G : forall profiles w1 evs1,
             w1 = record w evs1 ->
             existsb isCancel evs1 = false ->
             existsb isClosing evs1 = false ->
             let x :=
               match getAllProfiles h profiles w1 with
               | (Ok [], w2) => (Exit 0%Z, record w2 [EvOutput CancelNoKeys])
               | (Ok (p :: ps), w2) =>
                   let options := List.map name (p :: ps) in
                   if argProfiles a then
                     match multiselectAnswer h (length (trace w2)) options with
                     | Cancelled =>
                         (Exit 0%Z, record w2 [EvMultiselect options;
                                               EvOutput CancelOperation])
                     | Chosen values =>
                         (Ok (List.filter
                                (fun prof => includes values (name prof))
                                (p :: ps)),
                          record w2 [EvMultiselect options])
                     end
                   else
                     (Ok (List.filter
                            (fun prof => includes [Js.lit "default"] (name prof))
                            (p :: ps)), w2)
               | (Throw e, w2) => (Throw e, w2)
               | (Exit c, w2) => (Exit c, w2)
               | (OutOfModel, w2) => (OutOfModel, w2)
               end in
             x.1 <> Exit 1%Z
             /\ (existsb isCancel (drop (length (trace w)) (trace x.2)) = true
                 <-> x.1 = Exit 0%Z)
             /\ existsb isClosing (drop (length (trace w)) (trace x.2)) = false
             /\ x.1 <> OutOfModel).
  { intros profiles w1 evs1 -> C1 C2. rewrite getAllProfiles_eq. cbn zeta.
    destruct (listResponse h _) as [e|keys]; [leaf; rewrite C1, C2; settle|].
    destruct (all _) as [e|ps]; [leaf; rewrite C1, C2; settle|].
    destruct (joinProfiles keys ps) as [|p ps'];
      [leaf; rewrite C1, C2; settle|].
    destruct (argProfiles a); [destruct (multiselectAnswer h _ _)|];
      leaf; rewrite C1, C2; settle. }
  destruct (argProfiles a) eqn:P.
  - rewrite getAllCredentialProfiles_eq.
    destruct (fileRead h w0 (credentialsPath h)) as [f|] eqn:F.
    + destruct (G (profileNames f) (record w0 [EvReadFile (credentialsPath h)])
                  [EvOutput ConsoleLog; EvOutput Intro;
                   EvReadFile (credentialsPath h)])
        as (G1 & G2 & G3 & G4);
        [unfold w0; rewrite record_record; reflexivity|reflexivity..|].
      split; [|auto]. split; [intros E; contradiction|].
      intros [_ E]. discriminate.
    + unfold w0. leaf. settle; auto.
  - destruct (G [Js.lit "default"] w0 [EvOutput ConsoleLog; EvOutput Intro])
      as (G1 & G2 & G3 & G4); try reflexivity.
    split; [|auto]. split; [intros E; contradiction|].
    intros [E _]. discriminate.
Qed.

Lemma rotateEach_outcome (single : bool) env sel : forall rotated w c,
  (rotateEach h single env sel rotated w).1 <> Exit c.
Proof.
  induction sel as [|p rest IH]; intros rotated w c; [discriminate|].
  cbn [rotateEach]. unfold bind. rewrite rotateOne_eq. cbn zeta.
  destruct (createdAt h _) as [e|k]; [discriminate|].
  pose proof (replaceCrendentials_outcome h (name p) (tpl k.1) (tpl k.2)
                (if single then env else JBool false)
                (record w [EvCreateAccessKey])) as O.
  destruct (replaceCrendentials h _ _ _ _ _) as [[[]|e|c'|] w2];
    cbn [fst] in O; try contradiction; try discriminate; apply IH.
Qed.

Lemma rotateEach_notClosing (single : bool) env sel rotated :
  only (fun e => negb (isClosing e || isCancel e))
    (rotateEach h single env sel rotated).
Proof.
  apply rotateEach_only. intros prof. apply rotateOne_only; try reflexivity.
  intros s _. repeat split; reflexivity.
Qed.

(** A rotation never exits, prints no cancellation, and prints its
    closing line only when it returns. *)
Lemma rotate_verdict a env sel w :
  let r := (rotate h a env sel w).1 in
  let evs := eventsOf (rotate h a env sel) w in
  (forall c, r <> Exit c)
  /\ existsb isCancel evs = false
  /\ (existsb isClosing evs = true -> r = Ok tt).
Proof.
  unfold eventsOf. rewrite rotate_eq. set (w0 := record w _). unfold bind.
  pose proof (rotateEach_outcome (Nat.eqb (length sel) 1) env sel [] w0) as O.
  destruct (rotateEach_notClosing (Nat.eqb (length sel) 1) env sel [] w0)
    as (evs & T & Q).
  assert (QC : existsb isCancel evs = false /\ existsb isClosing evs = false).
  { split; apply existsb_forallb_false; rewrite forallb_forall in *;
      intros e He; specialize (Q e He); apply negb_true_iff in Q;
      apply orb_false_elim in Q as [Q1 Q2]; rewrite ?Q1, ?Q2; reflexivity. }
  destruct QC as [QC QL].
  assert (DC : existsb isCancel (deleteCalls sel) = false
               /\ existsb isClosing (deleteCalls sel) = false).
  { clear. induction sel as [|p rest [I1 I2]]; cbn; auto. }
  assert (NC : forall ks, existsb isCancel (notes ks) = false).
  { clear. induction ks as [|k rest I]; cbn; auto. }
  destruct DC as [DC DL].
  destruct (rotateEach h _ env sel [] w0) as [[ks|e|c|] w2];
    cbn [fst snd] in *.
  - rewrite finish_eq. cbn zeta. destruct (all _) as [e|l]; cbn [fst snd].
    + repeat split; try discriminate; cbn [trace record]; rewrite T;
        unfold w0; cbn [trace record]; rewrite <- !app_assoc;
        rewrite drop_app_length; cbn [app existsb isCancel isClosing orb];
        rewrite existsb_app; cbn [existsb isCancel isClosing orb];
        rewrite ?QC, ?QL, ?DC, ?DL; [reflexivity|discriminate].
    + repeat split; try discriminate. cbn [trace record]. rewrite T.
      unfold w0. cbn [trace record]. rewrite <- !app_assoc.
      rewrite drop_app_length. cbn [app existsb isCancel orb].
      rewrite !existsb_app. cbn [existsb isCancel orb].
      rewrite !existsb_app, QC, DC.
      destruct (argOutput a); rewrite ?NC; reflexivity.
  - repeat split; try discriminate; rewrite T; unfold w0; cbn [trace record];
      rewrite <- !app_assoc; rewrite drop_app_length;
      cbn [app existsb isCancel isClosing orb]; rewrite ?QC, ?QL;
      [reflexivity|discriminate].
  - exfalso. exact (O c eq_refl).
  - repeat split; try discriminate; rewrite T; unfold w0; cbn [trace record];
      rewrite <- !app_assoc; rewrite drop_app_length;
      cbn [app existsb isCancel isClosing orb]; rewrite ?QC, ?QL;
      [reflexivity|discriminate].
Qed.

(** The run: as the selection, with the closing lines. *)
Lemma run_verdict a w :
  let r := (run h a w).1 in
  let evs := eventsOf (run h a) w in
  (r = Exit 1%Z <-> enumerationFails h a w)
  /\ (existsb isCancel evs = true -> r = Exit 0%Z)
  /\ (existsb isClosing evs = true -> r = Ok tt).
Proof.
  destruct (select_verdict a w) as (S1 & S2 & S3 & S4). cbn zeta in *.
  destruct ((select h a w).1) as [sel|e|c|] eqn:Hs.
  - rewrite (eventsOf_run_cases h a w sel Hs), !existsb_app, S3.
    assert (NC : existsb isCancel (eventsOf (select h a) w) = false).
    { destruct (existsb isCancel _); [|reflexivity].
      destruct S2 as [S2 _]. discriminate (S2 eq_refl). }
    rewrite NC, run_eq. destruct (select h a w) as [r1 w1].
    cbn [fst snd] in *. subst r1.
    destruct (Nat.ltb 2 (length sel)).
    { repeat split; try discriminate; try reflexivity.
      intros E. apply S1 in E. discriminate. }
    destruct (Nat.eqb (length sel) 0).
    { repeat split; try discriminate; try reflexivity.
      intros E. apply S1 in E. discriminate. }
    destruct (rotate_verdict a (envOf a) sel w1) as (R1 & R2 & R3).
    cbn zeta in *. rewrite R2. cbn [orb].
    split; [split|split; [discriminate|exact R3]].
    + intros E. exfalso. exact (R1 _ E).
    + intros E. apply S1 in E. discriminate.
  - assert (E : run h a w = (Throw e, (select h a w).2)).
    { rewrite run_eq. destruct (select h a w) as [r1 w1]. cbn in *.
      subst r1. reflexivity. }
    unfold eventsOf. rewrite E. cbn [fst snd].
    fold (eventsOf (select h a) w). rewrite S3.
    repeat split; try discriminate.
    + intros F. apply S1 in F. discriminate.
    + intros F. apply S2 in F. discriminate.
  - assert (E : run h a w = (Exit c, (select h a w).2)).
    { rewrite run_eq. destruct (select h a w) as [r1 w1]. cbn in *.
      subst r1. reflexivity. }
    unfold eventsOf. rewrite E. cbn [fst snd].
    fold (eventsOf (select h a) w). rewrite S3.
    split; [|split; [|discriminate]].
    + split; intros X.
      * apply S1. injection X as ->. reflexivity.
      * apply S1 in X. injection X as ->. reflexivity.
    + intros X. apply S2 in X. injection X as ->. reflexivity.
  - contradiction.
Qed.

End Verdict.

(** The join of lines 115-123. *)
Lemma loadResults_names h profiles : forall t loaded,
  all (loadResults h t profiles) = inr loaded ->
  List.map name loaded = profiles
  /\ Forall (fun local => createDate local = None) loaded.
Proof.
  induction profiles as [|p rest IH]; intros t loaded; cbn [loadResults all].
  - intros [= <-]. auto.
  - destruct (providerResponse h t p) as [e|c]; [discriminate|].
    destruct (all (loadResults h (S t) rest)) as [e|l] eqn:A; [discriminate|].
    intros [= <-]. destruct (IH _ _ A) as [N F]. cbn. rewrite N. auto.
Qed.

Lemma joinProfiles_In accessKeys loaded prof :
  In prof (joinProfiles accessKeys loaded) ->
  exists local keys key d,
    In local loaded
    /\ name prof = name local /\ accessKeyId prof = accessKeyId local
    /\ accessKeys = Some keys /\ In key keys
    /\ kmAccessKeyId key = Some (accessKeyId prof)
    /\ kmCreateDate key = Some d /\ createDate prof = Some d
    /\ List.find (sameKeyId local) keys = Some key.
Proof.
  unfold joinProfiles. rewrite filter_In, in_map_iff.
  intros [(local & <- & Hl) Hd]. unfold hasCreateDate in Hd.
  cbn [createDate withCreateDate name accessKeyId] in *.
  unfold foundKey in *. destruct accessKeys as [keys|]; [|discriminate].
  destruct (List.find (sameKeyId local) keys) as [key|] eqn:F; [|discriminate].
  destruct (kmCreateDate key) as [d|] eqn:D; [|discriminate].
  destruct (find_some _ _ F) as [Hk Hs].
  unfold sameKeyId in Hs. destruct (kmAccessKeyId key) as [k|] eqn:K;
    [|discriminate].
  apply bool_decide_eq_true_1 in Hs. subst k.
  exists local, keys, key, d. repeat split; auto.
Qed.



(** ** The constants of the model *)

Section Constants.

(** The regular-expression literals of the program compile to the terms
    the model uses for them. *)
Example compile_default :
  Js.compile (sectionPattern (Js.lit "default"))
  = Js.Compiled (sectionRe (Js.lit "default")).
Proof. reflexivity. Qed.

Example compile_reEnvAccessKeyId :
  Js.compile (Js.lit "^AWS_ACCESS_KEY_ID=.*$") = Js.Compiled reEnvAccessKeyId.
Proof. reflexivity. Qed.

Example compile_reEnvSecretAccessKey :
  Js.compile (Js.lit "^AWS_SECRET_ACCESS_KEY=.*$")
  = Js.Compiled reEnvSecretAccessKey.
Proof. reflexivity. Qed.

Example compile_reHeader :
  Js.compile (Js.lit "^\[.*\]$") = Js.Compiled reHeader.
Proof. reflexivity. Qed.

(** A pattern with a syntax error, and one outside the fragment. *)
Example compile_star : Js.compile (sectionPattern (Js.lit "*")) = Js.Compiled
  ([Js.TBol; Js.TAtom (Js.AChar 91) Js.QStar; Js.TAtom (Js.AChar 93) Js.QOne]
     ++ blockRe).
Proof. reflexivity. Qed.

Example compile_double_star :
  Js.compile (sectionPattern (Js.lit "a**")) = Js.SyntaxError.
Proof. reflexivity. Qed.

Example compile_group :
  Js.compile (sectionPattern (Js.lit "(a)")) = Js.Unsupported.
Proof. reflexivity. Qed.

(** The spec's example: rotating [default]. *)
Example replace_default :
  Js.replace (sectionRe (Js.lit "default"))
    (Js.lit "[default]" ++ [10] ++ Js.lit "aws_access_key_id=AKIAOLD" ++ [10]
       ++ Js.lit "aws_secret_access_key=SECOLD")
    (newDefaultProfile (Js.lit "default") (Js.lit "AKIANEW") (Js.lit "SECNEW"))
  = Js.lit "[default]" ++ [10] ++ Js.lit "aws_access_key_id=AKIANEW" ++ [10]
      ++ Js.lit "aws_secret_access_key=SECNEW".
Proof. vm_compute. reflexivity. Qed.

(** A dollar pattern in the new secret is expanded by [replace]. *)
Example replace_dollar :
  Js.replace (sectionRe (Js.lit "default"))
    (Js.lit "[default]" ++ [10] ++ Js.lit "aws_access_key_id=AKIAOLD" ++ [10]
       ++ Js.lit "aws_secret_access_key=SECOLD")
    (newDefaultProfile (Js.lit "default") (Js.lit "AKIANEW") (Js.lit "a$$b"))
  = Js.lit "[default]" ++ [10] ++ Js.lit "aws_access_key_id=AKIANEW" ++ [10]
      ++ Js.lit "aws_secret_access_key=a$b".
Proof. vm_compute. reflexivity. Qed.

(** A name with a [+]: the pattern of [a+b] does not match the header
    [[a+b]], so the file is written back as it was. *)
Example replace_plus_name :
  Js.compile (sectionPattern (Js.lit "a+b"))
  = Js.Compiled
      ([Js.TBol; Js.TAtom (Js.AChar 91) Js.QOne; Js.TAtom (Js.AChar 97) Js.QPlus;
        Js.TAtom (Js.AChar 98) Js.QOne; Js.TAtom (Js.AChar 93) Js.QOne]
         ++ blockRe)
  /\ fs (replaceCrendentials Demo.calm (Js.lit "a+b") (Js.lit "AKIANEW")
           (Js.lit "SECNEW") (JBool false)
           (Demo.start (Demo.unlines ["[a+b]"; "aws_access_key_id=AKIAOLD";
                                      "aws_secret_access_key=SECOLD"]%string))).2
       !! Demo.home
     = Some (Demo.unlines ["[a+b]"; "aws_access_key_id=AKIAOLD";
                           "aws_secret_access_key=SECOLD"]%string).
Proof. split; vm_compute; reflexivity. Qed.

Example profileNames_two :
  profileNames Demo.two = [Js.lit "default"; Js.lit "work"].
Proof. vm_compute. reflexivity. Qed.

End Constants.

(** The bound on the number of searches in [matchAll] is never reached:
    more fuel gives the same matches. *)
Lemma matchAll_fuel re : forall n m s prev,
  (length s < n)%nat -> (length s < m)%nat ->
  matchAll n re prev s = matchAll m re prev s.
Proof.
  induction n as [|n IH]; intros m s prev Hn Hm; [lia|].
  destruct m as [|m]; [lia|]. cbn [matchAll].
  destruct (Js.search re prev s) as [[[pre mt] post]|] eqn:E; [|reflexivity].
  apply search_found in E as [-> _]. rewrite !length_app in Hn, Hm.
  destruct mt as [|c mt].
  - destruct post as [|d post]; [reflexivity|]. f_equal.
    cbn [length] in *. apply IH; lia.
  - f_equal. cbn [length] in *. apply IH; lia.
Qed.

(** ** Patterns that match whole lines *)

Section Lines.

Variable re : list Js.term.
Variable P : list N -> bool.

Hypothesis anchored : forall prev s,
  Js.atBol prev = false -> Js.matchTerms re prev s = None.

Hypothesis whole_line : forall l prev rest,
  noLineTerminator l = true -> Js.atBol prev = true -> Js.atEol rest = true ->
  Js.matchTerms re prev (l ++ rest) = if P l then Some (l, rest) else None.

Hypothesis not_empty : P [] = false.

Lemma search_here prev s m rest :
  Js.matchTerms re prev s = Some (m, rest) ->
  Js.search re prev s = Some ([], m, rest).
Proof. intros H. destruct s; cbn [Js.search]; rewrite H; reflexivity. Qed.

Lemma search_last l : forall prev,
  noLineTerminator l = true ->
  Js.matchTerms re prev l = None -> Js.search re prev l = None.
Proof.
  induction l as [|c l IH]; intros prev Hl Hm; cbn [Js.search]; rewrite Hm;
    [reflexivity|].
  cbn [noLineTerminator forallb] in Hl. apply andb_prop in Hl as [Hc Hl].
  rewrite (IH (Some c) Hl); [reflexivity|].
  apply anchored. cbn. apply negb_true_iff. exact Hc.
Qed.

Lemma search_skip_line l : forall prev rest,
  noLineTerminator l = true ->
  Js.matchTerms re prev (l ++ 10 :: rest) = None ->
  Js.search re prev (l ++ 10 :: rest)
  = match Js.search re (Some 10) rest with
    | Some (pre, m, post) => Some (l ++ 10 :: pre, m, post)
    | None => None
    end.
Proof.
  induction l as [|c l IH]; intros prev rest Hl Hm.
  - cbn [app Js.search] in *. rewrite Hm.
    destruct (Js.search re (Some 10) rest) as [[[pre m] post]|]; reflexivity.
  - cbn [noLineTerminator forallb] in Hl. apply andb_prop in Hl as [Hc Hl].
    cbn [app Js.search] in *. rewrite Hm, (IH (Some c) rest Hl).
    + destruct (Js.search re (Some 10) rest) as [[[pre m] post]|]; reflexivity.
    + apply anchored. cbn. apply negb_true_iff. exact Hc.
Qed.

Lemma joinLines_cons l rest : joinLines (l :: rest) = l ++ tailText rest.
Proof. destruct rest; cbn; [rewrite app_nil_r|]; reflexivity. Qed.

Lemma atEol_tailText rest : Js.atEol (tailText rest) = true.
Proof. destruct rest; reflexivity. Qed.

(** [exec] on a text finds the first line that satisfies [P]. *)
Lemma search_joinLines ls : forall prev,
  Js.atBol prev = true -> noLineTerminators ls = true ->
  Js.search re prev (joinLines ls) = searchLines P ls.
Proof.
  induction ls as [|l rest IH]; intros prev Hb Hls.
  - cbn. pose proof (whole_line [] prev [] eq_refl Hb eq_refl) as H.
    rewrite not_empty in H. cbn in H. rewrite H. reflexivity.
  - cbn [noLineTerminators forallb] in Hls. apply andb_prop in Hls as [Hl Hr].
    rewrite joinLines_cons. cbn [searchLines].
    pose proof (whole_line l prev (tailText rest) Hl Hb (atEol_tailText rest))
      as H.
    destruct (P l).
    + apply search_here. exact H.
    + destruct rest as [|l2 rest].
      * cbn [tailText searchLines] in *. rewrite app_nil_r in *.
        apply search_last; assumption.
      * change (tailText (l2 :: rest)) with (10 :: joinLines (l2 :: rest)) in *.
        rewrite (search_skip_line l prev _ Hl H), (IH (Some 10) eq_refl Hr).
        reflexivity.
Qed.

Lemma tailText_replaceFirst new l rest :
  tailText (replaceFirst P new (l :: rest))
  = 10 :: joinLines (replaceFirst P new (l :: rest)).
Proof. cbn [replaceFirst]. destruct (P l); reflexivity. Qed.

Lemma replaceFirst_searchLines new ls :
  match searchLines P ls with
  | Some (pre, m, post) => pre ++ new ++ post
  | None => joinLines ls
  end = joinLines (replaceFirst P new ls).
Proof.
  induction ls as [|l rest IH]; [reflexivity|]. cbn [searchLines replaceFirst].
  destruct (P l).
  - rewrite joinLines_cons. reflexivity.
  - rewrite !joinLines_cons. destruct rest as [|l2 rest]; [reflexivity|].
    rewrite tailText_replaceFirst, <- IH.
    change (tailText (l2 :: rest)) with (10 :: joinLines (l2 :: rest)).
    destruct (searchLines P (l2 :: rest)) as [[[pre m] post]|];
      [rewrite <- app_assoc|]; reflexivity.
Qed.

(** [replace] on a text replaces the first line that satisfies [P]. *)
Lemma replace_joinLines ls new :
  noLineTerminators ls = true -> noDollar new = true ->
  Js.replace re (joinLines ls) new = joinLines (replaceFirst P new ls).
Proof.
  intros Hls Hn. unfold Js.replace, Js.exec.
  rewrite (search_joinLines ls None eq_refl Hls).
  rewrite <- (replaceFirst_searchLines new ls).
  destruct (searchLines P ls) as [[[pre m] post]|]; [|reflexivity].
  rewrite getSubstitution_noDollar by assumption. reflexivity.
Qed.

Lemma matchAll_closed n c :
  Js.isLineTerminator c = false -> matchAll n re (Some c) [] = [].
Proof.
  intros Hc. destruct n as [|n]; [reflexivity|]. cbn [matchAll Js.search].
  rewrite anchored by exact Hc. reflexivity.
Qed.

Lemma matchAll_next_line n c s :
  Js.isLineTerminator c = false ->
  matchAll n re (Some c) (10 :: s) = matchAll n re (Some 10) s.
Proof.
  intros Hc. destruct n as [|n]; [reflexivity|]. cbn [matchAll Js.search].
  rewrite anchored by exact Hc.
  destruct (Js.search re (Some 10) s) as [[[pre m] post]|]; reflexivity.
Qed.

Lemma matchAll_skip_line n l prev s :
  noLineTerminator l = true ->
  Js.matchTerms re prev (l ++ 10 :: s) = None ->
  matchAll n re prev (l ++ 10 :: s) = matchAll n re (Some 10) s.
Proof.
  intros Hl Hm. destruct n as [|n]; [reflexivity|]. cbn [matchAll].
  rewrite (search_skip_line l prev s Hl Hm).
  destruct (Js.search re (Some 10) s) as [[[pre m] post]|]; reflexivity.
Qed.

Lemma last_noLineTerminator l : forall c,
  Js.isLineTerminator c = false -> noLineTerminator l = true ->
  Js.isLineTerminator (List.last l c) = false.
Proof.
  induction l as [|d l IH]; intros c Hc Hl; [exact Hc|].
  cbn [noLineTerminator forallb] in Hl. apply andb_prop in Hl as [Hd Hl].
  apply negb_true_iff in Hd. destruct l as [|e l]; [exact Hd|].
  change (List.last (d :: e :: l) c) with (List.last (e :: l) c).
  apply IH; assumption.
Qed.

(** [match] with the flag [g] on a text gives the lines that satisfy
    [P], in order. *)
Lemma matchAll_joinLines ls : forall n prev,
  Js.atBol prev = true -> noLineTerminators ls = true ->
  (length (joinLines ls) < n)%nat ->
  matchAll n re prev (joinLines ls) = List.filter P ls.
Proof.
  induction ls as [|l rest IH]; intros n prev Hb Hls Hn.
  - destruct n as [|n]; [cbn in Hn; lia|]. cbn [matchAll joinLines].
    change (@nil N) with (joinLines []) at 1.
    rewrite (search_joinLines [] prev Hb eq_refl). reflexivity.
  - cbn [noLineTerminators forallb] in Hls. apply andb_prop in Hls as [Hl Hr].
    rewrite joinLines_cons in *. cbn [List.filter].
    pose proof (whole_line l prev (tailText rest) Hl Hb (atEol_tailText rest))
      as H.
    destruct (P l) eqn:EP.
    + destruct n as [|n]; [lia|]. cbn [matchAll].
      rewrite (search_here _ _ _ _ H).
      destruct l as [|c l]; [congruence|]. f_equal.
      cbn [noLineTerminator forallb] in Hl. apply andb_prop in Hl as [Hc Hl].
      apply negb_true_iff in Hc.
      pose proof (last_noLineTerminator l c Hc Hl) as Hlast.
      destruct rest as [|l2 rest].
      * cbn [tailText List.filter]. apply matchAll_closed. exact Hlast.
      * change (tailText (l2 :: rest)) with (10 :: joinLines (l2 :: rest)) in *.
        rewrite matchAll_next_line by exact Hlast.
        apply IH; [reflexivity|exact Hr|].
        rewrite length_app in Hn. cbn [length] in Hn. lia.
    + destruct rest as [|l2 rest].
      * cbn [tailText List.filter] in *. rewrite app_nil_r in *.
        destruct n as [|n]; [lia|]. cbn [matchAll].
        rewrite (search_last l prev Hl H). reflexivity.
      * change (tailText (l2 :: rest)) with (10 :: joinLines (l2 :: rest)) in *.
        rewrite (matchAll_skip_line n l prev _ Hl H).
        apply IH; [reflexivity|exact Hr|].
        rewrite length_app in Hn. cbn [length] in Hn. lia.
Qed.

End Lines.

(** ** The three line patterns of the program *)

Lemma negb_lineTerminator_any c :
  negb (Js.isLineTerminator c) = Js.atomMatches Js.AAny c.
Proof. reflexivity. Qed.

Lemma matchTerms_anchored re prev s :
  Js.atBol prev = false -> Js.matchTerms (Js.TBol :: re) prev s = None.
Proof. intros H. cbn [Js.matchTerms]. rewrite H. reflexivity. Qed.

Lemma matchTerms_lineRe_body key rest : forall l prev,
  noLineTerminator key = true -> noLineTerminator l = true ->
  Js.atEol rest = true ->
  Js.matchTerms (lits key ++ [Js.TAtom Js.AAny Js.QStar; Js.TEol]) prev
    (l ++ rest)
  = if startsWith key l then Some (l, rest) else None.
Proof.
  induction key as [|c key IH]; intros l prev Hk Hl Hr.
  - cbn [lits List.map app startsWith Js.matchTerms].
    rewrite (greedy_run Js.AAny _ l prev rest [] rest).
    + rewrite app_nil_r. reflexivity.
    + exact Hl.
    + apply atEol_any. exact Hr.
    + cbn [Js.matchTerms]. rewrite Hr. reflexivity.
  - cbn [noLineTerminator forallb] in Hk. apply andb_prop in Hk as [Hc Hk].
    apply negb_true_iff in Hc.
    cbn [lits List.map app Js.matchTerms]. fold (lits key).
    destruct l as [|d l].
    + cbn [app startsWith]. destruct rest as [|e rest]; [reflexivity|].
      cbn [Js.atomMatches]. cbn [Js.atEol] in Hr.
      destruct (N.eqb_spec e c) as [->|_]; [congruence|reflexivity].
    + cbn [noLineTerminator forallb] in Hl. apply andb_prop in Hl as [_ Hl].
      cbn [app startsWith Js.atomMatches].
      destruct (d =? c); [|reflexivity]. cbn [andb].
      rewrite (IH l (Some d) Hk Hl Hr).
      destruct (startsWith key l); reflexivity.
Qed.

Lemma lineRe_whole_line key l prev rest :
  noLineTerminator key = true ->
  noLineTerminator l = true -> Js.atBol prev = true -> Js.atEol rest = true ->
  Js.matchTerms (lineRe key) prev (l ++ rest)
  = if startsWith key l then Some (l, rest) else None.
Proof.
  intros Hk Hl Hb Hr. unfold lineRe. cbn [Js.matchTerms]. rewrite Hb.
  apply matchTerms_lineRe_body; assumption.
Qed.

(** After the opening bracket: [.*\]$] takes the rest of the line when it
    ends with a bracket. *)
Lemma greedy_header rest : forall t prev,
  noLineTerminator t = true -> Js.atEol rest = true ->
  Js.greedy Js.AAny
    (Js.matchTerms [Js.TAtom (Js.AChar 93) Js.QOne; Js.TEol]) prev (t ++ rest)
  = if endsWith 93 t then Some (t, rest) else None.
Proof.
  induction t as [|c t IH]; intros prev Ht Hr.
  - cbn [app endsWith]. destruct rest as [|e rest]; [reflexivity|].
    cbn [Js.atEol] in Hr. cbn [Js.greedy Js.atomMatches]. rewrite Hr.
    cbn [negb Js.matchTerms Js.atomMatches].
    destruct (N.eqb_spec e 93) as [->|_]; [discriminate|reflexivity].
  - cbn [noLineTerminator forallb] in Ht. apply andb_prop in Ht as [Hc Ht].
    cbn [app Js.greedy Js.atomMatches]. rewrite Hc, (IH (Some c) Ht Hr).
    cbn [endsWith]. destruct t as [|d t].
    + cbn [endsWith app Js.consumed Js.matchTerms Js.atomMatches].
      destruct (c =? 93); [|reflexivity]. rewrite Hr. reflexivity.
    + destruct (endsWith 93 (d :: t)); [reflexivity|].
      cbn [Js.consumed app Js.matchTerms Js.atomMatches].
      destruct (c =? 93); [|reflexivity].
      cbn [Js.atEol]. cbn [noLineTerminator forallb] in Ht.
      apply andb_prop in Ht as [Hd _]. apply negb_true_iff in Hd.
      rewrite Hd. reflexivity.
Qed.

Lemma matchTerms_bol re prev s :
  Js.matchTerms (Js.TBol :: re) prev s
  = if Js.atBol prev then Js.matchTerms re prev s else None.
Proof. reflexivity. Qed.

Lemma matchTerms_one a re prev c s :
  Js.matchTerms (Js.TAtom a Js.QOne :: re) prev (c :: s)
  = if Js.atomMatches a c then Js.consumed c (Js.matchTerms re (Some c) s)
    else None.
Proof. reflexivity. Qed.

Lemma matchTerms_star a re prev s :
  Js.matchTerms (Js.TAtom a Js.QStar :: re) prev s
  = Js.greedy a (Js.matchTerms re) prev s.
Proof. reflexivity. Qed.

Lemma reHeader_whole_line l prev rest :
  noLineTerminator l = true -> Js.atBol prev = true -> Js.atEol rest = true ->
  Js.matchTerms reHeader prev (l ++ rest)
  = if isHeaderLine l then Some (l, rest) else None.
Proof.
  intros Hl Hb Hr. unfold reHeader. rewrite matchTerms_bol, Hb.
  destruct l as [|c l].
  - cbn [app isHeaderLine]. destruct rest as [|e rest]; [reflexivity|].
    cbn [Js.atEol] in Hr. rewrite matchTerms_one. cbn [Js.atomMatches].
    destruct (N.eqb_spec e 91) as [->|_]; [discriminate|reflexivity].
  - cbn [noLineTerminator forallb] in Hl. apply andb_prop in Hl as [_ Hl].
    cbn [app isHeaderLine]. rewrite matchTerms_one. cbn [Js.atomMatches].
    destruct (c =? 91); [|reflexivity]. cbn [andb].
    rewrite matchTerms_star, (greedy_header rest l (Some c) Hl Hr).
    destruct (endsWith 93 l); reflexivity.
Qed.

Lemma profileNames_joinLines ls :
  noLineTerminators ls = true ->
  profileNames (joinLines ls) = List.map slice1 (List.filter isHeaderLine ls).
Proof.
  intros Hls. unfold profileNames. f_equal.
  apply (matchAll_joinLines reHeader isHeaderLine).
  - intros prev s. apply matchTerms_anchored.
  - intros l prev rest. apply reHeader_whole_line.
  - reflexivity.
  - reflexivity.
  - exact Hls.
  - lia.
Qed.

Lemma noLineTerminator_app a b :
  noLineTerminator (a ++ b) = noLineTerminator a && noLineTerminator b.
Proof. apply forallb_app. Qed.

Lemma noLineTerminators_replaceFirst P new ls :
  noLineTerminator new = true -> noLineTerminators ls = true ->
  noLineTerminators (replaceFirst P new ls) = true.
Proof.
  intros Hn. induction ls as [|l rest IH]; [reflexivity|].
  cbn [noLineTerminators forallb replaceFirst].
  intros [Hl Hr]%andb_prop. destruct (P l); cbn [forallb].
  - rewrite Hn. exact Hr.
  - rewrite Hl. exact (IH Hr).
Qed.

Lemma replace_lineRe key new ls :
  key <> [] -> noLineTerminator key = true ->
  noLineTerminators ls = true -> noDollar new = true ->
  Js.replace (lineRe key) (joinLines ls) new
  = joinLines (replaceFirst (startsWith key) new ls).
Proof.
  intros Hk0 Hk Hls Hn.
  apply (replace_joinLines (lineRe key) (startsWith key)).
  - intros prev s. apply matchTerms_anchored.
  - intros l prev rest. apply lineRe_whole_line. exact Hk.
  - destruct key; [congruence|reflexivity].
  - exact Hls.
  - exact Hn.
Qed.

Lemma newEnvFile_joinLines ls id secret :
  noLineTerminators ls = true ->
  noLineTerminator id = true -> noDollar id = true ->
  noDollar secret = true ->
  newEnvFile (joinLines ls) id secret
  = joinLines
      (replaceFirst (startsWith (Js.lit "AWS_SECRET_ACCESS_KEY="))
         (Js.lit "AWS_SECRET_ACCESS_KEY=" ++ secret)
         (replaceFirst (startsWith (Js.lit "AWS_ACCESS_KEY_ID="))
            (Js.lit "AWS_ACCESS_KEY_ID=" ++ id) ls)).
Proof.
  intros Hls Hi Di Ds. unfold newEnvFile.
  change reEnvAccessKeyId with (lineRe (Js.lit "AWS_ACCESS_KEY_ID=")).
  change reEnvSecretAccessKey with (lineRe (Js.lit "AWS_SECRET_ACCESS_KEY=")).
  rewrite (replace_lineRe (Js.lit "AWS_ACCESS_KEY_ID="));
    [|discriminate|reflexivity|exact Hls|rewrite noDollar_app, Di; reflexivity].
  apply replace_lineRe; [discriminate|reflexivity| |].
  - apply noLineTerminators_replaceFirst; [|exact Hls].
    rewrite noLineTerminator_app, Hi. reflexivity.
  - rewrite noDollar_app, Ds. reflexivity.
Qed.

(** ** The profile names and the env file, line by line *)

Lemma replaceFirst_length P new ls :
  length (replaceFirst P new ls) = length ls.
Proof.
  induction ls as [|l rest IH]; [reflexivity|]. cbn [replaceFirst].
  destruct (P l); cbn [length]; [reflexivity|]. rewrite IH. reflexivity.
Qed.

Lemma replaceFirst_other P new ls : forall (i : nat) l,
  ls !! i = Some l -> P l = false -> replaceFirst P new ls !! i = Some l.
Proof.
  induction ls as [|l0 rest IH]; intros i l Hi Hl; [discriminate|].
  cbn [replaceFirst]. destruct i as [|i].
  - cbn in Hi. injection Hi as ->. rewrite Hl. reflexivity.
  - cbn in Hi. destruct (P l0); cbn; [exact Hi|]. apply IH; assumption.
Qed.

(** X2.  [getAllCredentialProfiles] on a readable credentials file whose
    lines hold no other line terminator than the line feeds between them:
    it returns, in order, the lines that open with a bracket and close
    with one, each without its first and last character, and it only reads
    the file. *)
Theorem getAllCredentialProfiles_lists_header_lines h w ls :
  noLineTerminators ls = true ->
  fileRead h w (credentialsPath h) = Some (joinLines ls) ->
  getAllCredentialProfiles h w
  = (Ok (List.map slice1 (List.filter isHeaderLine ls)),
     record w [EvReadFile (credentialsPath h)]).
Proof.
  intros Hls Hf. rewrite getAllCredentialProfiles_eq, Hf.
  rewrite (profileNames_joinLines ls Hls). reflexivity.
Qed.

Lemma getAllCredentialProfiles_lists_header_lines_witness :
  getAllCredentialProfiles Demo.calm (Demo.start (joinLines Sample.lines))
  = (Ok [Js.lit "default"; []; Js.lit "a]b"],
     record (Demo.start (joinLines Sample.lines)) [EvReadFile Demo.home]).
Proof.
  exact (getAllCredentialProfiles_lists_header_lines Demo.calm
           (Demo.start (joinLines Sample.lines)) Sample.lines
           eq_refl eq_refl).
Defined.

(** X3.  The env part of [replaceCrendentials] on a readable and writable
    env file, for a new id without line terminator and without dollar and
    a new secret without dollar: the file is written back with its first
    line that starts with AWS_ACCESS_KEY_ID= replaced by the new setting,
    and then the first line that starts with AWS_SECRET_ACCESS_KEY=; the
    number of lines stays, and every line that starts with neither keeps
    its place: a setting that is missing is not added, a second one is not
    touched. *)
Theorem replaceEnvVars_rewrites_first_setting h path id secret w ls :
  let newLines :=
    replaceFirst (startsWith (Js.lit "AWS_SECRET_ACCESS_KEY="))
      (Js.lit "AWS_SECRET_ACCESS_KEY=" ++ secret)
      (replaceFirst (startsWith (Js.lit "AWS_ACCESS_KEY_ID="))
         (Js.lit "AWS_ACCESS_KEY_ID=" ++ id) ls) in
  noLineTerminators ls = true ->
  noLineTerminator id = true -> noDollar id = true ->
  noDollar secret = true ->
  fileRead h w path = Some (joinLines ls) ->
  writeFault h (S (length (trace w))) path = false ->
  replaceEnvVars h path id secret w
  = (Ok tt,
     store (record w [EvReadFile path; EvWriteFile path (joinLines newLines)])
       path (joinLines newLines))
  /\ length newLines = length ls
  /\ forall (i : nat) l,
       ls !! i = Some l ->
       startsWith (Js.lit "AWS_ACCESS_KEY_ID=") l = false ->
       startsWith (Js.lit "AWS_SECRET_ACCESS_KEY=") l = false ->
       newLines !! i = Some l.
Proof.
  intros newLines Hls Hi Di Ds Hf Hw. split; [|split].
  - rewrite replaceEnvVars_eq, Hf. cbn zeta.
    rewrite length_record. cbn [length].
    rewrite Nat.add_1_r, Hw, record_record. cbn [app].
    rewrite (newEnvFile_joinLines ls id secret Hls Hi Di Ds). reflexivity.
  - unfold newLines. rewrite !replaceFirst_length. reflexivity.
  - intros i l Hl H1 H2. unfold newLines.
    apply replaceFirst_other; [|exact H2].
    apply replaceFirst_other; assumption.
Qed.

Lemma replaceEnvVars_rewrites_first_setting_witness :
  (replaceEnvVars Demo.calm Sample.envPath (Js.lit "AKIANEW")
     (Js.lit "SECNEW")
     (Sample.withFiles Demo.two (joinLines Sample.envLines))).1 = Ok tt
  /\ fs (replaceEnvVars Demo.calm Sample.envPath (Js.lit "AKIANEW")
           (Js.lit "SECNEW")
           (Sample.withFiles Demo.two (joinLines Sample.envLines))).2
       !! Sample.envPath
     = Some (joinLines
               (List.map Js.lit
                  ["PORT=8080"; "AWS_ACCESS_KEY_ID=AKIANEW";
                   " AWS_SECRET_ACCESS_KEY=x"; "AWS_SECRET_ACCESS_KEY=SECNEW";
                   "AWS_ACCESS_KEY_ID=AKIAOLDER"]%string)).
Proof.
  destruct (replaceEnvVars_rewrites_first_setting Demo.calm Sample.envPath
              (Js.lit "AKIANEW") (Js.lit "SECNEW")
              (Sample.withFiles Demo.two (joinLines Sample.envLines))
              Sample.envLines eq_refl eq_refl eq_refl eq_refl eq_refl eq_refl)
    as [E _].
  rewrite E. split; reflexivity.
Defined.

(** X4.  When [replaceCrendentials] throws, it has made no call on the
    env file, and every file other than the credentials file is as it
    was.  Either it threw before any write (the credentials file could
    not be read, or the pattern is no regular expression): then its only
    call is the read and no file changed; or the write of the credentials
    file was rejected: then its calls are the read and that write, and the
    credentials file is what the rejected write left of it. *)
Theorem replaceCrendentials_throw_spares_other_files
    h name id secret env w e :
  let r := replaceCrendentials h name id secret env w in
  r.1 = Throw e ->
  (forall p, p <> credentialsPath h -> fs r.2 !! p = fs w !! p)
  /\ ((trace r.2 = trace w ++ [EvReadFile (credentialsPath h)]
       /\ fs r.2 = fs w)
      \/ exists file re,
           fileRead h w (credentialsPath h) = Some file
           /\ Js.compile (sectionPattern name) = Js.Compiled re
           /\ writeFault h (S (length (trace w))) (credentialsPath h) = true
           /\ let newFile :=
                Js.replace re file (newDefaultProfile name id secret) in
              trace r.2
              = trace w ++ [EvReadFile (credentialsPath h);
                            EvWriteFile (credentialsPath h) newFile]
              /\ fs r.2 !! credentialsPath h
                 = match writeDamage h (S (length (trace w)))
                           (credentialsPath h) newFile with
                   | Some remains => Some remains
                   | None => fs w !! credentialsPath h
                   end).
Proof.
  cbn zeta. rewrite replaceCrendentials_eq. cbn zeta.
  destruct (fileRead h w (credentialsPath h)) as [file|].
  2:{ intros _. split; [reflexivity|]. left. auto. }
  destruct (Js.compile (sectionPattern name)) as [re| |].
  2:{ intros _. split; [reflexivity|]. left. auto. }
  2:{ discriminate. }
  rewrite length_record. cbn [length]. rewrite Nat.add_1_r.
  destruct (writeFault h _ (credentialsPath h)) eqn:W.
  - intros _. cbn [snd]. split.
    + intros p Hp. rewrite spoil_other by congruence. reflexivity.
    + right. exists file, re. repeat split.
      * rewrite trace_spoil, record_record. reflexivity.
      * unfold spoil. destruct (writeDamage h _ _ _); [|reflexivity].
        cbn [fs store]. apply lookup_insert_eq.
  - destruct env as [|b|s|]; try discriminate.
    rewrite replaceEnvVars_ok. discriminate.
Qed.

Lemma replaceCrendentials_throw_spares_other_files_witness :
  let r := replaceCrendentials Sample.truncating (Js.lit "default")
             (Js.lit "AKIANEW") (Js.lit "SECNEW") (JString (Js.lit ".env"))
             (Sample.withFiles Demo.two (joinLines Sample.envLines)) in
  (forall p,
      p <> Demo.home ->
      fs r.2 !! p
      = fs (Sample.withFiles Demo.two (joinLines Sample.envLines)) !! p)
  /\ ((trace r.2 = [] ++ [EvReadFile Demo.home]
       /\ fs r.2 = fs (Sample.withFiles Demo.two (joinLines Sample.envLines)))
      \/ exists file re,
           fileRead Sample.truncating
             (Sample.withFiles Demo.two (joinLines Sample.envLines))
             Demo.home = Some file
           /\ Js.compile (sectionPattern (Js.lit "default")) = Js.Compiled re
           /\ writeFault Sample.truncating 1 Demo.home = true
           /\ let newFile :=
                Js.replace re file
                  (newDefaultProfile (Js.lit "default") (Js.lit "AKIANEW")
                     (Js.lit "SECNEW")) in
              trace r.2
              = [] ++ [EvReadFile Demo.home; EvWriteFile Demo.home newFile]
              /\ fs r.2 !! Demo.home = Some []).
Proof.
  exact (replaceCrendentials_throw_spares_other_files Sample.truncating
           (Js.lit "default") (Js.lit "AKIANEW") (Js.lit "SECNEW")
           (JString (Js.lit ".env"))
           (Sample.withFiles Demo.two (joinLines Sample.envLines))
           (FsError Demo.home) eq_refl).
Defined.

(** ** The anatomy of a run *)

Lemma split_after {A} (f : A -> bool) x : forall y pre e post,
  forallb (fun e => negb (f e)) x = true -> f e = true ->
  x ++ y = pre ++ e :: post ->
  exists y1, pre = x ++ y1 /\ y = y1 ++ e :: post.
Proof.
  induction x as [|a x IH]; intros y pre e post Hx He E.
  - exists pre. auto.
  - cbn [forallb] in Hx. apply andb_prop in Hx as [Ha Hx].
    destruct pre as [|b pre]; cbn [app] in E.
    + injection E as -> _. rewrite He in Ha. discriminate.
    + injection E as -> E. destruct (IH _ _ _ _ Hx He E) as (y1 & -> & ->).
      exists y1. auto.
Qed.

Lemma split_before {A} (f : A -> bool) y : forall x pre e post,
  forallb (fun e => negb (f e)) y = true -> f e = true ->
  x ++ y = pre ++ e :: post ->
  exists x2, x = pre ++ e :: x2 /\ post = x2 ++ y.
Proof.
  intros x. induction x as [|a x IH]; intros pre e post Hy He E.
  - cbn [app] in E. subst y. rewrite forallb_app in Hy.
    apply andb_prop in Hy as [_ Hy]. cbn [forallb] in Hy.
    rewrite He in Hy. discriminate.
  - destruct pre as [|b pre]; cbn [app] in E.
    + injection E as -> E. exists x. auto.
    + injection E as -> E. destruct (IH _ _ _ Hy He E) as (x2 & -> & ->).
      exists x2. auto.
Qed.

Section Anatomy.

Context (h : host).

Lemma select_trace a w :
  trace (select h a w).2 = trace w ++ eventsOf (select h a) w.
Proof.
  destruct (select_quiet h a w) as (evs & T & _).
  rewrite (eventsOf_trace _ _ _ T). exact T.
Qed.

(** A run whose selection does not return ends as the selection did. *)
Lemma run_unselected a w :
  (forall sel, (select h a w).1 <> Ok sel) ->
  (run h a w).2 = (select h a w).2
  /\ eventsOf (run h a) w = eventsOf (select h a) w
  /\ match (select h a w).1 with
     | Ok _ => False
     | Throw e => (run h a w).1 = Throw e
     | Exit c => (run h a w).1 = Exit c
     | OutOfModel => (run h a w).1 = OutOfModel
     end.
Proof.
  intros N. unfold eventsOf. rewrite run_eq.
  destruct (select h a w) as [[sel|e|c|] w1]; cbn [fst snd] in *; auto.
  exfalso. exact (N sel eq_refl).
Qed.

(** The loop issues no deletion, no note and no line that ends a run. *)
Lemma rotateEach_calm (single : bool) env sel rotated :
  only (fun e => negb (isDelete e || isNote e || isClosing e || isCancel e))
    (rotateEach h single env sel rotated).
Proof.
  apply rotateEach_only. intros prof. apply rotateOne_only; try reflexivity.
  intros s _. repeat split; reflexivity.
Qed.

(** The calls of a run that rotates: those of the selection, the start of
    the spinner, those of the loop and, when the loop returned, the stop
    of the spinner and the deletions, followed when every deletion
    succeeded by the notes (under [-o]) and the closing line. *)
Lemma run_anatomy a w sel :
  (select h a w).1 = Ok sel ->
  (length sel = 1 \/ length sel = 2)%nat ->
  let start := EvOutput (SpinnerStart (Nat.ltb 1 (length sel))) in
  let stop :=
    EvOutput (SpinnerStop (length sel) (Nat.ltb 1 (length sel))) in
  let w2 := record (select h a w).2 [start] in
  let loop := rotateEach h (Nat.eqb (length sel) 1) (envOf a) sel [] in
  let loopEvs := eventsOf loop w2 in
  trace (loop w2).2 = trace w2 ++ loopEvs
  /\ match (loop w2).1 with
     | Ok rotated =>
         match all (deleteResults h (S (length (trace (loop w2).2))) sel) with
         | inl e =>
             (run h a w).1 = Throw e
             /\ eventsOf (run h a) w
                = eventsOf (select h a) w ++ [start] ++ loopEvs
                    ++ stop :: deleteCalls sel
         | inr _ =>
             (run h a w).1 = Ok tt
             /\ eventsOf (run h a) w
                = eventsOf (select h a) w ++ [start] ++ loopEvs
                    ++ stop :: deleteCalls sel
                    ++ (if argOutput a then notes rotated else [])
                    ++ [EvOutput OutroComplete]
         end
     | Throw e =>
         (run h a w).1 = Throw e
         /\ eventsOf (run h a) w
            = eventsOf (select h a) w ++ [start] ++ loopEvs
     | Exit c => False
     | OutOfModel =>
         (run h a w).1 = OutOfModel
         /\ eventsOf (run h a) w
            = eventsOf (select h a) w ++ [start] ++ loopEvs
     end.
Proof.
  intros Hs Hl start stop w2 loop loopEvs.
  destruct (rotateEach_calm (Nat.eqb (length sel) 1) (envOf a) sel [] w2)
    as (evs & T & _).
  assert (EL : loopEvs = evs) by exact (eventsOf_trace _ _ _ T).
  fold loop in T. rewrite EL. split; [exact T|].
  pose proof (rotateEach_outcome h (Nat.eqb (length sel) 1) (envOf a) sel []
                w2) as O. fold loop in O.
  unfold eventsOf at 1 3 5 7. rewrite (run_rotates h a w sel Hs Hl), rotate_eq.
  fold start w2 loop. unfold bind.
  assert (T2 : trace w2 = trace w ++ eventsOf (select h a) w ++ [start]).
  { unfold w2. cbn [trace record]. rewrite select_trace, <- app_assoc.
    reflexivity. }
  destruct (loop w2) as [[ks|e|c|] w3]; cbn [fst snd] in *.
  - rewrite finish_eq. cbn zeta. fold stop.
    destruct (all _) as [e|l]; cbn [fst snd]; (split; [reflexivity|]);
      cbn [trace record]; rewrite T, T2, <- !app_assoc, drop_app_length;
      cbn [app]; rewrite <- ?app_assoc; reflexivity.
  - split; [reflexivity|].
    rewrite T, T2, <- !app_assoc, drop_app_length. reflexivity.
  - exact (O c eq_refl).
  - split; [reflexivity|].
    rewrite T, T2, <- !app_assoc, drop_app_length. reflexivity.
Qed.

End Anatomy.

(** ** What a run does in which order *)

Lemma forallb_not_middle {A} (f : A -> bool) pre e post :
  forallb (fun e => negb (f e)) (pre ++ e :: post) = true -> f e = false.
Proof.
  rewrite forallb_app. cbn [forallb].
  intros [_ [H _]%andb_prop]%andb_prop. apply negb_true_iff. exact H.
Qed.

Lemma forallb_filter_nil {A} (f : A -> bool) l :
  List.filter f l = [] -> forallb (fun x => negb (f x)) l = true.
Proof.
  induction l as [|x l IH]; [reflexivity|]. cbn [List.filter forallb].
  destruct (f x); [discriminate|]. exact IH.
Qed.

Lemma forallb_imp {A} (f g : A -> bool) l :
  (forall x, f x = true -> g x = true) ->
  forallb f l = true -> forallb g l = true.
Proof.
  intros H. rewrite !forallb_forall. intros F x Hx. apply H, F, Hx.
Qed.

Lemma filter_repeat_create n :
  List.filter isCreate (repeat EvCreateAccessKey n)
  = repeat EvCreateAccessKey n.
Proof. induction n as [|n IH]; [reflexivity|]. cbn. rewrite IH. reflexivity. Qed.

Section Order.

Context (h : host).

(** One turn of the loop that returns: the key was created, and the
    calls after the creation are neither creations, nor deletions, nor
    notes. *)
Lemma rotateOne_returns (single : bool) (env : jsval) p w rk w1 :
  rotateOne h single env p w = (Ok rk, w1) ->
  exists k evs,
    createdAt h (length (trace w)) = inr k
    /\ rk = rotatedOf p k
    /\ trace w1 = trace w ++ EvCreateAccessKey :: evs
    /\ forallb inner evs = true.
Proof.
  rewrite rotateOne_eq. cbn zeta.
  destruct (createdAt h _) as [e|k]; [discriminate|].
  destruct (replaceCrendentials_inner h (name p) (tpl k.1) (tpl k.2)
              (if single then env else JBool false)
              (record w [EvCreateAccessKey])) as (e1 & T1 & I1).
  destruct (replaceCrendentials h _ _ _ _ _) as [[[]|e|c|] w2];
    cbn [snd] in T1; try discriminate; intros [= <- <-].
  - exists k, e1. rewrite T1. cbn [trace record]. rewrite <- app_assoc. auto.
  - exists k, (e1 ++ [EvOutput (LogFailedReplacing e)]).
    cbn [trace record]. rewrite T1. cbn [trace record].
    rewrite <- !app_assoc. repeat split.
    rewrite forallb_app, I1. reflexivity.
Qed.

(** A loop that returns: one rotated key per selected profile, in order,
    and every creation it issued returned a key. *)
Lemma rotateEach_created (single : bool) (env : jsval) sel :
  forall rotated w out w1,
  rotateEach h single env sel rotated w = (Ok out, w1) ->
  exists ks,
    out = rotated ++ ks
    /\ List.map rkName ks = List.map name sel
    /\ forall pre post,
         trace w1 = trace w ++ pre ++ EvCreateAccessKey :: post ->
         exists k, createdAt h (length (trace w) + length pre) = inr k.
Proof.
  induction sel as [|p rest IH]; intros rotated w out w1.
  - intros [= <- <-]. exists []. rewrite app_nil_r. repeat split.
    intros pre post E. exfalso.
    rewrite <- (app_nil_r (trace w)) in E at 1. apply app_inv_head in E.
    destruct pre; discriminate.
  - cbn [rotateEach]. unfold bind at 1.
    destruct (rotateOne h single env p w) as [[rk|e|c|] w2] eqn:R1;
      try discriminate.
    destruct (rotateOne_returns _ _ _ _ _ _ R1) as (k & e1 & Hk & -> & T1 & I1).
    intros R. destruct (IH _ _ _ _ R) as (ks & -> & Hn & Hpos).
    exists (rotatedOf p k :: ks). rewrite <- app_assoc.
    split; [reflexivity|]. cbn [List.map rkName rotatedOf]. rewrite Hn.
    split; [reflexivity|]. intros pre post E.
    destruct (rotateEach_calm h single env rest
                (rotated ++ [rotatedOf p k]) w2) as (e2 & T2 & _).
    rewrite R in T2. cbn [snd] in T2. rewrite T2, T1, <- app_assoc in E.
    apply app_inv_head in E. cbn [app] in E.
    destruct pre as [|b pre]; cbn [app] in E.
    + rewrite Nat.add_0_r. exists k. exact Hk.
    + injection E as <- E.
      assert (C1 : forallb (fun e => negb (isCreate e)) e1 = true).
      { revert I1. apply forallb_imp. intros e. unfold inner.
        destruct (isCreate e); [discriminate|reflexivity]. }
      destruct (split_after isCreate e1 e2 pre EvCreateAccessKey post C1
                  eq_refl E) as (y1 & -> & E2).
      destruct (Hpos y1 post) as [k2 Hk2].
      { rewrite T2, E2. reflexivity. }
      exists k2. rewrite T1 in Hk2. rewrite length_app in Hk2.
      cbn [length] in *. rewrite length_app.
      replace (length (trace w) + S (length e1 + length y1))%nat
        with (length (trace w) + S (length e1) + length y1)%nat by lia.
      exact Hk2.
Qed.

Lemma deleteCalls_kinds sel :
  forallb (fun e => negb (isCreate e)) (deleteCalls sel) = true
  /\ forallb (fun e => negb (isNote e)) (deleteCalls sel) = true
  /\ forallb (fun e => negb (isClosing e)) (deleteCalls sel) = true.
Proof. induction sel as [|p rest (I1 & I2 & I3)]; cbn; auto. Qed.

Lemma notes_kinds ks :
  forallb (fun e => negb (mutating e)) (notes ks) = true
  /\ forallb (fun e => negb (isClosing e)) (notes ks) = true.
Proof. induction ks as [|k rest (I1 & I2)]; cbn; auto. Qed.

Lemma select_kinds a w :
  forallb (fun e => negb (isCreate e)) (eventsOf (select h a) w) = true
  /\ forallb (fun e => negb (isDelete e)) (eventsOf (select h a) w) = true
  /\ forallb (fun e => negb (isNote e)) (eventsOf (select h a) w) = true.
Proof.
  repeat split.
  - generalize (select_events_quiet h a w). apply forallb_imp.
    intros e. unfold mutating. destruct (isCreate e); [discriminate|auto].
  - generalize (select_events_quiet h a w). apply forallb_imp.
    intros e. unfold mutating. destruct (isDelete e);
      [rewrite orb_true_r; discriminate|auto].
  - apply only_events. apply select_only; try reflexivity.
Qed.

Lemma loop_kinds (single : bool) env sel rotated w :
  let evs := eventsOf (rotateEach h single env sel rotated) w in
  forallb (fun e => negb (isDelete e)) evs = true
  /\ forallb (fun e => negb (isNote e)) evs = true
  /\ forallb (fun e => negb (isClosing e)) evs = true.
Proof.
  cbn zeta.
  pose proof (only_events _ _ w (rotateEach_calm h single env sel rotated)) as Q.
  repeat split; revert Q; apply forallb_imp; intros e;
    destruct (isDelete e), (isNote e), (isClosing e); cbn; congruence.
Qed.

End Order.

Section Deletion.

Context (h : host).

Lemma run_without_rotation a w :
  match (select h a w).1 with
  | Ok sel => (2 < length sel \/ length sel = 0)%nat
  | _ => True
  end ->
  forallb (fun e => negb (mutating e || isNote e)) (eventsOf (run h a) w)
  = true.
Proof.
  intros H.
  assert (Q : forallb (fun e => negb (mutating e || isNote e))
                (eventsOf (select h a) w) = true).
  { apply only_events. apply select_only; try reflexivity. }
  destruct ((select h a w).1) as [sel|e|c|] eqn:S.
  - rewrite (eventsOf_run_cases h a w sel S), forallb_app, Q.
    destruct H as [H| ->]; [|reflexivity].
    apply Nat.ltb_lt in H. rewrite H. reflexivity.
  - destruct (run_unselected h a w) as (_ & -> & _); [|exact Q].
    intros sel. rewrite S. discriminate.
  - destruct (run_unselected h a w) as (_ & -> & _); [|exact Q].
    intros sel. rewrite S. discriminate.
  - destruct (run_unselected h a w) as (_ & -> & _); [|exact Q].
    intros sel. rewrite S. discriminate.
Qed.

Lemma selected_cases (sel : list profile) :
  (2 < length sel \/ length sel = 0)%nat
  \/ (length sel = 1 \/ length sel = 2)%nat.
Proof. lia. Qed.

(** The calls of a run whose loop returned. *)
Lemma run_rotated a w sel rotated w3 :
  (select h a w).1 = Ok sel ->
  (length sel = 1 \/ length sel = 2)%nat ->
  let start := EvOutput (SpinnerStart (Nat.ltb 1 (length sel))) in
  let stop :=
    EvOutput (SpinnerStop (length sel) (Nat.ltb 1 (length sel))) in
  let w2 := record (select h a w).2 [start] in
  rotateEach h (Nat.eqb (length sel) 1) (envOf a) sel [] w2
  = (Ok rotated, w3) ->
  exists loopEvs tail,
    eventsOf (run h a) w
    = (eventsOf (select h a) w ++ [start]) ++ loopEvs
        ++ (stop :: deleteCalls sel) ++ tail
    /\ trace w3 = trace w2 ++ loopEvs
    /\ List.filter isCreate loopEvs = repeat EvCreateAccessKey (length sel)
    /\ forallb (fun e => negb (isDelete e)) loopEvs = true
    /\ forallb (fun e => negb (isNote e)) loopEvs = true
    /\ forallb (fun e => negb (isClosing e)) loopEvs = true
    /\ match all (deleteResults h (S (length (trace w3))) sel) with
       | inl e => (run h a w).1 = Throw e /\ tail = []
       | inr _ =>
           (run h a w).1 = Ok tt
           /\ tail = (if argOutput a then notes rotated else [])
                       ++ [EvOutput OutroComplete]
       end.
Proof.
  intros Hs Hl start stop w2 R.
  pose proof (run_anatomy h a w sel Hs Hl) as A. cbn zeta in A.
  fold start stop w2 in A.
  destruct (loop_kinds h (Nat.eqb (length sel) 1) (envOf a) sel [] w2)
    as (K1 & K2 & K3).
  destruct (rotateEach_returns h _ _ _ _ _ _ _ R) as (evs & T & C & _).
  rewrite R in A. cbn [fst snd] in A. destruct A as [TA A].
  assert (E : evs = eventsOf
                      (rotateEach h (Nat.eqb (length sel) 1) (envOf a) sel [])
                      w2).
  { rewrite T in TA. apply app_inv_head in TA. exact TA. }
  rewrite <- E in *.
  destruct (all _) as [e|l]; destruct A as [A1 A2].
  - exists evs, []. rewrite A2, app_nil_r, <- !app_assoc. auto 10.
  - exists evs, ((if argOutput a then notes rotated else [])
                   ++ [EvOutput OutroComplete]).
    rewrite A2, <- !app_assoc. auto 10.
Qed.

End Deletion.

(** X5.  Old keys are deleted only after a new key was created for every
    selected profile: in a run that issues a deletion, one or two
    profiles were selected, every key creation the run issued returned a
    key, there is one creation per selected profile, and the deletions
    are those of the selected profiles' old keys, in order. *)
Theorem deletion_needs_every_new_key h a w :
  existsb isDelete (eventsOf (run h a) w) = true ->
  exists sel,
    (select h a w).1 = Ok sel
    /\ (length sel = 1 \/ length sel = 2)%nat
    /\ List.filter isCreate (eventsOf (run h a) w)
       = repeat EvCreateAccessKey (length sel)
    /\ List.filter isDelete (eventsOf (run h a) w) = deleteCalls sel
    /\ forall pre post,
         eventsOf (run h a) w = pre ++ EvCreateAccessKey :: post ->
         exists k, createdAt h (length (trace w) + length pre) = inr k.
Proof.
  intros D.
  assert (N : forall sel,
             (select h a w).1 = Ok sel ->
             (length sel = 1 \/ length sel = 2)%nat).
  { intros sel S. destruct (selected_cases sel) as [H|H]; [|exact H].
    pose proof (run_without_rotation h a w) as Q. rewrite S in Q.
    specialize (Q H). exfalso.
    rewrite (existsb_forallb_false isDelete) in D; [discriminate|].
    revert Q. apply forallb_imp. intros e. unfold mutating.
    destruct (isDelete e); [rewrite !orb_true_r; discriminate|reflexivity]. }
  destruct ((select h a w).1) as [sel|e|c|] eqn:S.
  2-4: exfalso; pose proof (run_without_rotation h a w) as Q;
    rewrite S in Q; specialize (Q I);
    rewrite (existsb_forallb_false isDelete) in D; [discriminate|];
    revert Q; apply forallb_imp; intros x; unfold mutating;
    destruct (isDelete x); [rewrite !orb_true_r; discriminate|reflexivity].
  exists sel. specialize (N sel eq_refl). split; [reflexivity|].
  split; [exact N|].
  destruct (select_kinds h a w) as (SC & SD & SN).
  pose proof (run_anatomy h a w sel S N) as A. cbn zeta in A.
  destruct (loop_kinds h (Nat.eqb (length sel) 1) (envOf a) sel []
              (record (select h a w).2
                 [EvOutput (SpinnerStart (Nat.ltb 1 (length sel)))]))
    as (LD & _ & _).
  destruct (rotateEach h (Nat.eqb (length sel) 1) (envOf a) sel []
              (record (select h a w).2
                 [EvOutput (SpinnerStart (Nat.ltb 1 (length sel)))]))
    as [[rotated|e|c|] w3] eqn:R; cbn [fst snd] in A; destruct A as [TA A].
  2,4: exfalso; destruct A as [_ A]; rewrite A in D;
    rewrite !existsb_app in D; cbn [existsb isDelete orb] in D;
    rewrite (existsb_forallb_false isDelete _ SD) in D;
    rewrite (existsb_forallb_false isDelete _ LD) in D; discriminate.
  2: contradiction.
  clear A TA LD.
  destruct (run_rotated h a w sel rotated w3 S N R)
    as (loopEvs & tail & E & T & C & LD & _ & _ & O).
  destruct (deleteCalls_kinds sel) as (DC & _ & _).
  destruct (filter_deleteCalls sel) as (FD & _ & _).
  assert (TC : forallb (fun e => negb (mutating e)) tail = true).
  { destruct (all _) as [e|l]; destruct O as [_ ->]; [reflexivity|].
    rewrite forallb_app. destruct (argOutput a); [|reflexivity].
    destruct (notes_kinds rotated) as [-> _]. reflexivity. }
  assert (TC1 : forallb (fun e => negb (isCreate e)) tail = true).
  { revert TC. apply forallb_imp. intros x. unfold mutating.
    destruct (isCreate x); [discriminate|reflexivity]. }
  assert (TC2 : forallb (fun e => negb (isDelete e)) tail = true).
  { revert TC. apply forallb_imp. intros x. unfold mutating.
    destruct (isDelete x); [rewrite orb_true_r; discriminate|reflexivity]. }
  rewrite E. repeat split.
  - rewrite !List.filter_app. cbn [List.filter isCreate app].
    rewrite (filter_none isCreate _ SC), C, (filter_none isCreate _ DC),
      (filter_none isCreate _ TC1), !app_nil_r. reflexivity.
  - rewrite !List.filter_app. cbn [List.filter isDelete app].
    rewrite (filter_none isDelete _ SD), (filter_none isDelete _ LD), FD,
      (filter_none isDelete _ TC2), !app_nil_r. reflexivity.
  - intros pre post P.
    assert (X1 : forallb (fun e => negb (isCreate e))
                   (eventsOf (select h a) w
                      ++ [EvOutput (SpinnerStart (Nat.ltb 1 (length sel)))])
                 = true).
    { rewrite forallb_app, SC. reflexivity. }
    destruct (split_after isCreate _ _ _ EvCreateAccessKey _ X1 eq_refl P)
      as (y1 & -> & P1).
    assert (X2 : forallb (fun e => negb (isCreate e))
                   ((EvOutput (SpinnerStop (length sel)
                                 (Nat.ltb 1 (length sel)))
                       :: deleteCalls sel) ++ tail) = true).
    { rewrite forallb_app, TC1. cbn [forallb isCreate negb]. rewrite DC.
      reflexivity. }
    destruct (split_before isCreate _ _ _ EvCreateAccessKey _ X2 eq_refl P1)
      as (x2 & P2 & _).
    destruct (rotateEach_created h _ _ _ _ _ _ _ R) as (ks & _ & _ & Hpos).
    destruct (Hpos y1 x2) as [k Hk]; [rewrite T, P2; reflexivity|].
    exists k. cbn [trace record] in Hk. rewrite select_trace in Hk.
    rewrite !length_app in *. cbn [length] in *.
    rewrite !Nat.add_assoc. exact Hk.
Qed.

Lemma deletion_needs_every_new_key_witness :
  exists sel,
    (select Demo.calm Demo.pick (Demo.start Demo.two)).1 = Ok sel
    /\ (length sel = 1 \/ length sel = 2)%nat
    /\ List.filter isCreate
         (eventsOf (run Demo.calm Demo.pick) (Demo.start Demo.two))
       = repeat EvCreateAccessKey (length sel)
    /\ List.filter isDelete
         (eventsOf (run Demo.calm Demo.pick) (Demo.start Demo.two))
       = deleteCalls sel
    /\ forall pre post,
         eventsOf (run Demo.calm Demo.pick) (Demo.start Demo.two)
         = pre ++ EvCreateAccessKey :: post ->
         exists k,
           createdAt Demo.calm
             (length (trace (Demo.start Demo.two)) + length pre) = inr k.
Proof.
  apply (deletion_needs_every_new_key Demo.calm Demo.pick
           (Demo.start Demo.two)).
  vm_compute. reflexivity.
Defined.

Section Endings.

Context (h : host).

Lemma select_exit_codes a w c :
  (select h a w).1 = Exit c -> (c = 0 \/ c = 1)%Z.
Proof.
  rewrite select_eq. cbn zeta.
  destruct (argProfiles a) eqn:P.
  - rewrite getAllCredentialProfiles_eq.
    destruct (fileRead h _ (credentialsPath h)) as [f|];
      [|intros [= <-]; auto].
    rewrite getAllProfiles_eq. cbn zeta.
    destruct (listResponse h _) as [e|keys]; [discriminate|].
    destruct (all _) as [e|ps]; [discriminate|].
    destruct (joinProfiles keys ps) as [|p ps']; [intros [= <-]; auto|].
    destruct (multiselectAnswer h _ _); [intros [= <-]; auto|discriminate].
  - rewrite getAllProfiles_eq. cbn zeta.
    destruct (listResponse h _) as [e|keys]; [discriminate|].
    destruct (all _) as [e|ps]; [discriminate|].
    destruct (joinProfiles keys ps) as [|p ps']; [intros [= <-]; auto|].
    discriminate.
Qed.

Lemma all_deleteResults_fails sel p :
  In p sel ->
  (forall t, deleteResponse h t (accessKeyId p) <> None) ->
  forall t, exists e, all (deleteResults h t sel) = inl e.
Proof.
  intros Hp Hd. induction sel as [|q rest IH]; intros t; [contradiction|].
  cbn [deleteResults all].
  destruct (deleteResponse h t (accessKeyId q)) as [e|] eqn:E;
    [exists e; reflexivity|].
  destruct Hp as [->|Hp]; [exfalso; exact (Hd t E)|].
  destruct (IH Hp (S t)) as [e ->]. exists e. reflexivity.
Qed.

End Endings.

(** X6.  The process is ended ([process.exit]) only before anything was
    changed: a run that exits does so within the selection, with status 0
    or 1; it has created no key, written no file and deleted no key, and
    the files are as they were. *)
Theorem exit_changes_nothing h a w c :
  (run h a w).1 = Exit c ->
  (select h a w).1 = Exit c
  /\ (c = 0 \/ c = 1)%Z
  /\ fs (run h a w).2 = fs w
  /\ forallb (fun e => negb (mutating e)) (eventsOf (run h a) w) = true.
Proof.
  intros H.
  assert (S : (select h a w).1 = Exit c).
  { rewrite run_eq in H.
    destruct (select h a w) as [[sel|e|c'|] w1]; cbn [fst snd] in *;
      try discriminate; [|injection H as ->; reflexivity].
    destruct (Nat.ltb 2 (length sel)); [discriminate|].
    destruct (Nat.eqb (length sel) 0); [discriminate|].
    destruct (rotate_verdict h a (envOf a) sel w1) as (V & _).
    exfalso. exact (V c H). }
  destruct (run_unselected h a w) as (E2 & EV & _).
  { intros sel. rewrite S. discriminate. }
  split; [exact S|]. split; [exact (select_exit_codes h a w c S)|].
  split.
  - rewrite E2. apply select_keeps.
  - rewrite EV. apply select_events_quiet.
Qed.

Lemma exit_changes_nothing_witness :
  (select Demo.calm Demo.pick (initial ∅)).1 = Exit 1%Z
  /\ (1 = 0 \/ 1 = 1)%Z
  /\ fs (run Demo.calm Demo.pick (initial ∅)).2 = fs (initial ∅)
  /\ forallb (fun e => negb (mutating e))
       (eventsOf (run Demo.calm Demo.pick) (initial ∅)) = true.
Proof.
  apply (exit_changes_nothing Demo.calm Demo.pick (initial ∅) 1%Z).
  reflexivity.
Defined.

(** X7.  The new keys are printed only under [-o], only by a run that
    completes, and only after the old keys were deleted: when a run
    prints the note of a key, [-o] was given, the run returns normally,
    the key is that of a selected profile, every deletion has been issued
    before the note, and no call after it changes anything. *)
Theorem note_needs_output_flag_and_deletions h a w pre k post :
  eventsOf (run h a) w = pre ++ EvOutput (Note k) :: post ->
  argOutput a = true
  /\ (run h a w).1 = Ok tt
  /\ (exists sel,
        (select h a w).1 = Ok sel
        /\ In (rkName k) (List.map name sel)
        /\ List.filter isDelete pre = deleteCalls sel)
  /\ forallb (fun e => negb (mutating e)) post = true.
Proof.
  intros E.
  assert (Q0 : forall evs,
             forallb (fun e => negb (mutating e || isNote e)) evs = true ->
             eventsOf (run h a) w <> evs).
  { intros evs Q E2. rewrite E in E2. subst evs.
    apply (forallb_not_middle (fun e => mutating e || isNote e)) in Q.
    discriminate. }
  destruct ((select h a w).1) as [sel|e|c|] eqn:S.
  2-4: exfalso; apply (Q0 (eventsOf (run h a) w)); [|reflexivity];
    apply run_without_rotation; rewrite S; exact I.
  destruct (selected_cases sel) as [Hl|Hl].
  { exfalso. apply (Q0 (eventsOf (run h a) w)); [|reflexivity].
    apply run_without_rotation. rewrite S. exact Hl. }
  destruct (select_kinds h a w) as (SC & SD & SN).
  pose proof (run_anatomy h a w sel S Hl) as A. cbn zeta in A.
  destruct (loop_kinds h (Nat.eqb (length sel) 1) (envOf a) sel []
              (record (select h a w).2
                 [EvOutput (SpinnerStart (Nat.ltb 1 (length sel)))]))
    as (_ & LN & _).
  destruct (rotateEach h (Nat.eqb (length sel) 1) (envOf a) sel []
              (record (select h a w).2
                 [EvOutput (SpinnerStart (Nat.ltb 1 (length sel)))]))
    as [[rotated|e|c|] w3] eqn:R; cbn [fst snd] in A; destruct A as [TA A].
  2,4: exfalso; destruct A as [_ A]; rewrite A in E;
    assert (X : forallb (fun e => negb (isNote e)) (pre ++ EvOutput (Note k) :: post) = true)
      by (rewrite <- E, !forallb_app, SN, LN; reflexivity);
    apply (forallb_not_middle isNote) in X; discriminate.
  2: contradiction.
  clear A TA LN.
  destruct (run_rotated h a w sel rotated w3 S Hl R)
    as (loopEvs & tail & EV & T & C & LD & LN & _ & O).
  destruct (deleteCalls_kinds sel) as (_ & DN & _).
  destruct (filter_deleteCalls sel) as (FD & _ & _).
  rewrite E in EV. rewrite !app_assoc in EV. symmetry in EV.
  assert (X : forallb (fun e => negb (isNote e))
                ((((eventsOf (select h a) w
                      ++ [EvOutput (SpinnerStart (Nat.ltb 1 (length sel)))])
                     ++ loopEvs)
                    ++ EvOutput (SpinnerStop (length sel)
                                   (Nat.ltb 1 (length sel)))
                       :: deleteCalls sel)) = true).
  { rewrite !forallb_app, SN, LN. cbn [forallb isNote negb andb].
    exact DN. }
  destruct (split_after isNote _ _ _ (EvOutput (Note k)) _ X eq_refl EV)
    as (y1 & -> & ET).
  destruct (all _) as [e|l]; destruct O as [O1 O2].
  { rewrite O2 in ET. destruct y1; discriminate. }
  destruct (argOutput a) eqn:OA.
  2:{ exfalso. rewrite O2 in ET. cbn [app] in ET.
      destruct y1 as [|y y1]; [discriminate|].
      injection ET as _ ET. destruct y1; discriminate. }
  assert (TM : forallb (fun e => negb (mutating e)) tail = true).
  { rewrite O2, forallb_app. destruct (notes_kinds rotated) as [-> _].
    reflexivity. }
  rewrite ET, forallb_app in TM. apply andb_prop in TM as [TM1 TM2].
  cbn [forallb] in TM2. apply andb_prop in TM2 as [_ TM2].
  split; [reflexivity|]. split; [exact O1|]. split; [|exact TM2].
  exists sel. split; [reflexivity|]. split.
  - destruct (rotateEach_created h _ _ _ _ _ _ _ R) as (ks & -> & Hn & _).
    rewrite <- Hn. cbn [app] in *.
    assert (I : In (EvOutput (Note k)) (notes ks ++ [EvOutput OutroComplete])).
    { rewrite <- O2, ET. apply in_or_app. right. left. reflexivity. }
    apply in_app_or in I as [I|[I|[]]]; [|discriminate].
    unfold notes in I. apply in_map_iff in I as (k' & [= ->] & I).
    apply in_map. exact I.
  - rewrite !List.filter_app. cbn [List.filter isDelete app].
    rewrite (filter_none isDelete _ SD), (filter_none isDelete _ LD), FD.
    rewrite (filter_none isDelete y1).
    + rewrite app_nil_r. reflexivity.
    + revert TM1. apply forallb_imp. intros x. unfold mutating.
      destruct (isDelete x); [rewrite orb_true_r; discriminate|reflexivity].
Qed.

Lemma note_needs_output_flag_and_deletions_witness :
  argOutput Demo.pick = true
  /\ (run Demo.calm Demo.pick (Demo.start Demo.two)).1 = Ok tt
  /\ (exists sel,
        (select Demo.calm Demo.pick (Demo.start Demo.two)).1 = Ok sel
        /\ In (Js.lit "default") (List.map name sel)
        /\ List.filter isDelete
             (firstn 17 (eventsOf (run Demo.calm Demo.pick)
                           (Demo.start Demo.two)))
           = deleteCalls sel)
  /\ forallb (fun e => negb (mutating e))
       (skipn 18 (eventsOf (run Demo.calm Demo.pick) (Demo.start Demo.two)))
     = true.
Proof.
  apply (note_needs_output_flag_and_deletions Demo.calm Demo.pick
           (Demo.start Demo.two)
           (firstn 17 (eventsOf (run Demo.calm Demo.pick)
                         (Demo.start Demo.two)))
           (rotatedOf Demo.defaultProfile
              (Some (Js.lit "AKIANEW"), Some (Js.lit "SECNEW")))
           (skipn 18 (eventsOf (run Demo.calm Demo.pick)
                        (Demo.start Demo.two)))).
  vm_compute. reflexivity.
Defined.

(** X11.  When the deletion of an old key fails after the new keys were
    created, every deletion has still been issued, the run ends in an
    error, and the new keys are not printed, not even under [-o], nor is
    the closing line. *)
Theorem failed_deletion_hides_new_keys h a w sel p :
  (select h a w).1 = Ok sel ->
  (length sel = 1 \/ length sel = 2)%nat ->
  (forall t, exists k, createdAt h t = inr k) ->
  (forall q, In q sel ->
     Js.compile (sectionPattern (name q)) <> Js.Unsupported) ->
  In p sel ->
  (forall t, deleteResponse h t (accessKeyId p) <> None) ->
  (exists e, (run h a w).1 = Throw e)
  /\ List.filter isCreate (eventsOf (run h a) w)
     = repeat EvCreateAccessKey (length sel)
  /\ List.filter isDelete (eventsOf (run h a) w) = deleteCalls sel
  /\ List.filter isNote (eventsOf (run h a) w) = []
  /\ existsb isClosing (eventsOf (run h a) w) = false.
Proof.
  intros S Hl Hc Hn Hp Hd.
  destruct (rotateEach_completes h (Nat.eqb (length sel) 1) (envOf a) sel
              Hc Hn []
              (record (select h a w).2
                 [EvOutput (SpinnerStart (Nat.ltb 1 (length sel)))]))
    as (ks & w3 & evs0 & R & _).
  destruct (run_rotated h a w sel _ w3 S Hl R)
    as (loopEvs & tail & EV & T & C & LD & LN & LC & O).
  destruct (all_deleteResults_fails h sel p Hp Hd (Datatypes.S (length (trace w3))))
    as [e Ee].
  rewrite Ee in O. destruct O as [O1 ->].
  destruct (select_kinds h a w) as (SC & SD & SN).
  destruct (deleteCalls_kinds sel) as (DC & DN & DL).
  destruct (filter_deleteCalls sel) as (FD & _ & _).
  destruct (select_verdict h a w) as (_ & _ & SL & _). cbn zeta in SL.
  rewrite O1, EV. split; [exists e; reflexivity|].
  rewrite !List.filter_app, !existsb_app.
  cbn [List.filter isCreate isDelete isNote existsb isClosing app orb].
  rewrite (filter_none isCreate _ SC), C, (filter_none isCreate _ DC).
  rewrite (filter_none isDelete _ SD), (filter_none isDelete _ LD), FD.
  rewrite (filter_none isNote _ SN), (filter_none isNote _ LN),
    (filter_none isNote _ DN).
  rewrite SL, (existsb_forallb_false isClosing _ LC),
    (existsb_forallb_false isClosing _ DL).
  rewrite !app_nil_r. auto.
Qed.

Lemma failed_deletion_hides_new_keys_witness :
  (exists e,
     (run Sample.undeletable Demo.pick (Demo.start Demo.two)).1 = Throw e)
  /\ List.filter isCreate
       (eventsOf (run Sample.undeletable Demo.pick) (Demo.start Demo.two))
     = repeat EvCreateAccessKey 2
  /\ List.filter isDelete
       (eventsOf (run Sample.undeletable Demo.pick) (Demo.start Demo.two))
     = deleteCalls [Demo.defaultProfile; Demo.otherProfile "work"]
  /\ List.filter isNote
       (eventsOf (run Sample.undeletable Demo.pick) (Demo.start Demo.two))
     = []
  /\ existsb isClosing
       (eventsOf (run Sample.undeletable Demo.pick) (Demo.start Demo.two))
     = false.
Proof.
  apply (failed_deletion_hides_new_keys Sample.undeletable Demo.pick
           (Demo.start Demo.two)
           [Demo.defaultProfile; Demo.otherProfile "work"]
           Demo.defaultProfile).
  - vm_compute. reflexivity.
  - right. reflexivity.
  - intros t. eexists. reflexivity.
  - intros q [<-|[<-|[]]]; vm_compute; discriminate.
  - left. reflexivity.
  - intros t. discriminate.
Defined.

(** ** How many keys a run creates *)

Lemma count_create x evs rest :
  isCreate x = false ->
  forallb (fun e => negb (isCreate e)) rest = true ->
  List.filter isCreate (x :: evs ++ rest) = List.filter isCreate evs.
Proof.
  intros Hx Hr. cbn [List.filter]. rewrite Hx, List.filter_app.
  rewrite (filter_none isCreate rest Hr). apply app_nil_r.
Qed.

Section Counting.

Context (h : host).

Lemma rotateEach_creates_le (single : bool) (env : jsval) sel :
  forall rotated w,
  exists evs,
    trace (rotateEach h single env sel rotated w).2 = trace w ++ evs
    /\ (length (List.filter isCreate evs) <= length sel)%nat.
Proof.
  induction sel as [|p rest IH]; intros rotated w.
  - exists []. cbn. rewrite app_nil_r. auto.
  - cbn [rotateEach]. unfold bind at 1. rewrite rotateOne_eq. cbn zeta.
    destruct (createdAt h _) as [e|k].
    { exists [EvCreateAccessKey]. cbn. split; [reflexivity|lia]. }
    destruct (replaceCrendentials_inner h (name p) (tpl k.1) (tpl k.2)
                (if single then env else JBool false)
                (record w [EvCreateAccessKey])) as (e1 & T1 & I1).
    assert (C1 : List.filter isCreate e1 = []).
    { apply (filter_inner isCreate); [|assumption].
      intros e. unfold inner. destruct (isCreate e);
        [discriminate|reflexivity]. }
    destruct (replaceCrendentials h _ _ _ _ _) as [[[]|e|c|] w2];
      cbn [snd] in T1; cbn [trace record] in T1.
    + destruct (IH (rotated ++ [rotatedOf p k]) w2) as (e2 & T2 & L2).
      exists (EvCreateAccessKey :: e1 ++ e2). rewrite T2, T1, <- !app_assoc.
      split; [reflexivity|]. cbn [List.filter isCreate length].
      rewrite List.filter_app, C1. cbn [app]. lia.
    + destruct (IH (rotated ++ [rotatedOf p k])
                  (record w2 [EvOutput (LogFailedReplacing e)]))
        as (e2 & T2 & L2).
      exists (EvCreateAccessKey :: e1 ++ EvOutput (LogFailedReplacing e) :: e2).
      rewrite T2. cbn [trace record]. rewrite T1, <- !app_assoc.
      split; [reflexivity|]. cbn [List.filter isCreate length].
      rewrite List.filter_app, C1. cbn [app List.filter isCreate]. lia.
    + exists (EvCreateAccessKey :: e1). cbn [snd]. rewrite T1, <- !app_assoc.
      split; [reflexivity|]. cbn [List.filter isCreate length]. rewrite C1.
      cbn. lia.
    + exists (EvCreateAccessKey :: e1). cbn [snd]. rewrite T1, <- !app_assoc.
      split; [reflexivity|]. cbn [List.filter isCreate length]. rewrite C1.
      cbn. lia.
Qed.

(** Without [-p] the selection asks the provider for the profile
    [default] only, and does not read the credentials file. *)
Lemma select_default a w :
  argProfiles a = false ->
  let asked :=
    [EvOutput ConsoleLog; EvOutput Intro; EvFromIni (Js.lit "default");
     EvListAccessKeys] in
  match (select h a w).1 with
  | Ok sel =>
      eventsOf (select h a) w = asked
      /\ exists p, sel = [p] /\ name p = Js.lit "default"
  | Exit c =>
      c = 0%Z /\ eventsOf (select h a) w = asked ++ [EvOutput CancelNoKeys]
  | Throw e => eventsOf (select h a) w = asked
  | OutOfModel => False
  end.
Proof.
  intros P. cbn zeta. unfold eventsOf. rewrite select_eq, P. cbn zeta.
  rewrite getAllProfiles_eq. cbn zeta. rewrite record_record.
  cbn [List.map app length trace record].
  destruct (listResponse h _) as [e|keys];
    [cbn [fst snd trace record]; apply drop_app_length|].
  cbn [loadResults all].
  destruct (providerResponse h _ _) as [e|cred];
    [cbn [fst snd trace record]; apply drop_app_length|].
  cbn [joinProfiles List.map List.filter].
  destruct (hasCreateDate _); cbn [fst snd trace record List.filter].
  - unfold includes.
    rewrite bool_decide_eq_true_2 by (apply list_elem_of_singleton; reflexivity).
    split; [apply drop_app_length|]. eexists. split; reflexivity.
  - split; [reflexivity|]. rewrite <- app_assoc. apply drop_app_length.
Qed.

End Counting.

(** X8.  Without [-p] a run works on the profile [default] alone: it
    prints its banner, asks the provider for [default] and lists the
    remote keys, without reading the credentials file and without a
    prompt.  What follows is decided by the two answers.  When both
    arrive and a remote key has the access key id of [default] and a
    CreateDate, the selection is that one profile and the run goes on to
    rotate it.  When both arrive and no remote key has that id, or the
    first one that has it carries no CreateDate, the run prints "No
    existing access keys" and exits with 0.  When one of the two calls
    fails the run ends with that error and prints nothing more; when
    both fail it ends with one of the two errors. *)
Theorem default_profile_without_flag h a w :
  argProfiles a = false ->
  let t := length (trace w) in
  let asked :=
    [EvOutput ConsoleLog; EvOutput Intro; EvFromIni (Js.lit "default");
     EvListAccessKeys] in
  let stopped := record w (asked ++ [EvOutput CancelNoKeys]) in
  match providerResponse h (t + 2) (Js.lit "default"),
        listResponse h (t + 3) with
  | inr cred, inr keys =>
      match foundKey keys (loadedProfile (Js.lit "default") cred) with
      | Some key =>
          match kmCreateDate key with
          | Some d =>
              let prof := datedProfile (Js.lit "default") cred d in
              select h a w = (Ok [prof], record w asked)
              /\ run h a w = rotate h a (envOf a) [prof] (record w asked)
          | None =>
              select h a w = (Exit 0%Z, stopped)
              /\ run h a w = (Exit 0%Z, stopped)
          end
      | None =>
          select h a w = (Exit 0%Z, stopped)
          /\ run h a w = (Exit 0%Z, stopped)
      end
  | inl e, inr _ => run h a w = (Throw e, record w asked)
  | inr _, inl e => run h a w = (Throw e, record w asked)
  | inl e1, inl e2 =>
      exists e, (e = e1 \/ e = e2) /\ run h a w = (Throw e, record w asked)
  end.
Proof.
  intros P. cbn zeta.
  assert (S : select h a w
              = match listResponse h (length (trace w) + 3) with
                | inl e =>
                    (Throw e,
                     record w [EvOutput ConsoleLog; EvOutput Intro;
                               EvFromIni (Js.lit "default");
                               EvListAccessKeys])
                | inr keys =>
                    match providerResponse h (length (trace w) + 2)
                            (Js.lit "default") with
                    | inl e =>
                        (Throw e,
                         record w [EvOutput ConsoleLog; EvOutput Intro;
                                   EvFromIni (Js.lit "default");
                                   EvListAccessKeys])
                    | inr cred =>
                        match foundKey keys
                                (loadedProfile (Js.lit "default") cred) with
                        | Some {| kmCreateDate := Some d |} =>
                            (Ok [datedProfile (Js.lit "default") cred d],
                             record w [EvOutput ConsoleLog; EvOutput Intro;
                                       EvFromIni (Js.lit "default");
                                       EvListAccessKeys])
                        | _ =>
                            (Exit 0%Z,
                             record w
                               ([EvOutput ConsoleLog; EvOutput Intro;
                                 EvFromIni (Js.lit "default");
                                 EvListAccessKeys]
                                  ++ [EvOutput CancelNoKeys]))
                        end
                    end
                end).
  { rewrite select_eq, P. cbn zeta. rewrite getAllProfiles_eq. cbn zeta.
    rewrite record_record. cbn [List.map app length trace record].
    rewrite length_app. cbn [length].
    replace (length (trace w) + 2 + 1)%nat with (length (trace w) + 3)%nat
      by lia.
    destruct (listResponse h _) as [e|keys]; [reflexivity|].
    cbn [loadResults all].
    destruct (providerResponse h _ _) as [e|cred]; [reflexivity|].
    cbn [joinProfiles List.map List.filter].
    fold (loadedProfile (Js.lit "default") cred).
    unfold withCreateDate at 1. cbn [hasCreateDate createDate].
    destruct (foundKey keys _) as [[kid [d|]]|] eqn:F;
      cbn [kmCreateDate List.filter]; try (rewrite record_record; reflexivity).
    unfold withCreateDate. rewrite F.
    cbn [kmCreateDate loadedProfile name accessKeyId secretAccessKey
         hasCreateDate createDate List.filter].
    unfold includes.
    rewrite bool_decide_eq_true_2
      by (apply list_elem_of_singleton; reflexivity).
    reflexivity. }
  rewrite run_eq, S.
  destruct (providerResponse h _ _) as [e1|cred],
           (listResponse h _) as [e2|keys].
  - exists e2. auto.
  - reflexivity.
  - reflexivity.
  - destruct (foundKey keys _) as [[kid [d|]]|];
      cbn [kmCreateDate]; auto.
Qed.

(** X8 on four hosts: every call succeeds and [default] has a dated
    remote key; the remote keys are those of other users; the key of
    [default] carries no CreateDate; the listing of the keys fails. *)
Lemma default_profile_without_flag_witness :
  (select Demo.calm Demo.plain (Demo.start Demo.two)
   = (Ok [Demo.defaultProfile],
      record (Demo.start Demo.two)
        [EvOutput ConsoleLog; EvOutput Intro; EvFromIni (Js.lit "default");
         EvListAccessKeys])
   /\ run Demo.calm Demo.plain (Demo.start Demo.two)
      = rotate Demo.calm Demo.plain (envOf Demo.plain) [Demo.defaultProfile]
          (record (Demo.start Demo.two)
             [EvOutput ConsoleLog; EvOutput Intro;
              EvFromIni (Js.lit "default"); EvListAccessKeys]))
  /\ (select Sample.foreign Demo.plain (Demo.start Demo.two)
      = (Exit 0%Z,
         record (Demo.start Demo.two)
           ([EvOutput ConsoleLog; EvOutput Intro;
             EvFromIni (Js.lit "default"); EvListAccessKeys]
              ++ [EvOutput CancelNoKeys]))
      /\ run Sample.foreign Demo.plain (Demo.start Demo.two)
         = (Exit 0%Z,
            record (Demo.start Demo.two)
              ([EvOutput ConsoleLog; EvOutput Intro;
                EvFromIni (Js.lit "default"); EvListAccessKeys]
                 ++ [EvOutput CancelNoKeys])))
  /\ (select Sample.undated Demo.plain (Demo.start Demo.two)
      = (Exit 0%Z,
         record (Demo.start Demo.two)
           ([EvOutput ConsoleLog; EvOutput Intro;
             EvFromIni (Js.lit "default"); EvListAccessKeys]
              ++ [EvOutput CancelNoKeys]))
      /\ run Sample.undated Demo.plain (Demo.start Demo.two)
         = (Exit 0%Z,
            record (Demo.start Demo.two)
              ([EvOutput ConsoleLog; EvOutput Intro;
                EvFromIni (Js.lit "default"); EvListAccessKeys]
                 ++ [EvOutput CancelNoKeys])))
  /\ run Sample.unlisted Demo.plain (Demo.start Demo.two)
     = (Throw IamError,
        record (Demo.start Demo.two)
          [EvOutput ConsoleLog; EvOutput Intro;
           EvFromIni (Js.lit "default"); EvListAccessKeys]).
Proof.
  split; [|split; [|split]].
  - exact (default_profile_without_flag Demo.calm Demo.plain
             (Demo.start Demo.two) eq_refl).
  - exact (default_profile_without_flag Sample.foreign Demo.plain
             (Demo.start Demo.two) eq_refl).
  - exact (default_profile_without_flag Sample.undated Demo.plain
             (Demo.start Demo.two) eq_refl).
  - exact (default_profile_without_flag Sample.unlisted Demo.plain
             (Demo.start Demo.two) eq_refl).
Defined.

(** X12.  A run never creates more than two access keys, and without
    [-p] never more than one. *)
Theorem run_creates_at_most_two_keys h a w :
  (length (List.filter isCreate (eventsOf (run h a) w))
   <= if argProfiles a then 2 else 1)%nat.
Proof.
  destruct (select_kinds h a w) as (SC & _ & _).
  assert (G : forall sel,
             (select h a w).1 = Ok sel ->
             (length sel = 1 \/ length sel = 2)%nat ->
             (length (List.filter isCreate (eventsOf (run h a) w))
              <= length sel)%nat).
  { intros sel S Hl. rewrite (eventsOf_run h a w sel S Hl).
    rewrite List.filter_app, (filter_none isCreate _ SC). cbn [app].
    unfold eventsOf. rewrite rotate_eq. unfold bind.
    destruct (rotateEach_creates_le h (Nat.eqb (length sel) 1) (envOf a) sel []
                (record (select h a w).2
                   [EvOutput (SpinnerStart (Nat.ltb 1 (length sel)))]))
      as (evs & T & L).
    destruct (deleteCalls_kinds sel) as (DC & _ & _).
    destruct (rotateEach h _ _ sel [] _) as [[ks|e|c|] w3]; cbn [snd] in T.
    - rewrite finish_eq. cbn zeta.
      destruct (all _) as [e|l]; cbn [snd trace record]; rewrite T;
        cbn [trace record]; rewrite <- !app_assoc, drop_app_length;
        cbn [app]; rewrite count_create; try exact L; try reflexivity;
        cbn [forallb isCreate negb andb]; rewrite ?forallb_app, DC;
        [reflexivity|].
      destruct (argOutput a); [|reflexivity].
      destruct (notes_kinds ks) as [Q _]. rewrite andb_true_r.
      revert Q. apply forallb_imp.
      intros x. unfold mutating. destruct (isCreate x);
        [discriminate|reflexivity].
    - cbn [snd]. rewrite T. cbn [trace record].
      rewrite <- !app_assoc, drop_app_length. cbn [app].
      rewrite <- (app_nil_r evs), count_create; try exact L; reflexivity.
    - cbn [snd]. rewrite T. cbn [trace record].
      rewrite <- !app_assoc, drop_app_length. cbn [app].
      rewrite <- (app_nil_r evs), count_create; try exact L; reflexivity.
    - cbn [snd]. rewrite T. cbn [trace record].
      rewrite <- !app_assoc, drop_app_length. cbn [app].
      rewrite <- (app_nil_r evs), count_create; try exact L; reflexivity. }
  assert (Z : match (select h a w).1 with
              | Ok sel => (2 < length sel \/ length sel = 0)%nat
              | _ => True
              end ->
              List.filter isCreate (eventsOf (run h a) w) = []).
  { intros H. apply filter_none.
    generalize (run_without_rotation h a w H). apply forallb_imp.
    intros x. unfold mutating. destruct (isCreate x);
      [discriminate|reflexivity]. }
  destruct (argProfiles a) eqn:P.
  - destruct ((select h a w).1) as [sel|e|c|] eqn:S;
      try (rewrite Z by exact I; cbn; lia).
    destruct (selected_cases sel) as [H|H]; [rewrite (Z H); cbn; lia|].
    specialize (G sel eq_refl H). lia.
  - pose proof (select_default h a w P) as D. cbn zeta in D.
    destruct ((select h a w).1) as [sel|e|c|] eqn:S;
      try (rewrite Z by exact I; cbn; lia).
    destruct D as (_ & p & -> & _).
    exact (G [p] eq_refl (or_introl eq_refl)).
Qed.

(** ** The join of local profiles and remote keys *)

Lemma loadResults_lookup h profiles : forall t loaded,
  all (loadResults h t profiles) = inr loaded ->
  forall (i : nat) p,
    profiles !! i = Some p ->
    exists cred,
      providerResponse h (t + i) p = inr cred
      /\ In (loadedProfile p cred) loaded.
Proof.
  induction profiles as [|q rest IH]; intros t loaded A i p Hi;
    [discriminate|].
  cbn [loadResults all] in A.
  destruct (providerResponse h t q) as [e|cred] eqn:E; [discriminate|].
  destruct (all (loadResults h (S t) rest)) as [e|l] eqn:A2; [discriminate|].
  injection A as <-. destruct i as [|i].
  - cbn in Hi. injection Hi as <-. exists cred. rewrite Nat.add_0_r.
    split; [exact E|left; reflexivity].
  - cbn in Hi. destruct (IH (S t) l A2 i p Hi) as (c & Hc & Hin).
    exists c. replace (t + S i)%nat with (S t + i)%nat by lia.
    split; [exact Hc|right; exact Hin].
Qed.

Lemma joinProfiles_sublist accessKeys loaded :
  sublist (List.map name (joinProfiles accessKeys loaded))
    (List.map name loaded).
Proof.
  unfold joinProfiles. induction loaded as [|p rest IH]; [constructor|].
  cbn [List.map List.filter].
  destruct (hasCreateDate (withCreateDate accessKeys p)).
  - cbn [List.map withCreateDate name]. apply sublist_skip. exact IH.
  - cbn [List.map]. apply sublist_cons. exact IH.
Qed.

Lemma joinProfiles_complete keys loaded p cred key d :
  In (loadedProfile p cred) loaded ->
  List.find (sameKeyId (loadedProfile p cred)) keys = Some key ->
  kmCreateDate key = Some d ->
  In (datedProfile p cred d) (joinProfiles (Some keys) loaded).
Proof.
  intros Hin Hf Hd. unfold joinProfiles. apply filter_In. split.
  - apply in_map_iff. exists (loadedProfile p cred). split; [|exact Hin].
    unfold withCreateDate, foundKey. rewrite Hf, Hd. reflexivity.
  - reflexivity.
Qed.

(** X9.  When [getAllProfiles] returns, every provider call returned
    credentials (one failure rejects the whole call); the names of the
    result are among the requested names, in their order; a profile is in
    the result, with its date, whenever the first remote key with its
    access key id has a CreateDate; and without a list of remote keys
    ([AccessKeyMetadata] undefined) the result is empty. *)
Theorem getAllProfiles_complete_in_order h profiles w result :
  (getAllProfiles h profiles w).1 = Ok result ->
  sublist (List.map name result) profiles
  /\ (listResponse h (length (trace w) + length profiles) = inr None ->
      result = [])
  /\ forall (i : nat) p,
       profiles !! i = Some p ->
       exists cred,
         providerResponse h (length (trace w) + i) p = inr cred
         /\ forall keys key d,
              listResponse h (length (trace w) + length profiles)
              = inr (Some keys) ->
              List.find (sameKeyId (loadedProfile p cred)) keys = Some key ->
              kmCreateDate key = Some d ->
              In (datedProfile p cred d) result.
Proof.
  rewrite getAllProfiles_eq. cbn zeta.
  destruct (listResponse h _) as [e|accessKeys]; [discriminate|].
  destruct (all _) as [e|loaded] eqn:A; [discriminate|].
  intros [= <-]. destruct (loadResults_names h _ _ _ A) as [N _].
  split; [|split].
  - rewrite <- N. apply joinProfiles_sublist.
  - intros [= ->]. unfold joinProfiles. clear.
    induction loaded as [|p rest IH]; [reflexivity|exact IH].
  - intros i p Hi.
    destruct (loadResults_lookup h _ _ _ A i p Hi) as (cred & Hc & Hin).
    exists cred. split; [exact Hc|]. intros keys key d [= ->] Hf Hd.
    apply (joinProfiles_complete keys loaded p cred key d); assumption.
Qed.

Lemma getAllProfiles_complete_in_order_witness :
  sublist (List.map name [Demo.defaultProfile; Demo.otherProfile "work"])
    [Js.lit "default"; Js.lit "work"]
  /\ (listResponse Demo.calm
        (length (trace (Demo.start Demo.two))
         + length [Js.lit "default"; Js.lit "work"]) = inr None ->
      [Demo.defaultProfile; Demo.otherProfile "work"] = [])
  /\ forall (i : nat) p,
       [Js.lit "default"; Js.lit "work"] !! i = Some p ->
       exists cred,
         providerResponse Demo.calm
           (length (trace (Demo.start Demo.two)) + i) p = inr cred
         /\ forall keys key d,
              listResponse Demo.calm
                (length (trace (Demo.start Demo.two))
                 + length [Js.lit "default"; Js.lit "work"])
              = inr (Some keys) ->
              List.find (sameKeyId (loadedProfile p cred)) keys = Some key ->
              kmCreateDate key = Some d ->
              In (datedProfile p cred d)
                [Demo.defaultProfile; Demo.otherProfile "work"].
Proof.
  apply (getAllProfiles_complete_in_order Demo.calm
           [Js.lit "default"; Js.lit "work"] (Demo.start Demo.two)).
  vm_compute. reflexivity.
Defined.

(** ** A rotation of the default profile, end to end *)

Section Default.

Context (h : host).

Lemma select_default_found a w cred keys key d :
  argProfiles a = false ->
  (forall t, providerResponse h t (Js.lit "default") = inr cred) ->
  (forall t, listResponse h t = inr (Some keys)) ->
  List.find (sameKeyId (loadedProfile (Js.lit "default") cred)) keys
  = Some key ->
  kmCreateDate key = Some d ->
  select h a w
  = (Ok [datedProfile (Js.lit "default") cred d],
     record w [EvOutput ConsoleLog; EvOutput Intro;
               EvFromIni (Js.lit "default"); EvListAccessKeys]).
Proof.
  intros P Hp Hl Hf Hd. rewrite select_eq, P. cbn zeta.
  rewrite getAllProfiles_eq. cbn zeta. rewrite Hl, record_record.
  cbn [loadResults all]. rewrite Hp.
  cbn [joinProfiles List.map List.filter].
  fold (loadedProfile (Js.lit "default") cred).
  unfold withCreateDate at 1, foundKey. rewrite Hf, Hd.
  cbn [hasCreateDate createDate List.filter].
  unfold withCreateDate, foundKey. rewrite Hf, Hd.
  cbn [loadedProfile name accessKeyId secretAccessKey].
  unfold includes.
  rewrite bool_decide_eq_true_2 by (apply list_elem_of_singleton; reflexivity).
  reflexivity.
Qed.

End Default.

(** X10.  A run without [-p] and without [-e], on a host where the
    provider, the IAM calls and the credentials file do not fail: when
    [default] has a remote key with a CreateDate and the first line of
    the credentials file that starts with [[default]] opens a
    well-formed key block, the run creates one key, rewrites that block
    with the new id and secret (the text [undefined] for a field the
    response lacks) and nothing else of the file, deletes the old key of
    [default], prints the new key under [-o] only, and completes.  The
    calls are exactly those listed. *)
Theorem default_run_rotates_default_block
    h a w cred keys key d newKey pre oldId oldSecret post :
  let file :=
    pre ++ header (Js.lit "default") ++ [10]
      ++ (Js.lit "aws_access_key_id=" ++ oldId) ++ [10]
      ++ (Js.lit "aws_secret_access_key=" ++ oldSecret) ++ post in
  let id := tpl (akAccessKeyId newKey) in
  let secret := tpl (akSecretAccessKey newKey) in
  let newFile :=
    pre ++ newDefaultProfile (Js.lit "default") id secret ++ post in
  argProfiles a = false ->
  (forall s, envOf a <> JString s) ->
  (forall t, providerResponse h t (Js.lit "default") = inr cred) ->
  (forall t, listResponse h t = inr (Some keys)) ->
  List.find (sameKeyId (loadedProfile (Js.lit "default") cred)) keys
  = Some key ->
  kmCreateDate key = Some d ->
  (forall t, createResponse h t = inr (Some newKey)) ->
  (forall t k, deleteResponse h t k = None) ->
  (forall t, readFault h t (credentialsPath h) = false) ->
  (forall t, writeFault h t (credentialsPath h) = false) ->
  fs w !! credentialsPath h = Some file ->
  firstLineWith (header (Js.lit "default")) None file = Some (length pre) ->
  noLineTerminator oldId = true -> noLineTerminator oldSecret = true ->
  Js.atEol post = true ->
  noDollar id = true -> noDollar secret = true ->
  (run h a w).1 = Ok tt
  /\ fs (run h a w).2 = <[credentialsPath h := newFile]> (fs w)
  /\ eventsOf (run h a) w
     = [EvOutput ConsoleLog; EvOutput Intro; EvFromIni (Js.lit "default");
        EvListAccessKeys; EvOutput (SpinnerStart false); EvCreateAccessKey;
        EvReadFile (credentialsPath h);
        EvWriteFile (credentialsPath h) newFile;
        EvOutput (SpinnerStop 1 false);
        EvDeleteAccessKey (crAccessKeyId cred)]
         ++ (if argOutput a
             then [EvOutput (Note {| rkName := Js.lit "default";
                                     rkKey := akAccessKeyId newKey;
                                     rkSecret := akSecretAccessKey newKey |})]
             else [])
         ++ [EvOutput OutroComplete].
Proof.
  intros file id secret newFile P He Hp Hl Hf Hd Hc Hdel Hr Hw Hfile Hfirst
    Ho1 Ho2 Hpost Di Ds.
  unfold eventsOf. rewrite run_eq.
  rewrite (select_default_found h a w cred keys key d P Hp Hl Hf Hd).
  cbn [length Nat.ltb Nat.leb Nat.eqb].
  rewrite rotate_single_eq, rotateOne_eq. cbn zeta.
  unfold createdAt. rewrite Hc.
  rewrite replaceCrendentials_eq. cbn zeta.
  unfold fileRead. rewrite Hr. cbn [fs record].
  rewrite Hfile.
  cbn [datedProfile name].
  rewrite (compile_sectionPattern (Js.lit "default") eq_refl).
  rewrite Hw. cbn [fst snd]. fold id secret.
  assert (R : Js.replace (sectionRe (Js.lit "default")) file
                (newDefaultProfile (Js.lit "default") id secret) = newFile).
  { apply (replace_section (Js.lit "default") pre
             (Js.lit "aws_access_key_id=" ++ oldId)
             (Js.lit "aws_secret_access_key=" ++ oldSecret) post).
    - exact Hfirst.
    - apply keyLine_prefixed; [reflexivity|exact Ho1].
    - apply keyLine_prefixed; [reflexivity|exact Ho2].
    - exact Hpost.
    - apply newDefaultProfile_noDollar; [reflexivity|exact Di|exact Ds]. }
  rewrite R.
  destruct (envOf a) as [|b|s|] eqn:E; try (exfalso; exact (He s eq_refl));
    rewrite finish_eq; cbn zeta; cbn [deleteResults all]; rewrite Hdel;
    cbn [fst snd fs trace record store deleteCalls List.map accessKeyId
           datedProfile notes length Nat.ltb Nat.leb];
    (split; [reflexivity|]); (split; [reflexivity|]);
    rewrite <- !app_assoc, drop_app_length; cbn [app];
    destruct (argOutput a); reflexivity.
Qed.

Lemma default_run_rotates_default_block_witness :
  (run Demo.calm Demo.plain (Demo.start Demo.two)).1 = Ok tt
  /\ fs (run Demo.calm Demo.plain (Demo.start Demo.two)).2
     = <[Demo.home :=
           Demo.unlines
             ["[default]"; "aws_access_key_id=AKIANEW";
              "aws_secret_access_key=SECNEW";
              "[work]"; "aws_access_key_id=AKIAWRK";
              "aws_secret_access_key=SECWRK"]%string]>
         (fs (Demo.start Demo.two))
  /\ eventsOf (run Demo.calm Demo.plain) (Demo.start Demo.two)
     = [EvOutput ConsoleLog; EvOutput Intro; EvFromIni (Js.lit "default");
        EvListAccessKeys; EvOutput (SpinnerStart false); EvCreateAccessKey;
        EvReadFile Demo.home;
        EvWriteFile Demo.home
          (Demo.unlines
             ["[default]"; "aws_access_key_id=AKIANEW";
              "aws_secret_access_key=SECNEW";
              "[work]"; "aws_access_key_id=AKIAWRK";
              "aws_secret_access_key=SECWRK"]%string);
        EvOutput (SpinnerStop 1 false);
        EvDeleteAccessKey (Js.lit "AKIAOLD")]
         ++ [] ++ [EvOutput OutroComplete].
Proof.
  exact (default_run_rotates_default_block Demo.calm Demo.plain
           (Demo.start Demo.two)
           {| crAccessKeyId := Js.lit "AKIAOLD";
              crSecretAccessKey := Js.lit "SECRET" |}
           Demo.remote
           {| kmAccessKeyId := Some (Js.lit "AKIAOLD");
              kmCreateDate := Some (Date 1700000000000) |}
           (Date 1700000000000)
           {| akAccessKeyId := Some (Js.lit "AKIANEW");
              akSecretAccessKey := Some (Js.lit "SECNEW") |}
           [] (Js.lit "AKIAOLD") (Js.lit "SECOLD")
           (10 :: Demo.unlines
                    ["[work]"; "aws_access_key_id=AKIAWRK";
                     "aws_secret_access_key=SECWRK"]%string)
           eq_refl ltac:(discriminate) (fun _ => eq_refl) (fun _ => eq_refl)
           eq_refl eq_refl (fun _ => eq_refl) (fun _ _ => eq_refl)
           (fun _ => eq_refl) (fun _ => eq_refl) eq_refl eq_refl
           eq_refl eq_refl eq_refl eq_refl eq_refl).
Defined.

(** ** The key block, line by line *)

Lemma joinLines_app_cons before x rest :
  joinLines (before ++ x :: rest) = linesBefore before ++ joinLines (x :: rest).
Proof.
  induction before as [|b bs IH]; [reflexivity|].
  change ((b :: bs) ++ x :: rest) with (b :: (bs ++ x :: rest)).
  rewrite joinLines_cons.
  assert (T : tailText (bs ++ x :: rest) = 10 :: joinLines (bs ++ x :: rest))
    by (destruct bs; reflexivity).
  rewrite T, IH. unfold linesBefore. cbn [List.map concat].
  rewrite <- !app_assoc. reflexivity.
Qed.

Lemma startsWith_line p : forall l rest,
  noLineTerminator p = true -> startsWith p l = false ->
  startsWith p (l ++ 10 :: rest) = false.
Proof.
  induction p as [|c p IH]; intros l rest Hp Hl; [discriminate|].
  cbn [noLineTerminator forallb] in Hp. apply andb_prop in Hp as [Hc Hp].
  destruct l as [|d l]; cbn [app startsWith] in *.
  - destruct (N.eqb_spec 10 c) as [<-|_]; [discriminate|reflexivity].
  - destruct (d =? c); [|reflexivity]. cbn [andb] in *.
    apply IH; assumption.
Qed.

Lemma firstLineWith_inside p l : forall prev rest,
  Js.atBol prev = false -> noLineTerminator l = true ->
  firstLineWith p prev (l ++ 10 :: rest)
  = option_map (fun n => (length l + 1 + n)%nat)
      (firstLineWith p (Some 10) rest).
Proof.
  induction l as [|c l IH]; intros prev rest Hb Hl.
  - cbn [app firstLineWith]. rewrite Hb. cbn [andb length].
    destruct (firstLineWith p (Some 10) rest); reflexivity.
  - cbn [noLineTerminator forallb] in Hl. apply andb_prop in Hl as [Hc Hl].
    apply negb_true_iff in Hc.
    cbn [app firstLineWith]. rewrite Hb. cbn [andb].
    rewrite (IH (Some c) rest Hc Hl).
    destruct (firstLineWith p (Some 10) rest); reflexivity.
Qed.

Lemma firstLineWith_skip_line p l prev rest :
  noLineTerminator p = true -> noLineTerminator l = true ->
  startsWith p l = false ->
  firstLineWith p prev (l ++ 10 :: rest)
  = option_map (fun n => (length l + 1 + n)%nat)
      (firstLineWith p (Some 10) rest).
Proof.
  intros Hp Hl Hs. pose proof (startsWith_line p l rest Hp Hs) as Hs2.
  destruct l as [|c l].
  - cbn [app firstLineWith] in *. rewrite Hs2, andb_false_r. cbn [length].
    destruct (firstLineWith p (Some 10) rest); reflexivity.
  - cbn [noLineTerminator forallb] in Hl. apply andb_prop in Hl as [Hc Hl].
    apply negb_true_iff in Hc.
    cbn [app firstLineWith] in *. rewrite Hs2, andb_false_r.
    rewrite (firstLineWith_inside p l (Some c) rest Hc Hl).
    destruct (firstLineWith p (Some 10) rest); reflexivity.
Qed.

Lemma firstLineWith_lines p before rest :
  p <> [] -> noLineTerminator p = true ->
  noLineTerminators before = true ->
  forallb (fun l => negb (startsWith p l)) before = true ->
  forall prev,
    Js.atBol prev = true ->
    firstLineWith p prev (linesBefore before ++ p ++ rest)
    = Some (length (linesBefore before)).
Proof.
  intros Hp0 Hp. induction before as [|b bs IH]; intros Hls Hb prev Hprev.
  - cbn [linesBefore List.map concat app length].
    destruct p as [|c p]; [congruence|].
    cbn [app firstLineWith]. rewrite Hprev.
    change (c :: p ++ rest) with ((c :: p) ++ rest).
    rewrite startsWith_app. reflexivity.
  - cbn [noLineTerminators forallb] in Hls, Hb.
    apply andb_prop in Hls as [Hl Hls]. apply andb_prop in Hb as [Hs Hb].
    apply negb_true_iff in Hs.
    unfold linesBefore. cbn [List.map concat]. fold (linesBefore bs).
    rewrite <- !app_assoc. cbn [app].
    rewrite (firstLineWith_skip_line p b prev _ Hp Hl Hs).
    rewrite (IH Hls Hb (Some 10) eq_refl). cbn [option_map].
    rewrite !length_app. cbn [length]. f_equal. lia.
Qed.

Lemma literalName_header name : header name <> [].
Proof. discriminate. Qed.

Lemma noLineTerminator_header name :
  noLineTerminator name = true -> noLineTerminator (header name) = true.
Proof.
  intros H. unfold header. rewrite !noLineTerminator_app, H. reflexivity.
Qed.

Lemma joinLines_block name id secret after :
  joinLines (blockLines name id secret ++ after)
  = newDefaultProfile name id secret ++ tailText after.
Proof.
  unfold blockLines, newDefaultProfile, header.
  cbn [app]. rewrite !joinLines_cons.
  cbn [tailText]. rewrite !joinLines_cons. cbn [tailText].
  rewrite joinLines_cons.
  change (Js.lit "[") with [91]. change (Js.lit "]") with [93].
  cbn [app]. repeat (rewrite <- app_assoc; cbn [app]). reflexivity.
Qed.

(** The replacement of line 65 on a file given by its lines. *)
Lemma replace_blockLines name id secret before oldId oldSecret after :
  noLineTerminator name = true ->
  noDollar (newDefaultProfile name id secret) = true ->
  noLineTerminators (before ++ blockLines name oldId oldSecret ++ after)
  = true ->
  forallb (fun l => negb (startsWith (header name) l)) before = true ->
  Js.replace (sectionRe name)
    (joinLines (before ++ blockLines name oldId oldSecret ++ after))
    (newDefaultProfile name id secret)
  = joinLines (before ++ blockLines name id secret ++ after).
Proof.
  intros Hn Hd Hls Hb.
  unfold noLineTerminators in Hls. rewrite !forallb_app in Hls.
  apply andb_prop in Hls as [Hbefore Hrest].
  apply andb_prop in Hrest as [Hblock Hafter].
  cbn [blockLines forallb] in Hblock.
  apply andb_prop in Hblock as [_ Hblock].
  apply andb_prop in Hblock as [H1 Hblock].
  apply andb_prop in Hblock as [H2 _].
  rewrite noLineTerminator_app in H1, H2.
  apply andb_prop in H1 as [_ H1]. apply andb_prop in H2 as [_ H2].
  change (before ++ blockLines name oldId oldSecret ++ after)
    with (before ++ header name
            :: ([Js.lit "aws_access_key_id=" ++ oldId;
                 Js.lit "aws_secret_access_key=" ++ oldSecret] ++ after)).
  change (before ++ blockLines name id secret ++ after)
    with (before ++ header name
            :: ([Js.lit "aws_access_key_id=" ++ id;
                 Js.lit "aws_secret_access_key=" ++ secret] ++ after)).
  rewrite !joinLines_app_cons.
  change (header name
            :: [Js.lit "aws_access_key_id=" ++ id;
                Js.lit "aws_secret_access_key=" ++ secret] ++ after)
    with (blockLines name id secret ++ after).
  rewrite (joinLines_block name id secret after).
  cbn [app]. rewrite !joinLines_cons. cbn [tailText].
  rewrite !joinLines_cons. cbn [tailText]. rewrite joinLines_cons.
  apply (replace_section name (linesBefore before)
           (Js.lit "aws_access_key_id=" ++ oldId)
           (Js.lit "aws_secret_access_key=" ++ oldSecret) (tailText after)).
  - apply (firstLineWith_lines (header name) before); try assumption;
      [discriminate|apply noLineTerminator_header; exact Hn|reflexivity].
  - apply keyLine_prefixed; [reflexivity|exact H1].
  - apply keyLine_prefixed; [reflexivity|exact H2].
  - apply atEol_tailText.
  - exact Hd.
Qed.

Lemma endsWith_snoc c l : endsWith c (l ++ [c]) = true.
Proof.
  induction l as [|d l IH]; [apply N.eqb_refl|].
  cbn [app endsWith]. destruct (l ++ [c]) eqn:E; [|exact IH].
  destruct l; discriminate.
Qed.

Lemma filter_header_block name id secret :
  List.filter isHeaderLine (blockLines name id secret) = [header name].
Proof.
  unfold blockLines. cbn [List.filter].
  assert (H : isHeaderLine (header name) = true).
  { unfold header. cbn [app isHeaderLine]. rewrite endsWith_snoc. reflexivity. }
  rewrite H. reflexivity.
Qed.

Lemma slice1_header name : slice1 (header name) = name.
Proof.
  unfold slice1, header. cbn [app List.tl]. apply removelast_last.
Qed.

Lemma noLineTerminators_block name id secret :
  noLineTerminator name = true ->
  noLineTerminator id = true -> noLineTerminator secret = true ->
  noLineTerminators (blockLines name id secret) = true.
Proof.
  intros Hn Hi Hs. unfold noLineTerminators, blockLines. cbn [forallb].
  rewrite (noLineTerminator_header name Hn), !noLineTerminator_app, Hi, Hs.
  reflexivity.
Qed.

Lemma noLineTerminators_swap before block1 block2 after :
  noLineTerminators (before ++ block1 ++ after) = true ->
  noLineTerminators block2 = true ->
  noLineTerminators (before ++ block2 ++ after) = true.
Proof.
  unfold noLineTerminators. rewrite !forallb_app.
  intros [-> [_ ->]%andb_prop]%andb_prop ->. reflexivity.
Qed.

Section BlockLines.

Context (h : host).

(** [replaceCrendentials] on a file given by its lines: the block of the
    profile is the first one headed by its name. *)
Lemma replaceCrendentials_lines
    name id secret env w before oldId oldSecret after :
  literalName name = true -> noLineTerminator name = true ->
  noDollar id = true -> noDollar secret = true ->
  noLineTerminators (before ++ blockLines name oldId oldSecret ++ after)
  = true ->
  forallb (fun l => negb (startsWith (header name) l)) before = true ->
  fileRead h w (credentialsPath h)
  = Some (joinLines (before ++ blockLines name oldId oldSecret ++ after)) ->
  writeFault h (S (length (trace w))) (credentialsPath h) = false ->
  envAway h env ->
  let r := replaceCrendentials h name id secret env w in
  r.1 = Ok tt
  /\ fs r.2 !! credentialsPath h
     = Some (joinLines (before ++ blockLines name id secret ++ after)).
Proof.
  intros Hl Hn Di Ds Hls Hb Hf Hw He.
  destruct (replaceCrendentials_written h name id secret env w _ _ Hf
              (compile_sectionPattern name Hl) Hw) as (R1 & R2 & _).
  cbn zeta. split; [exact R1|]. rewrite (R2 He). f_equal.
  apply replace_blockLines; try assumption.
  apply newDefaultProfile_noDollar; assumption.
Qed.

End BlockLines.

(** X13.  Rotating a profile does not change which profiles the program
    lists: for a credentials file given by its lines, in which the first
    line that starts with [[name]] is followed by the two key lines of
    the profile, [replaceCrendentials] replaces exactly these three lines
    by the new block, and what [getAllCredentialProfiles] returns
    afterwards is what it returned before, the name of the rotated
    profile included. *)
Theorem replaceCrendentials_keeps_profile_names
    h name id secret env w before oldId oldSecret after :
  let ls := before ++ blockLines name oldId oldSecret ++ after in
  let newLs := before ++ blockLines name id secret ++ after in
  let r := replaceCrendentials h name id secret env w in
  literalName name = true -> noLineTerminator name = true ->
  noDollar id = true -> noDollar secret = true ->
  noLineTerminator id = true -> noLineTerminator secret = true ->
  noLineTerminators ls = true ->
  forallb (fun l => negb (startsWith (header name) l)) before = true ->
  fileRead h w (credentialsPath h) = Some (joinLines ls) ->
  writeFault h (S (length (trace w))) (credentialsPath h) = false ->
  envAway h env ->
  readFault h (length (trace r.2)) (credentialsPath h) = false ->
  r.1 = Ok tt
  /\ fs r.2 !! credentialsPath h = Some (joinLines newLs)
  /\ (getAllCredentialProfiles h r.2).1 = (getAllCredentialProfiles h w).1
  /\ exists names,
       (getAllCredentialProfiles h r.2).1 = Ok names /\ In name names.
Proof.
  intros ls newLs r Hl Hn Di Ds Ni Ns Hls Hb Hf Hw He Hr.
  destruct (replaceCrendentials_lines h name id secret env w before oldId
              oldSecret after Hl Hn Di Ds Hls Hb Hf Hw He) as [R1 R2].
  fold r in R1, R2. fold newLs in R2.
  assert (Hnew : noLineTerminators newLs = true).
  { apply (noLineTerminators_swap before (blockLines name oldId oldSecret));
      [exact Hls|]. apply noLineTerminators_block; assumption. }
  assert (F2 : fileRead h r.2 (credentialsPath h) = Some (joinLines newLs)).
  { unfold fileRead. rewrite Hr. exact R2. }
  rewrite !getAllCredentialProfiles_eq, Hf, F2. cbn [fst].
  rewrite (profileNames_joinLines ls Hls), (profileNames_joinLines newLs Hnew).
  unfold ls, newLs. rewrite !List.filter_app, !filter_header_block.
  repeat split; try assumption.
  eexists. split; [reflexivity|].
  rewrite !List.map_app. apply in_or_app. right. apply in_or_app. left.
  left. apply slice1_header.
Qed.

Lemma replaceCrendentials_keeps_profile_names_witness :
  let ls :=
    blockLines (Js.lit "default") (Js.lit "AKIAOLD") (Js.lit "SECOLD")
      ++ blockLines (Js.lit "work") (Js.lit "AKIAWRK") (Js.lit "SECWRK")
      ++ [[]] in
  let r := replaceCrendentials Demo.calm (Js.lit "work") (Js.lit "AKIANEW")
             (Js.lit "SECNEW") (JString (Js.lit ".env"))
             (Demo.start (joinLines ls)) in
  r.1 = Ok tt
  /\ fs r.2 !! Demo.home
     = Some (joinLines
               (blockLines (Js.lit "default") (Js.lit "AKIAOLD")
                  (Js.lit "SECOLD")
                  ++ blockLines (Js.lit "work") (Js.lit "AKIANEW")
                       (Js.lit "SECNEW")
                  ++ [[]]))
  /\ (getAllCredentialProfiles Demo.calm r.2).1
     = (getAllCredentialProfiles Demo.calm (Demo.start (joinLines ls))).1
  /\ exists names,
       (getAllCredentialProfiles Demo.calm r.2).1 = Ok names
       /\ In (Js.lit "work") names.
Proof.
  exact (replaceCrendentials_keeps_profile_names Demo.calm (Js.lit "work")
           (Js.lit "AKIANEW") (Js.lit "SECNEW") (JString (Js.lit ".env"))
           (Demo.start
              (joinLines
                 (blockLines (Js.lit "default") (Js.lit "AKIAOLD")
                    (Js.lit "SECOLD")
                    ++ blockLines (Js.lit "work") (Js.lit "AKIAWRK")
                         (Js.lit "SECWRK")
                    ++ [[]])))
           (blockLines (Js.lit "default") (Js.lit "AKIAOLD") (Js.lit "SECOLD"))
           (Js.lit "AKIAWRK") (Js.lit "SECWRK") [[]]
           eq_refl eq_refl eq_refl eq_refl eq_refl eq_refl eq_refl eq_refl
           eq_refl eq_refl ltac:(vm_compute; discriminate) eq_refl).
Defined.

(** X14.  A second rotation of a profile overrides the first: after two
    calls of [replaceCrendentials] for the same profile the credentials
    file is what the second call alone would have made of the original
    file; the block the program writes is one it finds again. *)
Theorem replaceCrendentials_twice_is_last
    h name id1 secret1 env1 id2 secret2 env2 w before oldId oldSecret after :
  let ls := before ++ blockLines name oldId oldSecret ++ after in
  let r1 := replaceCrendentials h name id1 secret1 env1 w in
  let r2 := replaceCrendentials h name id2 secret2 env2 r1.2 in
  literalName name = true -> noLineTerminator name = true ->
  noDollar id1 = true -> noDollar secret1 = true ->
  noLineTerminator id1 = true -> noLineTerminator secret1 = true ->
  noDollar id2 = true -> noDollar secret2 = true ->
  noLineTerminators ls = true ->
  forallb (fun l => negb (startsWith (header name) l)) before = true ->
  fs w !! credentialsPath h = Some (joinLines ls) ->
  (forall t, readFault h t (credentialsPath h) = false) ->
  (forall t, writeFault h t (credentialsPath h) = false) ->
  envAway h env1 -> envAway h env2 ->
  r2.1 = Ok tt
  /\ fs r2.2 !! credentialsPath h
     = Some (joinLines (before ++ blockLines name id2 secret2 ++ after))
  /\ fs r2.2 !! credentialsPath h
     = fs (replaceCrendentials h name id2 secret2 env2 w).2
         !! credentialsPath h.
Proof.
  intros ls r1 r2 Hl Hn D1 D1' N1 N1' D2 D2' Hls Hb Hf Hr Hw He1 He2.
  assert (F : forall w0 file,
             fs w0 !! credentialsPath h = Some file ->
             fileRead h w0 (credentialsPath h) = Some file).
  { intros w0 file H0. unfold fileRead. rewrite Hr. exact H0. }
  destruct (replaceCrendentials_lines h name id1 secret1 env1 w before oldId
              oldSecret after Hl Hn D1 D1' Hls Hb (F _ _ Hf) (Hw _) He1)
    as [_ R1]. fold r1 in R1.
  assert (Hls1 : noLineTerminators
                   (before ++ blockLines name id1 secret1 ++ after) = true).
  { apply (noLineTerminators_swap before (blockLines name oldId oldSecret));
      [exact Hls|]. apply noLineTerminators_block; assumption. }
  destruct (replaceCrendentials_lines h name id2 secret2 env2 r1.2 before id1
              secret1 after Hl Hn D2 D2' Hls1 Hb (F _ _ R1) (Hw _) He2)
    as [R2 R3]. fold r2 in R2, R3.
  destruct (replaceCrendentials_lines h name id2 secret2 env2 w before oldId
              oldSecret after Hl Hn D2 D2' Hls Hb (F _ _ Hf) (Hw _) He2)
    as [_ R4].
  rewrite R3, R4. auto.
Qed.

Lemma replaceCrendentials_twice_is_last_witness :
  let ls :=
    blockLines (Js.lit "default") (Js.lit "AKIAOLD") (Js.lit "SECOLD")
      ++ blockLines (Js.lit "work") (Js.lit "AKIAWRK") (Js.lit "SECWRK")
      ++ [[]] in
  let r1 := replaceCrendentials Demo.calm (Js.lit "work") (Js.lit "AKIAONE")
              (Js.lit "SECONE") (JBool false) (Demo.start (joinLines ls)) in
  let r2 := replaceCrendentials Demo.calm (Js.lit "work") (Js.lit "AKIATWO")
              (Js.lit "SECTWO") (JBool false) r1.2 in
  r2.1 = Ok tt
  /\ fs r2.2 !! Demo.home
     = Some (joinLines
               (blockLines (Js.lit "default") (Js.lit "AKIAOLD")
                  (Js.lit "SECOLD")
                  ++ blockLines (Js.lit "work") (Js.lit "AKIATWO")
                       (Js.lit "SECTWO")
                  ++ [[]]))
  /\ fs r2.2 !! Demo.home
     = fs (replaceCrendentials Demo.calm (Js.lit "work") (Js.lit "AKIATWO")
             (Js.lit "SECTWO") (JBool false) (Demo.start (joinLines ls))).2
         !! Demo.home.
Proof.
  exact (replaceCrendentials_twice_is_last Demo.calm (Js.lit "work")
           (Js.lit "AKIAONE") (Js.lit "SECONE") (JBool false)
           (Js.lit "AKIATWO") (Js.lit "SECTWO") (JBool false)
           (Demo.start
              (joinLines
                 (blockLines (Js.lit "default") (Js.lit "AKIAOLD")
                    (Js.lit "SECOLD")
                    ++ blockLines (Js.lit "work") (Js.lit "AKIAWRK")
                         (Js.lit "SECWRK")
                    ++ [[]])))
           (blockLines (Js.lit "default") (Js.lit "AKIAOLD") (Js.lit "SECOLD"))
           (Js.lit "AKIAWRK") (Js.lit "SECWRK") [[]]
           eq_refl eq_refl eq_refl eq_refl eq_refl eq_refl eq_refl eq_refl
           eq_refl eq_refl eq_refl (fun _ => eq_refl) (fun _ => eq_refl) I I).
Defined.

(** ** A key creation that fails *)

Section Failure.

Context (h : host).

(** In the loop, a creation that fails is the last call, and its error
    is the outcome. *)
Lemma rotateEach_failed (single : bool) (env : jsval) sel :
  forall rotated w pre post e,
  trace (rotateEach h single env sel rotated w).2
  = trace w ++ pre ++ EvCreateAccessKey :: post ->
  createdAt h (length (trace w) + length pre) = inl e ->
  post = [] /\ (rotateEach h single env sel rotated w).1 = Throw e.
Proof.
  induction sel as [|p rest IH]; intros rotated w pre post e.
  - cbn [rotateEach ret snd]. intros E. exfalso.
    rewrite <- (app_nil_r (trace w)) in E at 1. apply app_inv_head in E.
    destruct pre; discriminate.
  - cbn [rotateEach]. unfold bind. rewrite rotateOne_eq. cbn zeta.
    destruct (createdAt h (length (trace w))) as [e0|k] eqn:K.
    { cbn [fst snd trace record]. intros E Hc. apply app_inv_head in E.
      destruct pre as [|b pre]; cbn [app] in E.
      - injection E as <-. rewrite Nat.add_0_r, K in Hc.
        injection Hc as ->. auto.
      - injection E as _ E. destruct pre; discriminate. }
    destruct (replaceCrendentials_inner h (name p) (tpl k.1) (tpl k.2)
                (if single then env else JBool false)
                (record w [EvCreateAccessKey])) as (e1 & T1 & I1).
    assert (C1 : forallb (fun e => negb (isCreate e)) e1 = true).
    { revert I1. apply forallb_imp. intros x. unfold inner.
      destruct (isCreate x); [discriminate|reflexivity]. }
    cbn [trace record] in T1.
    assert (G : forall w2 extra,
               trace w2 = (trace w ++ [EvCreateAccessKey]) ++ e1 ++ extra ->
               forallb (fun e => negb (isCreate e)) extra = true ->
               trace (rotateEach h single env rest
                        (rotated ++ [rotatedOf p k]) w2).2
               = trace w ++ pre ++ EvCreateAccessKey :: post ->
               createdAt h (length (trace w) + length pre) = inl e ->
               post = []
               /\ (rotateEach h single env rest
                     (rotated ++ [rotatedOf p k]) w2).1 = Throw e).
    { intros w2 extra T2 X E Hc.
      destruct (rotateEach_calm h single env rest
                  (rotated ++ [rotatedOf p k]) w2) as (e2 & T3 & _).
      rewrite T3, T2, <- !app_assoc in E. apply app_inv_head in E.
      cbn [app] in E. destruct pre as [|b pre]; cbn [app] in E.
      { rewrite Nat.add_0_r, K in Hc. discriminate. }
      injection E as <- E. rewrite app_assoc in E.
      assert (C2 : forallb (fun e => negb (isCreate e)) (e1 ++ extra) = true)
        by (rewrite forallb_app, C1, X; reflexivity).
      destruct (split_after isCreate _ _ _ EvCreateAccessKey _ C2 eq_refl E)
        as (y1 & -> & E2).
      apply (IH (rotated ++ [rotatedOf p k]) w2 y1 post e).
      - rewrite T3, E2. reflexivity.
      - rewrite T2, !length_app. cbn [length] in *. rewrite !length_app in Hc.
        replace (length (trace w) + 1 + (length e1 + length extra) + length y1)%nat
          with (length (trace w) + S (length e1 + length extra + length y1))%nat
          by lia.
        exact Hc. }
    destruct (replaceCrendentials h _ _ _ _ _) as [[[]|e'|c|] w2];
      cbn [snd] in T1; cbn [fst snd].
    + apply (G w2 []); [rewrite app_nil_r; exact T1|reflexivity].
    + apply (G (record w2 [EvOutput (LogFailedReplacing e')])
               [EvOutput (LogFailedReplacing e')]);
        [cbn [trace record]; rewrite T1, <- !app_assoc; reflexivity
        |reflexivity].
    + intros E Hc. exfalso. rewrite T1, <- !app_assoc in E.
      apply app_inv_head in E. cbn [app] in E.
      destruct pre as [|b pre]; cbn [app] in E.
      { rewrite Nat.add_0_r, K in Hc. discriminate. }
      injection E as _ E. rewrite E in C1.
      apply (forallb_not_middle isCreate) in C1. discriminate.
    + intros E Hc. exfalso. rewrite T1, <- !app_assoc in E.
      apply app_inv_head in E. cbn [app] in E.
      destruct pre as [|b pre]; cbn [app] in E.
      { rewrite Nat.add_0_r, K in Hc. discriminate. }
      injection E as _ E. rewrite E in C1.
      apply (forallb_not_middle isCreate) in C1. discriminate.
Qed.

End Failure.

(** X15.  When a key creation fails (the IAM call fails, or its response
    holds no AccessKey and [createAccessKey] throws), the run stops right
    there: the failed creation is its last call and the run ends in that
    error; in particular no old key is deleted. *)
Theorem failed_creation_ends_run h a w pre post e :
  eventsOf (run h a) w = pre ++ EvCreateAccessKey :: post ->
  createdAt h (length (trace w) + length pre) = inl e ->
  post = []
  /\ (run h a w).1 = Throw e
  /\ existsb isDelete (eventsOf (run h a) w) = false.
Proof.
  intros E Hc.
  assert (Q0 : forallb (fun e => negb (mutating e || isNote e))
                 (eventsOf (run h a) w) <> true).
  { intros Q. rewrite E in Q.
    apply (forallb_not_middle (fun e => mutating e || isNote e)) in Q.
    discriminate. }
  destruct ((select h a w).1) as [sel|e0|c|] eqn:S.
  2-4: exfalso; apply Q0; apply run_without_rotation; rewrite S; exact I.
  destruct (selected_cases sel) as [Hl|Hl].
  { exfalso. apply Q0. apply run_without_rotation. rewrite S. exact Hl. }
  destruct (select_kinds h a w) as (SC & SD & _).
  pose proof (run_anatomy h a w sel S Hl) as A. cbn zeta in A.
  destruct (loop_kinds h (Nat.eqb (length sel) 1) (envOf a) sel []
              (record (select h a w).2
                 [EvOutput (SpinnerStart (Nat.ltb 1 (length sel)))]))
    as (LD & _ & _).
  pose proof (rotateEach_failed h (Nat.eqb (length sel) 1) (envOf a) sel []
                (record (select h a w).2
                   [EvOutput (SpinnerStart (Nat.ltb 1 (length sel)))]))
    as F.
  assert (X1 : forallb (fun e => negb (isCreate e))
                 (eventsOf (select h a) w
                    ++ [EvOutput (SpinnerStart (Nat.ltb 1 (length sel)))])
               = true).
  { rewrite forallb_app, SC. reflexivity. }
  assert (P0 : forall y1,
             pre = (eventsOf (select h a) w
                      ++ [EvOutput (SpinnerStart (Nat.ltb 1 (length sel)))])
                     ++ y1 ->
             createdAt h
               (length (trace (record (select h a w).2
                                 [EvOutput (SpinnerStart
                                              (Nat.ltb 1 (length sel)))]))
                + length y1) = inl e).
  { intros y1 ->. cbn [trace record]. rewrite select_trace.
    rewrite !length_app in *. cbn [length] in *.
    rewrite !Nat.add_assoc in *. exact Hc. }
  destruct (rotateEach h (Nat.eqb (length sel) 1) (envOf a) sel []
              (record (select h a w).2
                 [EvOutput (SpinnerStart (Nat.ltb 1 (length sel)))]))
    as [[rotated|e1|c|] w3] eqn:R; cbn [fst snd] in A, F; destruct A as [TA A].
  - exfalso.
    destruct (run_rotated h a w sel rotated w3 S Hl R)
      as (loopEvs & tail & EV & T & _ & _ & _ & _ & O).
    destruct (deleteCalls_kinds sel) as (DC & _ & _).
    assert (TC : forallb (fun e => negb (isCreate e))
                   ((EvOutput (SpinnerStop (length sel)
                                 (Nat.ltb 1 (length sel)))
                       :: deleteCalls sel) ++ tail) = true).
    { rewrite forallb_app. cbn [forallb isCreate negb andb]. rewrite DC.
      destruct (all _) as [e2|l]; destruct O as [_ ->]; [reflexivity|].
      rewrite forallb_app. destruct (argOutput a); [|reflexivity].
      destruct (notes_kinds rotated) as [Q _]. rewrite andb_true_r.
      revert Q. apply forallb_imp. intros x. unfold mutating.
      destruct (isCreate x); [discriminate|reflexivity]. }
    rewrite E in EV. symmetry in EV.
    destruct (split_after isCreate _ _ _ EvCreateAccessKey _ X1 eq_refl EV)
      as (y1 & Hpre & P1).
    destruct (split_before isCreate _ _ _ EvCreateAccessKey _ TC eq_refl P1)
      as (x2 & P2 & _).
    destruct (F y1 x2 e) as [_ F2]; [rewrite T, P2; reflexivity
                                    |exact (P0 y1 Hpre)|discriminate].
  - destruct A as [A1 A2]. rewrite E in A2. symmetry in A2.
    rewrite app_assoc in A2.
    destruct (split_after isCreate _ _ _ EvCreateAccessKey _ X1 eq_refl A2)
      as (y1 & Hpre & P1).
    destruct (F y1 post e) as [-> F2];
      [rewrite TA, <- P1; reflexivity|exact (P0 y1 Hpre)|].
    injection F2 as ->. rewrite A1. repeat split.
    apply existsb_forallb_false. rewrite E, Hpre, !forallb_app, SD.
    cbn [forallb isDelete negb andb].
    rewrite P1, forallb_app in LD.
    apply andb_prop in LD as [-> _]. reflexivity.
  - contradiction.
  - exfalso. destruct A as [A1 A2]. rewrite E in A2. symmetry in A2.
    rewrite app_assoc in A2.
    destruct (split_after isCreate _ _ _ EvCreateAccessKey _ X1 eq_refl A2)
      as (y1 & Hpre & P1).
    destruct (F y1 post e) as [_ F2];
      [rewrite TA, <- P1; reflexivity|exact (P0 y1 Hpre)|discriminate].
Qed.

Lemma failed_creation_ends_run_witness :
  skipn 12 (eventsOf (run Sample.secondCreationEmpty Demo.pick)
              (Demo.start Demo.two)) = []
  /\ (run Sample.secondCreationEmpty Demo.pick (Demo.start Demo.two)).1
     = Throw NoAccessKeyCreated
  /\ existsb isDelete
       (eventsOf (run Sample.secondCreationEmpty Demo.pick)
          (Demo.start Demo.two)) = false.
Proof.
  apply (failed_creation_ends_run Sample.secondCreationEmpty Demo.pick
           (Demo.start Demo.two)
           (firstn 11 (eventsOf (run Sample.secondCreationEmpty Demo.pick)
                         (Demo.start Demo.two)))).
  - vm_compute. reflexivity.
  - vm_compute. reflexivity.
Defined.

(** ** The selection under [-p] *)

(** X16.  Under [-p], with a readable credentials file given by its
    lines: the selection reads the file, asks the provider once for each
    header line of the file, in order, under the name between its
    brackets, and then lists the remote keys; what follows is at most the
    prompt and one line of output; and every profile it selects is named
    by a header line of the file. *)
Theorem select_asks_for_header_lines h a w ls :
  let names := List.map slice1 (List.filter isHeaderLine ls) in
  argProfiles a = true ->
  noLineTerminators ls = true ->
  fileRead h (record w [EvOutput ConsoleLog; EvOutput Intro])
    (credentialsPath h) = Some (joinLines ls) ->
  (exists rest,
     eventsOf (select h a) w
     = [EvOutput ConsoleLog; EvOutput Intro; EvReadFile (credentialsPath h)]
         ++ List.map EvFromIni names ++ EvListAccessKeys :: rest
     /\ (rest = []
         \/ rest = [EvOutput CancelNoKeys]
         \/ exists options,
              incl options names
              /\ (rest = [EvMultiselect options]
                  \/ rest = [EvMultiselect options;
                             EvOutput CancelOperation])))
  /\ forall sel,
       (select h a w).1 = Ok sel -> incl (List.map name sel) names.
Proof.
  intros names P Hls Hf. unfold eventsOf.
  rewrite select_eq, P. cbn zeta.
  rewrite getAllCredentialProfiles_eq, Hf, (profileNames_joinLines ls Hls).
  fold names. rewrite getAllProfiles_eq. cbn zeta.
  rewrite !record_record. cbn [app].
  assert (D : forall rest,
             drop (length (trace w))
               (trace (record w
                         (EvOutput ConsoleLog :: EvOutput Intro
                            :: EvReadFile (credentialsPath h)
                            :: List.map EvFromIni names
                            ++ EvListAccessKeys :: rest)))
             = EvOutput ConsoleLog :: EvOutput Intro
                 :: EvReadFile (credentialsPath h)
                 :: List.map EvFromIni names ++ EvListAccessKeys :: rest).
  { intros rest. cbn [trace record]. apply drop_app_length. }
  destruct (listResponse h _) as [e|keys].
  { split; [|discriminate]. exists []. split; [apply (D [])|auto]. }
  destruct (all _) as [e|loaded] eqn:A.
  { split; [|discriminate]. exists []. split; [apply (D [])|auto]. }
  destruct (loadResults_names h _ _ _ A) as [N _].
  assert (J : forall q, In q (joinProfiles keys loaded) -> In (name q) names).
  { intros q Hq.
    destruct (joinProfiles_In keys loaded q Hq) as (local & _ & _ & _ & Hl & Hn & _).
    rewrite Hn, <- N. apply in_map. exact Hl. }
  destruct (joinProfiles keys loaded) as [|p ps] eqn:JP.
  { split; [|discriminate]. exists [EvOutput CancelNoKeys].
    rewrite record_record. cbn [app]. rewrite <- app_assoc. cbn [app].
    split; [apply D|auto]. }
  assert (O : incl (List.map name (p :: ps)) names).
  { intros x Hx. apply in_map_iff in Hx as (q & <- & Hq). exact (J q Hq). }
  destruct (multiselectAnswer h _ _) as [|values].
  - split; [|discriminate]. exists [EvMultiselect (List.map name (p :: ps));
                                     EvOutput CancelOperation].
    rewrite record_record. cbn [app]. rewrite <- app_assoc. cbn [app].
    split; [apply D|].
    right. right. exists (List.map name (p :: ps)). auto.
  - split.
    + exists [EvMultiselect (List.map name (p :: ps))].
      rewrite record_record. cbn [app]. rewrite <- app_assoc. cbn [app].
    split; [apply D|].
      right. right. exists (List.map name (p :: ps)). auto.
    + intros sel [= <-]. intros x Hx.
      apply in_map_iff in Hx as (q & <- & Hq).
      change (In q (List.filter
                      (fun prof => includes values (name prof)) (p :: ps)))
        in Hq.
      apply filter_In in Hq as [Hq _]. exact (J q Hq).
Qed.

Lemma select_asks_for_header_lines_witness :
  (exists rest,
     eventsOf (select Demo.calm Demo.pick) (Demo.start (joinLines Sample.lines))
     = [EvOutput ConsoleLog; EvOutput Intro; EvReadFile Demo.home]
         ++ List.map EvFromIni [Js.lit "default"; []; Js.lit "a]b"]
         ++ EvListAccessKeys :: rest
     /\ (rest = []
         \/ rest = [EvOutput CancelNoKeys]
         \/ exists options,
              incl options [Js.lit "default"; []; Js.lit "a]b"]
              /\ (rest = [EvMultiselect options]
                  \/ rest = [EvMultiselect options;
                             EvOutput CancelOperation])))
  /\ forall sel,
       (select Demo.calm Demo.pick (Demo.start (joinLines Sample.lines))).1
       = Ok sel ->
       incl (List.map name sel) [Js.lit "default"; []; Js.lit "a]b"].
Proof.
  exact (select_asks_for_header_lines Demo.calm Demo.pick
           (Demo.start (joinLines Sample.lines)) Sample.lines
           eq_refl eq_refl eq_refl).
Defined.

(** ** A rotation with an env file, end to end *)

(** X17.  A run without [-p] and with [-e] (with a path, or without one:
    then the path is [.env]), on a host where no call fails: besides the
    key block of [default] in the credentials file, the env file at the
    resolved path is rewritten, its first AWS_ACCESS_KEY_ID= line and its
    first AWS_SECRET_ACCESS_KEY= line carrying the new key; no other file
    changes; the env file is read and written after the credentials file
    and before the old key is deleted. *)
Theorem default_run_rewrites_env_file
    h a w s cred keys key d newKey pre oldId oldSecret post envLines :
  let file :=
    pre ++ header (Js.lit "default") ++ [10]
      ++ (Js.lit "aws_access_key_id=" ++ oldId) ++ [10]
      ++ (Js.lit "aws_secret_access_key=" ++ oldSecret) ++ post in
  let id := tpl (akAccessKeyId newKey) in
  let secret := tpl (akSecretAccessKey newKey) in
  let newFile :=
    pre ++ newDefaultProfile (Js.lit "default") id secret ++ post in
  let newEnv :=
    joinLines
      (replaceFirst (startsWith (Js.lit "AWS_SECRET_ACCESS_KEY="))
         (Js.lit "AWS_SECRET_ACCESS_KEY=" ++ secret)
         (replaceFirst (startsWith (Js.lit "AWS_ACCESS_KEY_ID="))
            (Js.lit "AWS_ACCESS_KEY_ID=" ++ id) envLines)) in
  argProfiles a = false ->
  envOf a = JString s ->
  resolve h s <> credentialsPath h ->
  (forall t, providerResponse h t (Js.lit "default") = inr cred) ->
  (forall t, listResponse h t = inr (Some keys)) ->
  List.find (sameKeyId (loadedProfile (Js.lit "default") cred)) keys
  = Some key ->
  kmCreateDate key = Some d ->
  (forall t, createResponse h t = inr (Some newKey)) ->
  (forall t k, deleteResponse h t k = None) ->
  (forall t p, readFault h t p = false) ->
  (forall t p, writeFault h t p = false) ->
  fs w !! credentialsPath h = Some file ->
  firstLineWith (header (Js.lit "default")) None file = Some (length pre) ->
  noLineTerminator oldId = true -> noLineTerminator oldSecret = true ->
  Js.atEol post = true ->
  noDollar id = true -> noDollar secret = true ->
  noLineTerminator id = true ->
  fs w !! resolve h s = Some (joinLines envLines) ->
  noLineTerminators envLines = true ->
  (run h a w).1 = Ok tt
  /\ fs (run h a w).2
     = <[resolve h s := newEnv]> (<[credentialsPath h := newFile]> (fs w))
  /\ eventsOf (run h a) w
     = [EvOutput ConsoleLog; EvOutput Intro; EvFromIni (Js.lit "default");
        EvListAccessKeys; EvOutput (SpinnerStart false); EvCreateAccessKey;
        EvReadFile (credentialsPath h);
        EvWriteFile (credentialsPath h) newFile;
        EvReadFile (resolve h s);
        EvWriteFile (resolve h s) newEnv;
        EvOutput (SpinnerStop 1 false);
        EvDeleteAccessKey (crAccessKeyId cred)]
         ++ (if argOutput a
             then [EvOutput (Note {| rkName := Js.lit "default";
                                     rkKey := akAccessKeyId newKey;
                                     rkSecret := akSecretAccessKey newKey |})]
             else [])
         ++ [EvOutput OutroComplete].
Proof.
  intros file id secret newFile newEnv P He Haway Hp Hl Hf Hd Hc Hdel Hr Hw
    Hfile Hfirst Ho1 Ho2 Hpost Di Ds Ni Henv Hls.
  unfold eventsOf. rewrite run_eq.
  rewrite (select_default_found h a w cred keys key d P Hp Hl Hf Hd).
  cbn [length Nat.ltb Nat.leb Nat.eqb].
  rewrite rotate_single_eq, rotateOne_eq. cbn zeta.
  unfold createdAt. rewrite Hc.
  rewrite replaceCrendentials_eq. cbn zeta.
  unfold fileRead. rewrite Hr. cbn [fs record].
  rewrite Hfile.
  cbn [datedProfile name].
  rewrite (compile_sectionPattern (Js.lit "default") eq_refl).
  rewrite Hw. cbn [fst snd]. fold id secret.
  assert (R : Js.replace (sectionRe (Js.lit "default")) file
                (newDefaultProfile (Js.lit "default") id secret) = newFile).
  { apply (replace_section (Js.lit "default") pre
             (Js.lit "aws_access_key_id=" ++ oldId)
             (Js.lit "aws_secret_access_key=" ++ oldSecret) post).
    - exact Hfirst.
    - apply keyLine_prefixed; [reflexivity|exact Ho1].
    - apply keyLine_prefixed; [reflexivity|exact Ho2].
    - exact Hpost.
    - apply newDefaultProfile_noDollar; [reflexivity|exact Di|exact Ds]. }
  rewrite R, He, replaceEnvVars_eq. cbn zeta.
  unfold fileRead. rewrite Hr, Hw. cbn [fs store record].
  rewrite lookup_insert_ne by (intros E; apply Haway; symmetry; exact E).
  rewrite Henv, (newEnvFile_joinLines envLines id secret Hls Ni Di Ds).
  fold newEnv. cbv beta iota zeta.
  rewrite finish_eq; cbn zeta; cbn [deleteResults all]; rewrite Hdel;
    cbn [fst snd fs trace record store deleteCalls List.map accessKeyId
           datedProfile notes length Nat.ltb Nat.leb];
    (split; [reflexivity|]); (split; [reflexivity|]);
    rewrite <- !app_assoc, drop_app_length; cbn [app];
    destruct (argOutput a); reflexivity.
Qed.

Lemma default_run_rewrites_env_file_witness :
  (run Demo.calm Demo.withEnv
     (Sample.withFiles Demo.two (joinLines Sample.envLines))).1 = Ok tt
  /\ fs (run Demo.calm Demo.withEnv
           (Sample.withFiles Demo.two (joinLines Sample.envLines))).2
       !! Sample.envPath
     = Some (joinLines
               (List.map Js.lit
                  ["PORT=8080"; "AWS_ACCESS_KEY_ID=AKIANEW";
                   " AWS_SECRET_ACCESS_KEY=x"; "AWS_SECRET_ACCESS_KEY=SECNEW";
                   "AWS_ACCESS_KEY_ID=AKIAOLDER"]%string)).
Proof.
  destruct (default_run_rewrites_env_file Demo.calm Demo.withEnv
              (Sample.withFiles Demo.two (joinLines Sample.envLines))
              (Js.lit ".env")
              {| crAccessKeyId := Js.lit "AKIAOLD";
                 crSecretAccessKey := Js.lit "SECRET" |}
              Demo.remote
              {| kmAccessKeyId := Some (Js.lit "AKIAOLD");
                 kmCreateDate := Some (Date 1700000000000) |}
              (Date 1700000000000)
              {| akAccessKeyId := Some (Js.lit "AKIANEW");
                 akSecretAccessKey := Some (Js.lit "SECNEW") |}
              [] (Js.lit "AKIAOLD") (Js.lit "SECOLD")
              (10 :: Demo.unlines
                       ["[work]"; "aws_access_key_id=AKIAWRK";
                        "aws_secret_access_key=SECWRK"]%string)
              Sample.envLines
              eq_refl eq_refl ltac:(vm_compute; discriminate)
              (fun _ => eq_refl) (fun _ => eq_refl)
              eq_refl eq_refl (fun _ => eq_refl) (fun _ _ => eq_refl)
              (fun _ _ => eq_refl) (fun _ _ => eq_refl) eq_refl eq_refl
              eq_refl eq_refl eq_refl eq_refl eq_refl eq_refl eq_refl eq_refl)
    as (R & F & _).
  split; [exact R|]. rewrite F. reflexivity.
Defined.

(** ** Two profiles in one file *)

Lemma no_header_in_block name other id secret :
  startsWith (header name) (header other) = false ->
  forallb (fun l => negb (startsWith (header name) l))
    (blockLines other id secret) = true.
Proof.
  intros H. unfold blockLines. cbn [forallb]. rewrite H. reflexivity.
Qed.

Lemma no_header_across name other id secret before mid :
  startsWith (header name) (header other) = false ->
  forallb (fun l => negb (startsWith (header name) l)) (before ++ mid) = true ->
  forallb (fun l => negb (startsWith (header name) l))
    (before ++ blockLines other id secret ++ mid) = true.
Proof.
  intros H. rewrite !forallb_app.
  intros [-> ->]%andb_prop.
  rewrite (no_header_in_block name other id secret H). reflexivity.
Qed.

(** X18.  Two profiles of one credentials file are rotated
    independently: for a file given by its lines that holds the key block
    of one profile and, further down, that of another (each the first
    line that starts with its header), the two calls of
    [replaceCrendentials] replace the two blocks and leave every other
    line as it was, in whichever order they are made. *)
Theorem replaceCrendentials_two_profiles
    h n1 id1 s1 env1 n2 id2 s2 env2 w before o1 p1 mid o2 p2 after :
  let ls :=
    before ++ blockLines n1 o1 p1 ++ mid ++ blockLines n2 o2 p2 ++ after in
  let both :=
    before ++ blockLines n1 id1 s1 ++ mid ++ blockLines n2 id2 s2 ++ after in
  let r12 :=
    replaceCrendentials h n2 id2 s2 env2
      (replaceCrendentials h n1 id1 s1 env1 w).2 in
  let r21 :=
    replaceCrendentials h n1 id1 s1 env1
      (replaceCrendentials h n2 id2 s2 env2 w).2 in
  literalName n1 = true -> noLineTerminator n1 = true ->
  literalName n2 = true -> noLineTerminator n2 = true ->
  noDollar id1 = true -> noDollar s1 = true ->
  noLineTerminator id1 = true -> noLineTerminator s1 = true ->
  noDollar id2 = true -> noDollar s2 = true ->
  noLineTerminator id2 = true -> noLineTerminator s2 = true ->
  noLineTerminators ls = true ->
  forallb (fun l => negb (startsWith (header n1) l)) before = true ->
  forallb (fun l => negb (startsWith (header n2) l)) (before ++ mid) = true ->
  startsWith (header n2) (header n1) = false ->
  fs w !! credentialsPath h = Some (joinLines ls) ->
  (forall t, readFault h t (credentialsPath h) = false) ->
  (forall t, writeFault h t (credentialsPath h) = false) ->
  envAway h env1 -> envAway h env2 ->
  r12.1 = Ok tt /\ r21.1 = Ok tt
  /\ fs r12.2 !! credentialsPath h = Some (joinLines both)
  /\ fs r21.2 !! credentialsPath h = Some (joinLines both).
Proof.
  intros ls both r12 r21 L1 N1 L2 N2 D1 D1' T1 T1' D2 D2' T2 T2' Hls B1 B2 H12
    Hf Hr Hw E1 E2.
  assert (F : forall w0 file,
             fs w0 !! credentialsPath h = Some file ->
             fileRead h w0 (credentialsPath h) = Some file).
  { intros w0 file H0. unfold fileRead. rewrite Hr. exact H0. }
  assert (A2 : forall x y z : list (list N),
             before ++ x ++ mid ++ y ++ z = (before ++ x ++ mid) ++ y ++ z).
  { intros x y z. rewrite <- !app_assoc. reflexivity. }
  (* the first profile, then the second *)
  destruct (replaceCrendentials_lines h n1 id1 s1 env1 w before o1 p1
              (mid ++ blockLines n2 o2 p2 ++ after)
              L1 N1 D1 D1' Hls B1 (F _ _ Hf) (Hw _) E1) as [_ R1].
  assert (Hls1 : noLineTerminators
                   (before ++ blockLines n1 id1 s1
                      ++ mid ++ blockLines n2 o2 p2 ++ after) = true).
  { apply (noLineTerminators_swap before (blockLines n1 o1 p1));
      [exact Hls|]. apply noLineTerminators_block; assumption. }
  rewrite A2 in R1, Hls1.
  destruct (replaceCrendentials_lines h n2 id2 s2 env2 _
              (before ++ blockLines n1 id1 s1 ++ mid) o2 p2 after
              L2 N2 D2 D2' Hls1
              (no_header_across n2 n1 id1 s1 before mid H12 B2)
              (F _ _ R1) (Hw _) E2) as [R12 F12].
  rewrite <- A2 in F12.
  (* the second profile, then the first *)
  pose proof Hls as Hls'. unfold ls in Hls'. rewrite A2 in Hls'.
  pose proof Hf as Hf'. unfold ls in Hf'. rewrite A2 in Hf'.
  destruct (replaceCrendentials_lines h n2 id2 s2 env2 w
              (before ++ blockLines n1 o1 p1 ++ mid) o2 p2 after
              L2 N2 D2 D2' Hls'
              (no_header_across n2 n1 o1 p1 before mid H12 B2)
              (F _ _ Hf') (Hw _) E2) as [_ R2].
  assert (Hls2 : noLineTerminators
                   ((before ++ blockLines n1 o1 p1 ++ mid)
                      ++ blockLines n2 id2 s2 ++ after) = true).
  { apply (noLineTerminators_swap _ (blockLines n2 o2 p2));
      [exact Hls'|]. apply noLineTerminators_block; assumption. }
  rewrite <- A2 in R2, Hls2.
  destruct (replaceCrendentials_lines h n1 id1 s1 env1 _ before o1 p1
              (mid ++ blockLines n2 id2 s2 ++ after)
              L1 N1 D1 D1' Hls2 B1 (F _ _ R2) (Hw _) E1) as [R21 F21].
  auto.
Qed.

Lemma replaceCrendentials_two_profiles_witness :
  let mk a b c d :=
    [Js.lit "# keys"]
      ++ blockLines (Js.lit "default") a b ++ [[]]
      ++ blockLines (Js.lit "work") c d ++ [[]] in
  let w := Demo.start
             (joinLines (mk (Js.lit "AKIAOLD") (Js.lit "SECOLD")
                           (Js.lit "AKIAWRK") (Js.lit "SECWRK"))) in
  let both := mk (Js.lit "AKIAONE") (Js.lit "SECONE")
                (Js.lit "AKIATWO") (Js.lit "SECTWO") in
  let first w0 :=
    replaceCrendentials Demo.calm (Js.lit "default") (Js.lit "AKIAONE")
      (Js.lit "SECONE") (JBool false) w0 in
  let second w0 :=
    replaceCrendentials Demo.calm (Js.lit "work") (Js.lit "AKIATWO")
      (Js.lit "SECTWO") (JBool false) w0 in
  (second (first w).2).1 = Ok tt /\ (first (second w).2).1 = Ok tt
  /\ fs (second (first w).2).2 !! Demo.home = Some (joinLines both)
  /\ fs (first (second w).2).2 !! Demo.home = Some (joinLines both).
Proof.
  exact (replaceCrendentials_two_profiles Demo.calm
           (Js.lit "default") (Js.lit "AKIAONE") (Js.lit "SECONE")
           (JBool false)
           (Js.lit "work") (Js.lit "AKIATWO") (Js.lit "SECTWO") (JBool false)
           (Demo.start
              (joinLines
                 ([Js.lit "# keys"]
                    ++ blockLines (Js.lit "default") (Js.lit "AKIAOLD")
                         (Js.lit "SECOLD") ++ [[]]
                    ++ blockLines (Js.lit "work") (Js.lit "AKIAWRK")
                         (Js.lit "SECWRK") ++ [[]])))
           [Js.lit "# keys"] (Js.lit "AKIAOLD") (Js.lit "SECOLD") [[]]
           (Js.lit "AKIAWRK") (Js.lit "SECWRK") [[]]
           eq_refl eq_refl eq_refl eq_refl eq_refl eq_refl eq_refl eq_refl
           eq_refl eq_refl eq_refl eq_refl eq_refl eq_refl eq_refl eq_refl
           eq_refl (fun _ => eq_refl) (fun _ => eq_refl) I I).
Defined.

(** ** How a run ends *)

(** A rotation that returns has printed "Complete". *)
Lemma rotate_closes h a env sel w :
  (rotate h a env sel w).1 = Ok tt ->
  existsb isClosing (eventsOf (rotate h a env sel) w) = true.
Proof.
  unfold eventsOf. rewrite rotate_eq. set (w0 := record w _). unfold bind.
  destruct (rotateEach_notClosing h (Nat.eqb (length sel) 1) env sel [] w0)
    as (evs & T & _).
  destruct (rotateEach h _ env sel [] w0) as [[ks|e|c|] w2];
    cbn [fst snd] in *; try discriminate.
  rewrite finish_eq. cbn zeta.
  destruct (all _) as [e|l]; cbn [fst snd]; [discriminate|]. intros _.
  cbn [trace record]. rewrite T. unfold w0. cbn [trace record].
  rewrite <- !app_assoc, drop_app_length, !existsb_app.
  cbn [existsb isClosing]. rewrite !orb_true_r. reflexivity.
Qed.

(** X19.  The ways a run ends by itself.  It calls [process.exit(1)] only
    under [-p], after the read of the credentials file failed.  It calls
    [process.exit(0)] exactly when it has printed "No existing access
    keys" or "Operation cancelled".  It returns normally exactly when it
    has printed one of its closing lines: the more-than-two message,
    "Nothing to rotate" or "Complete".  A run that ends in an error has
    printed none of these lines. *)
Theorem run_ends_by_exit_or_closing_line h a w :
  let r := (run h a w).1 in
  let evs := eventsOf (run h a) w in
  (r = Exit 1%Z -> enumerationFails h a w)
  /\ (forall c, r = Exit c -> c = 0%Z \/ c = 1%Z)
  /\ (r = Exit 0%Z <-> existsb isCancel evs = true)
  /\ (r = Ok tt <-> existsb isClosing evs = true)
  /\ (forall e, r = Throw e ->
        existsb isCancel evs = false /\ existsb isClosing evs = false).
Proof.
  cbn zeta. destruct (run_verdict h a w) as (V1 & V2 & V3). cbn zeta in *.
  destruct (select_verdict h a w) as (S1 & S2 & S3 & S4). cbn zeta in *.
  assert (X : forall c, (run h a w).1 = Exit c ->
                        (select h a w).1 = Exit c
                        /\ eventsOf (run h a) w = eventsOf (select h a) w).
  { intros c R. destruct ((select h a w).1) as [sel|e|c'|] eqn:Hs.
    - exfalso. rewrite run_eq in R.
      destruct (select h a w) as [r1 w1]. cbn [fst snd] in *. subst r1.
      destruct (Nat.ltb 2 (length sel)); [discriminate|].
      destruct (Nat.eqb (length sel) 0); [discriminate|].
      destruct (rotate_verdict h a (envOf a) sel w1) as (R1 & _).
      exact (R1 c R).
    - exfalso. rewrite run_eq in R.
      destruct (select h a w) as [r1 w1]. cbn [fst snd] in *. subst r1.
      discriminate.
    - unfold eventsOf. rewrite run_eq in *.
      destruct (select h a w) as [r1 w1]. cbn [fst snd] in *. subst r1.
      cbn [fst snd] in *. injection R as ->. auto.
    - exfalso. exact (S4 eq_refl). }
  assert (NC : forall e, existsb isCancel (eventsOf (run h a) w) = true ->
                         (run h a w).1 <> Throw e).
  { intros e C R. rewrite (V2 C) in R. discriminate. }
  assert (NL : forall e, existsb isClosing (eventsOf (run h a) w) = true ->
                         (run h a w).1 <> Throw e).
  { intros e C R. rewrite (V3 C) in R. discriminate. }
  split; [apply V1|]. split; [|split; [|split; [|]]].
  - intros c R. destruct (X c R) as [Hs _].
    destruct (Z.eq_dec c 0%Z) as [->|N0]; [left; reflexivity|].
    right. rewrite select_eq in Hs. cbn zeta in Hs.
    destruct (argProfiles a).
    + rewrite getAllCredentialProfiles_eq in Hs.
      destruct (fileRead h _ _); cbn [fst snd] in Hs.
      * rewrite getAllProfiles_eq in Hs. cbn zeta in Hs.
        destruct (listResponse h _); [discriminate|].
        destruct (all _) as [|ps]; [discriminate|].
        destruct (joinProfiles _ ps); cbn [fst] in Hs;
          [injection Hs as <-; contradiction|].
        destruct (multiselectAnswer h _ _); cbn [fst] in Hs;
          [injection Hs as <-; contradiction|discriminate].
      * injection Hs as <-. reflexivity.
    + rewrite getAllProfiles_eq in Hs. cbn zeta in Hs.
      destruct (listResponse h _); [discriminate|].
      destruct (all _) as [|ps]; [discriminate|].
      destruct (joinProfiles _ ps); cbn [fst] in Hs;
        [injection Hs as <-; contradiction|discriminate].
  - split; [|apply V2].
    intros R. destruct (X _ R) as [Hs ->]. apply S2. exact Hs.
  - split; [|apply V3].
    intros R. destruct ((select h a w).1) as [sel|e|c|] eqn:Hs.
    + rewrite (eventsOf_run_cases h a w sel Hs), existsb_app.
      rewrite run_eq in R. destruct (select h a w) as [r1 w1].
      cbn [fst snd] in *. subst r1.
      destruct (Nat.ltb 2 (length sel)); [apply orb_true_r|].
      destruct (Nat.eqb (length sel) 0); [apply orb_true_r|].
      rewrite (rotate_closes h a (envOf a) sel w1 R). apply orb_true_r.
    + rewrite run_eq in R. destruct (select h a w) as [r1 w1].
      cbn [fst snd] in *. subst r1. discriminate.
    + rewrite run_eq in R. destruct (select h a w) as [r1 w1].
      cbn [fst snd] in *. subst r1. discriminate.
    + exfalso. exact (S4 eq_refl).
  - intros e R. split.
    + destruct (existsb isCancel _) eqn:C; [|reflexivity].
      exfalso. exact (NC e eq_refl R).
    + destruct (existsb isClosing _) eqn:C; [|reflexivity].
      exfalso. exact (NL e eq_refl R).
Qed.
